(** * Report storage and aggregation layer: [lib/db.ts] and [lib/report-db.ts]

    A shallow embedding of the object-store engine ([IndexedDB]) and of the
    report repository ([ReportDatabase]) built on it, with the properties of
    the specification stated and proved over the embedding, followed by
    further properties of the engine, of the repository and of the two
    functions of [work-timer-popup.tsx] that feed it: [generateReportData]
    and the database steps of [handleGenerateReport].

    Conventions of the embedding:
    - a JavaScript string is the list of its UTF-16 code units;
    - a JavaScript [number] is a binary64 floating-point number: the
      module [Float64] holds the merge of report data and the scoring of
      a search term on the kernel's binary64 numbers, with the operations
      of the format, and the properties of the merge and of the fuzzy
      scoring are stated over it;
    - the merge is embedded on the integers [Z] as well, with [+] the
      addition of integers: within the safe integers the merge of
      [Float64] computes what that one computes
      ([mergeReportData_numbers]), and beyond them it rounds; the counts
      of [generateReportData], which are lengths of lists, are integers;
      the scores of the search properties that do not depend on their
      rounding are exact rationals [Q];
    - a JavaScript [Map] is an association list in insertion order;
    - an object store is the list of its records in ascending key order,
      the order in which the browser's storage enumerates it; the
      primitives of that storage ([IDBObjectStore.get], [put], [delete],
      cursors over key ranges, the abort of a transaction on a failed
      request) follow the Indexed Database standard;
    - an asynchronous operation is a function from the state before to its
      outcome (resolved or rejected) and the state after; the connection
      is taken to be open and the two stores to exist;
    - [String.prototype.toLowerCase], the regular-expression test of the
      whole-word match and the resolution of a field path in a record are
      parameters of the text search. *)

From Stdlib Require Import String Ascii.
From Stdlib Require Import List ZArith NArith QArith Lia Bool.
From Stdlib Require Import Sorted Permutation Lqa.
From Stdlib Require Import Floats.
Import ListNotations.

Local Open Scope Z_scope.
Local Set Warnings "-inexact-float".

(** ** JavaScript strings *)

Definition jsstring := list N.

Definition js (s : string) : jsstring :=
  map N_of_ascii (list_ascii_of_string s).

Fixpoint str_eqb (a b : jsstring) : bool :=
  match a, b with
  | [], [] => true
  | x :: a', y :: b' => N.eqb x y && str_eqb a' b'
  | _, _ => false
  end.

(** Code-unit lexicographic order: the order of [<] on strings and of
    string keys in an object store. *)
Fixpoint str_ltb (a b : jsstring) : bool :=
  match a, b with
  | _, [] => false
  | [], _ :: _ => true
  | x :: a', y :: b' =>
      if N.ltb x y then true
      else if N.eqb x y then str_ltb a' b' else false
  end.

Definition str_leb (a b : jsstring) : bool := negb (str_ltb b a).

(** [s.startsWith(p)] *)
Fixpoint startsWith (s p : jsstring) : bool :=
  match p, s with
  | [], _ => true
  | x :: p', y :: s' => N.eqb x y && startsWith s' p'
  | _ :: _, [] => false
  end.

(** ** JavaScript [Map]: insertion-ordered, keys compared by value *)

Module JSMap.

Section Ops.
Context {V : Type}.

Definition t := list (jsstring * V).

(** [m.get(k)]; [None] is [undefined]. *)
Fixpoint get (m : t) (k : jsstring) : option V :=
  match m with
  | [] => None
  | (k', v) :: m' => if str_eqb k' k then Some v else get m' k
  end.

(** [m.has(k)] *)
Definition has (m : t) (k : jsstring) : bool :=
  match get m k with Some _ => true | None => false end.

(** [m.set(k, v)]: an existing key keeps its position, a new key is
    appended. *)
Fixpoint set (m : t) (k : jsstring) (v : V) : t :=
  match m with
  | [] => [(k, v)]
  | (k', v') :: m' =>
      if str_eqb k' k then (k', v) :: m' else (k', v') :: set m' k v
  end.

(** [m.entries()] *)
Definition entries (m : t) : list (jsstring * V) := m.

Definition keys (m : t) : list jsstring := map fst m.

End Ops.

Arguments t : clear implicits.

End JSMap.

(** ** [Array.prototype.sort] with a comparator

    The sort is stable; for a consistent comparator its result is the
    stable ordering, computed here by insertion. *)

Section JsSort.
Context {A : Type}.
(** [after x y] tells whether the comparator is positive at [(x, y)], that
    is whether [x] has to come after [y]. *)
Context (after : A -> A -> bool).

Fixpoint sort_insert (x : A) (l : list A) : list A :=
  match l with
  | [] => [x]
  | y :: l' => if after x y then y :: sort_insert x l' else x :: y :: l'
  end.

Definition js_sort (l : list A) : list A := fold_right sort_insert [] l.

End JsSort.

(** ** Report data ([report-db.ts], lines 9-48) *)

Record PieChartData := { name : jsstring; value : Z }.

(** A [number] computed by a division: finite, or one of the values a
    division by zero yields. *)
Inductive jsquot := Finite (q : Q) | PosInfinity | NegInfinity | NaN.

Module QuickReportData.
Record t := mk { category : jsstring; percent : jsquot }.
End QuickReportData.

Record Activity := { activity : jsstring; count : Z }.

Record DetailedReportData :=
  { category : jsstring; activities : list Activity }.

Record ReportData := {
  pieChart : list PieChartData;
  quickReport : list QuickReportData.t;
  detailedReport : list DetailedReportData
}.

Module DailyReport.
Record t := mk
  { id : jsstring; date : jsstring; title : jsstring; data : ReportData }.
End DailyReport.

Module YearlyReport.
Record t := mk
  { id : jsstring; year : jsstring; title : jsstring; data : ReportData }.
End YearlyReport.

(** ** [ReportDatabase.mergeReportData] ([report-db.ts], lines 349-412)

    On the integers of the data model, with [+] the addition of integers.
    [Float64.mergeReportData] is the merge of the code, on binary64
    numbers: within the safe integers ([safeIntegers]) it computes what
    this one computes ([mergeReportData_numbers]), and beyond them its
    additions round. *)

(** [x || 0] on the result of a [Map.get]. *)
Definition or_zero (o : option Z) : Z :=
  match o with
  | Some v => if v =? 0 then 0 else v
  | None => 0
  end.

Record MergeState := {
  categoryTotals : JSMap.t Z;
  categoryActivities : JSMap.t (JSMap.t Z);
  grandTotal : Z
}.

(** Body of [for (const item of reportData.pieChart)]. *)
Definition mergeSlice (st : MergeState) (item : PieChartData) : MergeState :=
  let current := or_zero (JSMap.get (categoryTotals st) (name item)) in
  {| categoryTotals :=
       JSMap.set (categoryTotals st) (name item) (current + value item);
     categoryActivities := categoryActivities st;
     grandTotal := grandTotal st + value item |}.

(** Body of [for (const activity of detail.activities)]. *)
Definition mergeActivity (activityMap : JSMap.t Z) (a : Activity)
  : JSMap.t Z :=
  let current := or_zero (JSMap.get activityMap (activity a)) in
  JSMap.set activityMap (activity a) (current + count a).

(** Body of [for (const detail of reportData.detailedReport)]. The inner
    map is shared with the outer one: its updates are written back at the
    category's entry. *)
Definition mergeDetail (cas : JSMap.t (JSMap.t Z)) (detail : DetailedReportData)
  : JSMap.t (JSMap.t Z) :=
  let cas1 :=
    if negb (JSMap.has cas (category detail))
    then JSMap.set cas (category detail) []
    else cas in
  match JSMap.get cas1 (category detail) with
  | Some activityMap =>
      JSMap.set cas1 (category detail)
        (fold_left mergeActivity (activities detail) activityMap)
  | None => cas1
  end.

(** Body of [for (const reportData of reportDataArray)]. *)
Definition mergeOne (st : MergeState) (reportData : ReportData) : MergeState :=
  let st1 := fold_left mergeSlice (pieChart reportData) st in
  {| categoryTotals := categoryTotals st1;
     categoryActivities :=
       fold_left mergeDetail (detailedReport reportData)
         (categoryActivities st1);
     grandTotal := grandTotal st1 |}.

(** [(value / grandTotal) * 100], as an exact quotient;
    [Float64.percentOf] is the percentage the code computes, rounded. *)
Definition percentOf (v total : Z) : jsquot :=
  if total =? 0 then
    (if v =? 0 then NaN else if 0 <? v then PosInfinity else NegInfinity)
  else Finite ((inject_Z v / inject_Z total) * inject_Z 100)%Q.

(** Comparator of [activities.sort((a, b) => b.count - a.count)]. *)
Definition byCountDesc (a b : Activity) : bool := 0 <? count b - count a.

Definition buildDetail (e : jsstring * JSMap.t Z) : DetailedReportData :=
  {| category := fst e;
     activities :=
       js_sort byCountDesc
         (map (fun p => {| activity := fst p; count := snd p |})
            (JSMap.entries (snd e))) |}.

Definition mergeReportData (reportDataArray : list ReportData) : ReportData :=
  let st :=
    fold_left mergeOne reportDataArray
      {| categoryTotals := []; categoryActivities := []; grandTotal := 0 |} in
  {| pieChart :=
       map (fun e => {| name := fst e; value := snd e |})
         (JSMap.entries (categoryTotals st));
     quickReport :=
       map (fun e => QuickReportData.mk (fst e)
                        (percentOf (snd e) (grandTotal st)))
         (JSMap.entries (categoryTotals st));
     detailedReport :=
       map buildDetail (JSMap.entries (categoryActivities st)) |}.

(** ** Asynchronous operations: outcome and state after *)

Inductive error :=
| ConstraintError (key : jsstring)
    (* "Error adding item: ..." on a key that is already stored *)
| BulkAddError
    (* "Error in bulk add: ..." *)
| NotFoundError (key : jsstring)
    (* "Item with key ${key} not found for update" *)
| UpdateError (cause : error)
    (* "Error updating item: ${error}" *)
| NoDailyReports (year : jsstring)
    (* Error("No daily reports found for year ${year}") *)
| PatternSyntaxError.
    (* thrown by [new RegExp] on an ill-formed pattern *)

Inductive outcome (A : Type) :=
| Resolved (a : A)
| Rejected (e : error).

Arguments Resolved {A} a.
Arguments Rejected {A} e.

Definition Op (S A : Type) : Type := S -> outcome A * S.

Definition ret {S A : Type} (a : A) : Op S A := fun s => (Resolved a, s).

Definition reject {S A : Type} (e : error) : Op S A :=
  fun s => (Rejected e, s).

(** [await]: a rejection propagates, the state reached so far stays. *)
Definition bind {S A B : Type} (c : Op S A) (k : A -> Op S B) : Op S B :=
  fun s =>
    match c s with
    | (Resolved a, s') => k a s'
    | (Rejected e, s') => (Rejected e, s')
    end.

(** [try { c } catch (error) { reject(h error) }] *)
Definition catch {S A : Type} (c : Op S A) (h : error -> error) : Op S A :=
  fun s =>
    match c s with
    | (Resolved a, s') => (Resolved a, s')
    | (Rejected e, s') => (Rejected (h e), s')
    end.

Declare Scope op_scope.
Delimit Scope op_scope with op.
Notation "x <- c ;; k" := (bind c (fun x => k))
  (at level 61, c at next level, right associativity) : op_scope.
Notation "c ;; k" := (bind c (fun _ => k))
  (at level 61, right associativity) : op_scope.

(** ** Key ranges ([IDBKeyRange]) and the range factories
    ([db.ts], lines 634-694) *)

Record KeyRange := {
  lower : option jsstring; lowerOpen : bool;
  upper : option jsstring; upperOpen : bool
}.

Definition inRange (r : KeyRange) (k : jsstring) : bool :=
  match lower r with
  | None => true
  | Some lo => if lowerOpen r then str_ltb lo k else str_leb lo k
  end &&
  match upper r with
  | None => true
  | Some hi => if upperOpen r then str_ltb k hi else str_leb k hi
  end.

Definition MAX_CHAR : jsstring := [0xffff%N].

Module createRange.

Definition only (v : jsstring) : KeyRange :=
  {| lower := Some v; lowerOpen := false; upper := Some v; upperOpen := false |}.

Definition lessThan (up : jsstring) : KeyRange :=
  {| lower := None; lowerOpen := false; upper := Some up; upperOpen := true |}.

Definition lessThanOrEqual (up : jsstring) : KeyRange :=
  {| lower := None; lowerOpen := false; upper := Some up; upperOpen := false |}.

Definition greaterThan (lo : jsstring) : KeyRange :=
  {| lower := Some lo; lowerOpen := true; upper := None; upperOpen := false |}.

Definition greaterThanOrEqual (lo : jsstring) : KeyRange :=
  {| lower := Some lo; lowerOpen := false; upper := None; upperOpen := false |}.

Definition between (lo up : jsstring) (lowerExclusive upperExclusive : bool)
  : KeyRange :=
  {| lower := Some lo; lowerOpen := lowerExclusive;
     upper := Some up; upperOpen := upperExclusive |}.

Definition prefix (p : jsstring) : KeyRange :=
  let upperBound := p ++ MAX_CHAR in
  {| lower := Some p; lowerOpen := false;
     upper := Some upperBound; upperOpen := true |}.

End createRange.

(** ** String operations used by the text search *)

(** White space, as [String.prototype.trim] and the pattern [\s] see it. *)
Definition isWhiteSpace (c : N) : bool :=
  existsb (N.eqb c)
    [0x9; 0xa; 0xb; 0xc; 0xd; 0x20; 0xa0; 0x1680; 0x2028; 0x2029; 0x202f;
     0x205f; 0x3000; 0xfeff]%N
  || (N.leb 0x2000 c && N.leb c 0x200a).

Fixpoint dropWhile {A : Type} (f : A -> bool) (l : list A) : list A :=
  match l with
  | [] => []
  | x :: l' => if f x then dropWhile f l' else l
  end.

(** [s.trim()] *)
Definition trim (s : jsstring) : jsstring :=
  rev (dropWhile isWhiteSpace (rev (dropWhile isWhiteSpace s))).

(** [s.split(/\s+/)]: the pieces between the maximal runs of white space;
    a run at either end leaves an empty piece there. [cur] is the piece
    being read, reversed; [inRun] tells that the last unit was white. *)
Fixpoint splitLoop (inRun : bool) (cur : jsstring) (s : jsstring)
  : list jsstring :=
  match s with
  | [] => [rev cur]
  | c :: s' =>
      if isWhiteSpace c then
        if inRun then splitLoop true [] s'
        else rev cur :: splitLoop true [] s'
      else splitLoop false (c :: cur) s'
  end.

Definition splitWhiteSpace (s : jsstring) : list jsstring :=
  splitLoop false [] s.

(** [s.includes(t)] *)
Fixpoint includes (s t : jsstring) : bool :=
  startsWith s t ||
  match s with
  | [] => false
  | _ :: s' => includes s' t
  end.

(** ** [levenshteinDistance] ([db.ts], lines 747-772) *)

(** [arr[i] = v] where [i] is at most the length of [arr]: the element is
    overwritten, or appended when [i] is the length. *)
Fixpoint assign {A : Type} (arr : list A) (i : nat) (v : A) : list A :=
  match arr, i with
  | [], _ => [v]
  | _ :: arr', O => v :: arr'
  | x :: arr', S i' => x :: assign arr' i' v
  end.

(** [matrix[i][j]] *)
Definition entry (matrix : list (list nat)) (i j : nat) : nat :=
  nth j (nth i matrix []) 0%nat.

(** [matrix[i][j] = v] *)
Definition assignEntry (matrix : list (list nat)) (i j v : nat)
  : list (list nat) :=
  assign matrix i (assign (nth i matrix []) j v).

(** [a[i]], a code unit of the string. *)
Definition charAt (a : jsstring) (i : nat) : N := nth i a 0%N.

Definition levenshteinDistance (a b : jsstring) : nat :=
  (* for (let i = 0; i <= a.length; i++) matrix[i] = [i]; *)
  let matrix0 :=
    fold_left (fun matrix i => assign matrix i [i])
      (seq 0 (S (length a))) [] in
  (* for (let j = 0; j <= b.length; j++) matrix[0][j] = j; *)
  let matrix1 :=
    fold_left (fun matrix j => assignEntry matrix 0 j j)
      (seq 0 (S (length b))) matrix0 in
  (* for (let i = 1; i <= a.length; i++)
       for (let j = 1; j <= b.length; j++) ... *)
  let matrix2 :=
    fold_left
      (fun matrix i =>
         fold_left
           (fun matrix j =>
              let cost :=
                if N.eqb (charAt a (i - 1)) (charAt b (j - 1))
                then 0%nat else 1%nat in
              assignEntry matrix i j
                (Nat.min
                   (Nat.min (entry matrix (i - 1) j + 1)
                      (entry matrix i (j - 1) + 1))
                   (entry matrix (i - 1) (j - 1) + cost)))
           (seq 1 (length b)) matrix)
      (seq 1 (length a)) matrix1 in
  entry matrix2 (length a) (length b).

(** ** Rational comparisons *)

Definition Qltb (a b : Q) : bool := negb (Qle_bool b a).

(** ** The object-store engine ([db.ts]) *)

Module IndexedDB.

Section Engine.
Context {R : Type}.
(** The store's in-line key: the record's field at [keyPath]. *)
Context (keyOf : R -> jsstring).

(** An object store: its records in ascending key order. *)
Definition Store := list R.

(** [IDBObjectStore.get] *)
Fixpoint lookup (s : Store) (k : jsstring) : option R :=
  match s with
  | [] => None
  | r :: s' => if str_eqb (keyOf r) k then Some r else lookup s' k
  end.

(** [IDBObjectStore.put]: insert at the key's place, or replace. *)
Fixpoint insert (item : R) (s : Store) : Store :=
  match s with
  | [] => [item]
  | r :: s' =>
      if str_ltb (keyOf item) (keyOf r) then item :: r :: s'
      else if str_eqb (keyOf r) (keyOf item) then item :: s'
      else r :: insert item s'
  end.

(** [IDBObjectStore.delete] *)
Definition remove (k : jsstring) (s : Store) : Store :=
  List.filter (fun r => negb (str_eqb (keyOf r) k)) s.

(** Lines 163-184. *)
Definition add (item : R) : Op Store jsstring :=
  fun s =>
    match lookup s (keyOf item) with
    | Some _ => (Rejected (ConstraintError (keyOf item)), s)
    | None => (Resolved (keyOf item), insert item s)
    end.

(** The [store.add] calls of one transaction: the first failure aborts it. *)
Fixpoint addAll (items : list R) (s : Store) : option Store :=
  match items with
  | [] => Some s
  | item :: rest =>
      match lookup s (keyOf item) with
      | Some _ => None
      | None => addAll rest (insert item s)
      end
  end.

(** Lines 192-216: an aborted transaction leaves the store as it was. *)
Definition addMultiple (items : list R) : Op Store unit :=
  fun s =>
    match addAll items s with
    | Some s' => (Resolved tt, s')
    | None => (Rejected BulkAddError, s)
    end.

(** Lines 224-245. *)
Definition put (item : R) : Op Store jsstring :=
  fun s => (Resolved (keyOf item), insert item s).

(** Lines 345-369. *)
Definition get (key : jsstring) : Op Store (option R) :=
  fun s => (Resolved (lookup s key), s).

(** Lines 254-280. A stored record is an object, hence truthy:
    [!currentValue] holds exactly when the read gave [undefined]. *)
Definition update (key : jsstring) (updateFn : R -> R) : Op Store R :=
  (currentValue <- catch (get key) UpdateError ;;
   match currentValue with
   | None => reject (NotFoundError key)
   | Some cur =>
       let updatedValue := updateFn cur in
       catch (put updatedValue) UpdateError ;;
       ret updatedValue
   end)%op.

(** Lines 288-309. *)
Definition delete (key : jsstring) : Op Store unit :=
  fun s => (Resolved tt, remove key s).

(** Lines 316-337. *)
Definition clear : Op Store unit := fun _ => (Resolved tt, []).

(** Lines 407-430. *)
Definition getAll : Op Store (list R) := fun s => (Resolved s, s).

Inductive CursorDirection := next | prev.

Record SearchParams := {
  range : option KeyRange;
  limit : option Z;
  direction : option CursorDirection;
  filter : option (R -> bool)
}.

Definition rangeOnly (r : KeyRange) : SearchParams :=
  {| range := Some r; limit := None; direction := None; filter := None |}.

(** The records a cursor opened on the store visits, in order. *)
Definition openCursor (s : Store) (r : option KeyRange)
  (d : CursorDirection) : list R :=
  let inside :=
    match r with
    | None => s
    | Some rg => List.filter (fun x => inRange rg (keyOf x)) s
    end in
  match d with next => inside | prev => rev inside end.

(** [searchParams.limit && results.length >= searchParams.limit] *)
Definition limitReached (l : option Z) (results : list R) : bool :=
  match l with
  | None => false
  | Some n => negb (n =? 0) && (n <=? Z.of_nat (length results))
  end.

(** The [onsuccess] handler of lines 605-627, run along the cursor. *)
Fixpoint cursorLoop (p : SearchParams) (cursor : list R) (results : list R)
  : list R :=
  match cursor with
  | [] => results
  | item :: rest =>
      let results' :=
        match filter p with
        | None => results ++ [item]
        | Some f => if f item then results ++ [item] else results
        end in
      if limitReached (limit p) results' then results'
      else cursorLoop p rest results'
  end.

(** Lines 572-629, on the store itself (no [index]). *)
Definition search (p : SearchParams) : Op Store (list R) :=
  fun s =>
    let direction :=
      match direction p with Some d => d | None => next end in
    (Resolved (cursorLoop p (openCursor s (range p) direction) []), s).

(** *** [fullTextSearch] (lines 704-845) *)

Record SearchOptions := {
  optLimit : option Z;
  caseSensitive : bool;
  matchWholeWord : bool;
  fuzzyMatch : bool;
  fuzzyMatchThreshold : option Q
}.

Record Scored := { item : R; score : Q }.

Section FullText.
(** The string a field path selects in a record ([None] when what it
    selects is not a string; a missing field gives the empty string). *)
Context (fieldValue : R -> jsstring -> option jsstring).
(** [String.prototype.toLowerCase] *)
Context (toLowerCase : jsstring -> jsstring).
(** [new RegExp("\\b" + term + "\\b", flags).test(text)], with the flag
    [i] when [ignoreCase]; [None] when the pattern is ill-formed. *)
Context (wholeWordTest :
  forall (term : jsstring) (ignoreCase : bool) (text : jsstring), option bool).

Context (options : SearchOptions).

Definition indicator (b : bool) : Q := if b then 1%Q else 0%Q.

(** Lines 730-744; [None] when the pattern cannot be built. *)
Definition getExactMatchScore (text term : jsstring) : option Q :=
  let processedText :=
    if caseSensitive options then text else toLowerCase text in
  if matchWholeWord options then
    option_map indicator
      (wholeWordTest term (negb (caseSensitive options)) processedText)
  else Some (indicator (includes processedText term)).

(** [options.fuzzyMatchThreshold || 0.7] *)
Definition threshold : Q :=
  match fuzzyMatchThreshold options with
  | Some t => if Qeq_bool t 0 then (7 # 10)%Q else t
  | None => (7 # 10)%Q
  end.

(** [1 - distance / maxLength] *)
Definition similarity (word term : jsstring) : Q :=
  let distance := levenshteinDistance word term in
  let maxLength := Nat.max (length word) (length term) in
  (1 - inject_Z (Z.of_nat distance) / inject_Z (Z.of_nat maxLength))%Q.

(** Body of [for (const word of words)], lines 786-799, on exact
    rationals; [Float64.fuzzyStep] is the step on binary64 numbers. *)
Definition fuzzyStep (term : jsstring) (bestScore : Q) (word : jsstring) : Q :=
  if (length word <? 3)%nat then bestScore
  else
    let similarityScore := similarity word term in
    if Qle_bool threshold similarityScore && Qltb bestScore similarityScore
    then similarityScore
    else bestScore.

(** Lines 775-802. *)
Definition getFuzzyMatchScore (text term : jsstring) : option Q :=
  if (length term <=? 3)%nat then getExactMatchScore text term
  else
    let processedText :=
      if caseSensitive options then text else toLowerCase text in
    let words := splitWhiteSpace processedText in
    Some (fold_left (fuzzyStep term) words 0%Q).

Definition termScore (text term : jsstring) : option Q :=
  if fuzzyMatch options then getFuzzyMatchScore text term
  else getExactMatchScore text term.

(** [for (const term of queryTerms)], lines 822-828. *)
Fixpoint scoreTerms (text : jsstring) (queryTerms : list jsstring)
  (totalScore : Q) : option Q :=
  match queryTerms with
  | [] => Some totalScore
  | term :: rest =>
      match termScore text term with
      | Some sc => scoreTerms text rest (totalScore + sc)%Q
      | None => None
      end
  end.

(** [for (const field of fields)], lines 809-829. *)
Fixpoint scoreFields (it : R) (fields : list jsstring)
  (queryTerms : list jsstring) (totalScore : Q) : option Q :=
  match fields with
  | [] => Some totalScore
  | field :: rest =>
      match fieldValue it field with
      | None => scoreFields it rest queryTerms totalScore
      | Some text =>
          match scoreTerms text queryTerms totalScore with
          | Some total' => scoreFields it rest queryTerms total'
          | None => None
          end
      end
  end.

(** [items.map((item) => ...)], lines 805-832. *)
Fixpoint scoreItems (items : list R) (fields queryTerms : list jsstring)
  : option (list Scored) :=
  match items with
  | [] => Some []
  | it :: rest =>
      match scoreFields it fields queryTerms 0%Q with
      | Some total =>
          option_map (cons {| item := it; score := total |})
            (scoreItems rest fields queryTerms)
      | None => None
      end
  end.

Definition queryTermsOf (query : jsstring) : list jsstring :=
  let processedQuery :=
    if caseSensitive options then query else toLowerCase query in
  List.filter (fun term => (0 <? length term)%nat)
    (splitWhiteSpace processedQuery).

(** Comparator of [.sort((a, b) => b.score - a.score)]. *)
Definition byScoreDesc (a b : Scored) : bool :=
  Qltb 0 (score b - score a).

(** [!query || query.trim() === ""] *)
Definition isBlank (query : jsstring) : bool :=
  match query with
  | [] => true
  | _ => match trim query with [] => true | _ => false end
  end.

Definition fullTextSearch (query : jsstring) (fields : list jsstring)
  : Op Store (list Scored) :=
  (items <- getAll ;;
   if isBlank query then
     ret (map (fun it => {| item := it; score := 0%Q |}) items)
   else
     match scoreItems items fields (queryTermsOf query) with
     | None => reject PatternSyntaxError
     | Some results =>
         let sortedResults :=
           js_sort byScoreDesc
             (List.filter (fun result => Qltb 0 (score result)) results) in
         match optLimit options with
         | Some n =>
             if 0 <? n then ret (firstn (Z.to_nat n) sortedResults)
             else ret sortedResults
         | None => ret sortedResults
         end
     end)%op.

End FullText.

End Engine.

Arguments Store : clear implicits.
Arguments SearchParams : clear implicits.
Arguments Scored : clear implicits.

End IndexedDB.

(** ** [Date.prototype.toISOString] and [split("T")[0]] *)

(** A valid [Date], by its UTC calendar fields. *)
Record Date := {
  utcFullYear : Z; utcMonth : N; utcDate : N;
  utcHours : N; utcMinutes : N; utcSeconds : N; utcMilliseconds : N
}.

Fixpoint digitsLoop (width : nat) (n : N) (acc : jsstring) : jsstring :=
  match width with
  | O => acc
  | S w => digitsLoop w (n / 10)%N ((48 + n mod 10)%N :: acc)
  end.

(** [n] in decimal, zero-padded to [width] digits. *)
Definition padded (width : nat) (n : N) : jsstring := digitsLoop width n [].

(** [YYYY-MM-DDTHH:mm:ss.sssZ]; a year outside 0..9999 is written with a
    sign and six digits. *)
Definition toISOString (d : Date) : jsstring :=
  let y := utcFullYear d in
  let yearPart :=
    if (0 <=? y) && (y <=? 9999) then padded 4 (Z.to_N y)
    else (if 0 <=? y then js "+" else js "-") ++ padded 6 (Z.to_N (Z.abs y)) in
  yearPart ++ js "-" ++ padded 2 (utcMonth d) ++ js "-" ++ padded 2 (utcDate d)
    ++ js "T" ++ padded 2 (utcHours d) ++ js ":" ++ padded 2 (utcMinutes d)
    ++ js ":" ++ padded 2 (utcSeconds d) ++ js "." ++
    padded 3 (utcMilliseconds d) ++ js "Z".

(** [s.split(sep)[0]] for a one-unit separator. *)
Fixpoint splitHead (sep : N) (s : jsstring) : jsstring :=
  match s with
  | [] => []
  | c :: s' => if N.eqb c sep then [] else c :: splitHead sep s'
  end.

(** [Promise.all(l.map(f))] for operations that each settle on their own. *)
Fixpoint promiseAll {S A : Type} (l : list A) (f : A -> Op S unit)
  : Op S unit :=
  match l with
  | [] => ret tt
  | x :: l' => (f x ;; promiseAll l' f)%op
  end.

(** ** The report repository ([report-db.ts]) *)

Module ReportDatabase.

(** The two stores of the database [selfTrackingReports], both keyed by
    [id]. *)
Record DB := {
  dailyReports : IndexedDB.Store DailyReport.t;
  yearlyReports : IndexedDB.Store YearlyReport.t
}.

(** An engine call on the store [DAILY_REPORTS_STORE]. *)
Definition onDaily {A : Type} (c : Op (IndexedDB.Store DailyReport.t) A)
  : Op DB A :=
  fun db =>
    let (r, s) := c (dailyReports db) in
    (r, {| dailyReports := s; yearlyReports := yearlyReports db |}).

(** An engine call on the store [YEARLY_REPORTS_STORE]. *)
Definition onYearly {A : Type} (c : Op (IndexedDB.Store YearlyReport.t) A)
  : Op DB A :=
  fun db =>
    let (r, s) := c (yearlyReports db) in
    (r, {| dailyReports := dailyReports db; yearlyReports := s |}).

Definition addDailyReport (report : DailyReport.t) : Op DB jsstring :=
  onDaily (IndexedDB.add DailyReport.id report).

Definition updateDailyReport (report : DailyReport.t) : Op DB jsstring :=
  onDaily (IndexedDB.put DailyReport.id report).

Definition getDailyReport (id : jsstring) : Op DB (option DailyReport.t) :=
  onDaily (IndexedDB.get DailyReport.id id).

Definition deleteDailyReport (id : jsstring) : Op DB unit :=
  onDaily (IndexedDB.delete DailyReport.id id).

Definition getAllDailyReports : Op DB (list DailyReport.t) :=
  onDaily IndexedDB.getAll.

Definition getAllYearlyReports : Op DB (list YearlyReport.t) :=
  onYearly IndexedDB.getAll.

Definition addYearlyReport (report : YearlyReport.t) : Op DB jsstring :=
  onYearly (IndexedDB.add YearlyReport.id report).

(** Lines 186-195. *)
Definition getDailyReportsByMonth (yearMonth : jsstring)
  : Op DB (list DailyReport.t) :=
  let prefix := yearMonth ++ js "-" in
  let range := createRange.prefix prefix in
  onDaily (IndexedDB.search DailyReport.id (IndexedDB.rangeOnly range)).

(** Lines 262-278. *)
Definition cleanupOldReports (olderThan : Date) : Op DB unit :=
  let olderThanStr := splitHead 84 (toISOString olderThan) in
  let range := createRange.lessThan olderThanStr in
  (oldReports <-
     onDaily (IndexedDB.search DailyReport.id (IndexedDB.rangeOnly range)) ;;
   promiseAll oldReports
     (fun report =>
        onDaily (IndexedDB.delete DailyReport.id (DailyReport.id report))))%op.

(** Lines 335-342. *)
Definition getDailyReportsByYear (year : jsstring)
  : Op DB (list DailyReport.t) :=
  let prefix := year ++ js "-" in
  let range := createRange.prefix prefix in
  onDaily (IndexedDB.search DailyReport.id (IndexedDB.rangeOnly range)).

(** Lines 306-328. *)
Definition generateYearlyReport (year : jsstring) : Op DB YearlyReport.t :=
  (dailyReports <- getDailyReportsByYear year ;;
   if (length dailyReports =? 0)%nat then reject (NoDailyReports year)
   else
     let mergedData := mergeReportData (map DailyReport.data dailyReports) in
     ret {| YearlyReport.id := year;
            YearlyReport.year := year;
            YearlyReport.title := js "Annual Report " ++ year;
            YearlyReport.data := mergedData |})%op.

(** The argument of [importReports]; [None] is an absent array. *)
Record ImportData := {
  importDaily : option (list DailyReport.t);
  importYearly : option (list YearlyReport.t)
}.

(** [arr && arr.length > 0] *)
Definition present {A : Type} (arr : option (list A)) : option (list A) :=
  match arr with
  | Some l => if (0 <? length l)%nat then Some l else None
  | None => None
  end.

(** Lines 435-455. *)
Definition importReports (data : ImportData) : Op DB unit :=
  (match present (importDaily data) with
   | Some items =>
       onDaily IndexedDB.clear ;;
       onDaily (IndexedDB.addMultiple DailyReport.id items)
   | None => ret tt
   end ;;
   match present (importYearly data) with
   | Some items =>
       onYearly IndexedDB.clear ;;
       onYearly (IndexedDB.addMultiple YearlyReport.id items)
   | None => ret tt
   end)%op.

End ReportDatabase.

(** ** Vocabulary of the aggregation properties *)

Definition zsum (l : list Z) : Z := fold_right Z.add 0 l.

(** Sum of the values of a slice list. *)
Definition sumValues (l : list PieChartData) : Z := zsum (map value l).

(** Sum, over all inputs, of the input's slice values. *)
Definition grandTotalOf (rs : list ReportData) : Z :=
  zsum (map (fun r => sumValues (pieChart r)) rs).

(** The counts recorded for activity [a] in an activity list, in order. *)
Definition countsIn (a : jsstring) (xs : list Activity) : list Z :=
  map count (List.filter (fun x => str_eqb (activity x) a) xs).

Definition countsOfDetail (c a : jsstring) (d : DetailedReportData) : list Z :=
  if str_eqb (category d) c then countsIn a (activities d) else [].

(** The counts recorded for [(c, a)] across all inputs. *)
Definition countsAcross (c a : jsstring) (rs : list ReportData) : list Z :=
  flat_map (fun r => flat_map (countsOfDetail c a) (detailedReport r)) rs.

Definition activityTotal (c a : jsstring) (rs : list ReportData) : Z :=
  zsum (countsAcross c a rs).

(** The pair [(c, a)] appears in some input's detailed report. *)
Definition appearsIn (c a : jsstring) (rs : list ReportData) : Prop :=
  exists r d x,
    In r rs /\ In d (detailedReport r) /\ category d = c /\
    In x (activities d) /\ activity x = a.

Definition countDescending (l : list Activity) : Prop :=
  StronglySorted (fun x y => count y <= count x) l.

(** What a key holds after the counts [ns] were added to it one by one. *)
Definition tally (o : option Z) (ns : list Z) : option Z :=
  fold_left (fun o n => Some (or_zero o + n)) ns o.

Definition get2 (m : JSMap.t (JSMap.t Z)) (c a : jsstring) : option Z :=
  match JSMap.get m c with
  | Some am => JSMap.get am a
  | None => None
  end.

(** Keys are distinct in the outer map and in every inner map. *)
Definition distinctKeys (m : JSMap.t (JSMap.t Z)) : Prop :=
  NoDup (JSMap.keys m) /\ Forall (fun e => NoDup (JSMap.keys (snd e))) m.

(** ** Vocabulary of the store properties *)

(** The records of a store are in strictly ascending key order. *)
Definition sortedStore {R : Type} (keyOf : R -> jsstring) (s : list R) : Prop :=
  StronglySorted (fun a b => str_ltb (keyOf a) (keyOf b) = true) s.

(** The store holds a record with key [k]. *)
Definition hasKey {R : Type} (keyOf : R -> jsstring) (s : list R)
  (k : jsstring) : Prop :=
  In k (map keyOf s).

Definition isDigit (c : N) : bool := N.leb 48 c && N.leb c 57.

(** The id format [YYYY-MM-DD] of a daily report. *)
Definition wellFormedId (s : jsstring) : bool :=
  match s with
  | [y1; y2; y3; y4; h1; m1; m2; h2; d1; d2] =>
      isDigit y1 && isDigit y2 && isDigit y3 && isDigit y4 && N.eqb h1 45 &&
      isDigit m1 && isDigit m2 && N.eqb h2 45 && isDigit d1 && isDigit d2
  | _ => false
  end.

(** A string free of the sentinel unit [0xffff] (and of anything above). *)
Definition belowMaxChar (s : jsstring) : bool :=
  forallb (fun c => N.ltb c 0xffff) s.


(** The rendering [YYYY-MM-DD] of a date. *)
Definition yyyymmdd (d : Date) : jsstring :=
  padded 4 (Z.to_N (utcFullYear d)) ++ js "-" ++ padded 2 (utcMonth d)
    ++ js "-" ++ padded 2 (utcDate d).

(** What the two steps of an import, clear then bulk insert, make of one
    store. *)
Definition replaceStore {R : Type} (keyOf : R -> jsstring)
  (arr : option (list R)) (s : list R) : outcome unit * list R :=
  match ReportDatabase.present arr with
  | Some items =>
      match IndexedDB.addAll keyOf items [] with
      | Some s' => (Resolved tt, s')
      | None => (Rejected BulkAddError, [])
      end
  | None => (Resolved tt, s)
  end.


(** ** Vocabulary of the text-search properties *)

(** A word counts for a term when it has at least three units and its
    similarity reaches the threshold. *)
Definition candidate (thr : Q) (term w : jsstring) : Prop :=
  (3 <= length w)%nat /\ (thr <= IndexedDB.similarity w term)%Q.

(** [q] is the best similarity of the candidates among [words], or 0 when
    none does better. *)
Definition bestSimilarity (thr : Q) (term : jsstring) (words : list jsstring)
  (q : Q) : Prop :=
  (0 <= q)%Q /\
  (forall w, In w words -> candidate thr term w ->
     (IndexedDB.similarity w term <= q)%Q) /\
  (q = 0%Q \/
   exists w, In w words /\ candidate thr term w /\
             q = IndexedDB.similarity w term).

(** The options [o] with fuzzy matching on and the threshold [t]. *)
Definition withFuzzyThreshold (o : IndexedDB.SearchOptions) (t : Q)
  : IndexedDB.SearchOptions :=
  {| IndexedDB.optLimit := IndexedDB.optLimit o;
     IndexedDB.caseSensitive := IndexedDB.caseSensitive o;
     IndexedDB.matchWholeWord := IndexedDB.matchWholeWord o;
     IndexedDB.fuzzyMatch := true;
     IndexedDB.fuzzyMatchThreshold := Some t |}.

(** [{ fuzzyMatch: true, fuzzyMatchThreshold: t }] *)
Definition fuzzyOptions (t : Q) : IndexedDB.SearchOptions :=
  {| IndexedDB.optLimit := None;
     IndexedDB.caseSensitive := false;
     IndexedDB.matchWholeWord := false;
     IndexedDB.fuzzyMatch := true;
     IndexedDB.fuzzyMatchThreshold := Some t |}.

(** [toLowerCase] on strings whose letters are all ASCII. *)
Definition asciiLower (s : jsstring) : jsstring :=
  map (fun c => if N.leb 65 c && N.leb c 90 then (c + 32)%N else c) s.

(** The names every object inherits from [Object.prototype]: what they
    select is a function or an object. *)
Definition inheritedNames : list jsstring :=
  map js ["constructor"; "hasOwnProperty"; "isPrototypeOf";
          "propertyIsEnumerable"; "toLocaleString"; "toString"; "valueOf";
          "__proto__"; "__defineGetter__"; "__defineSetter__";
          "__lookupGetter__"; "__lookupSetter__"]%string.

(** What a field name that is one key, and no path of several, selects in
    a daily report: one of its three strings; nothing for [data] and for
    an inherited name, whose values are no strings; and the empty string
    for a name the report lacks. *)
Definition dailyField (r : DailyReport.t) (field : jsstring)
  : option jsstring :=
  if str_eqb field (js "id") then Some (DailyReport.id r)
  else if str_eqb field (js "date") then Some (DailyReport.date r)
  else if str_eqb field (js "title") then Some (DailyReport.title r)
  else if str_eqb field (js "data") || existsb (str_eqb field) inheritedNames
  then None
  else Some [].

Definition emptyData : ReportData :=
  {| pieChart := []; quickReport := []; detailedReport := [] |}.

(** A daily report of the given id and title. *)
Definition titled (id title : string) : DailyReport.t :=
  DailyReport.mk (js id) (js id) (js title) emptyData.


(** The entries are in descending order of score. *)
Definition scoreDescending {R : Type} (l : list (IndexedDB.Scored R)) : Prop :=
  StronglySorted
    (fun a b => (IndexedDB.score b <= IndexedDB.score a)%Q) l.

(** ** Sample data *)

(** A day with one category, "Work", holding the activity "coding" once. *)
Definition workDay (id : string) : DailyReport.t :=
  DailyReport.mk (js id) (js id) (js "Daily Report " ++ js id)
    {| pieChart := [{| name := js "Work"; value := 1 |}];
       quickReport := [QuickReportData.mk (js "Work") (Finite 100)];
       detailedReport :=
         [{| category := js "Work";
             activities := [{| activity := js "coding"; count := 1 |}] |}] |}.

Definition emptyDB : ReportDatabase.DB :=
  {| ReportDatabase.dailyReports := []; ReportDatabase.yearlyReports := [] |}.

(** The store after three days were added, the latest first. *)
Definition threeDays : ReportDatabase.DB :=
  snd ((ReportDatabase.addDailyReport (workDay "2024-02-01") ;;
        ReportDatabase.addDailyReport (workDay "2024-01-01") ;;
        ReportDatabase.addDailyReport (workDay "2024-01-15"))%op emptyDB).

(** The store around the cleanup boundary of 1 February 2024. *)
Definition aroundFebruary : ReportDatabase.DB :=
  snd ((ReportDatabase.addDailyReport (workDay "2024-02-01") ;;
        ReportDatabase.addDailyReport (workDay "2024-01-31"))%op emptyDB).

(** [new Date("2024-02-01")] *)
Definition firstOfFebruary : Date :=
  {| utcFullYear := 2024; utcMonth := 2; utcDate := 1;
     utcHours := 0; utcMinutes := 0; utcSeconds := 0; utcMilliseconds := 0 |}.


(** Two option records differ at most in [fuzzyMatchThreshold]. *)
Definition sameButThreshold (o1 o2 : IndexedDB.SearchOptions) : Prop :=
  IndexedDB.optLimit o1 = IndexedDB.optLimit o2 /\
  IndexedDB.caseSensitive o1 = IndexedDB.caseSensitive o2 /\
  IndexedDB.matchWholeWord o1 = IndexedDB.matchWholeWord o2 /\
  IndexedDB.fuzzyMatch o1 = IndexedDB.fuzzyMatch o2.

(** ** The engine: counting and key reads ([db.ts]) *)

Module IndexedDBReads.

(** The optional argument of [count]: a key or a key range. *)
Inductive Query :=
| QueryKey (k : jsstring)
| QueryRange (r : KeyRange).

Section Reads.
Context {R : Type}.
Context (keyOf : R -> jsstring).

(** [IDBObjectStore.count(query)] *)
Definition countMatching (s : IndexedDB.Store R) (q : Query) : nat :=
  match q with
  | QueryKey k => length (List.filter (fun r => str_eqb (keyOf r) k) s)
  | QueryRange rg => length (List.filter (fun r => inRange rg (keyOf r)) s)
  end.

(** The truth value of a query: a range is an object, a string key is
    false when empty. *)
Definition truthy (q : Query) : bool :=
  match q with
  | QueryKey [] => false
  | _ => true
  end.

(** Lines 466-490: [query ? store.count(query) : store.count()]. *)
Definition count (query : option Query) : Op (IndexedDB.Store R) nat :=
  fun s =>
    (Resolved
       match query with
       | Some q => if truthy q then countMatching s q else length s
       | None => length s
       end, s).

(** Lines 377-400: [store.count(key)] and the test [result > 0]. *)
Definition exists_ (key : jsstring) : Op (IndexedDB.Store R) bool :=
  fun s => (Resolved (0 <? countMatching s (QueryKey key))%nat, s).

(** Lines 437-458. *)
Definition getAllKeys : Op (IndexedDB.Store R) (list jsstring) :=
  fun s => (Resolved (map keyOf s), s).

End Reads.

End IndexedDBReads.

(** ** Vocabulary of the scan properties *)

(** The record passes the filter of the search, if there is one. *)
Definition passes {R : Type} (p : IndexedDB.SearchParams R) (x : R) : bool :=
  match IndexedDB.filter p with
  | None => true
  | Some f => f x
  end.

(** The records the cursor of a search visits when nothing stops it. *)
Definition visited {R : Type} (keyOf : R -> jsstring)
  (p : IndexedDB.SearchParams R) (s : IndexedDB.Store R) : list R :=
  IndexedDB.openCursor keyOf s (IndexedDB.range p)
    match IndexedDB.direction p with
    | Some d => d
    | None => IndexedDB.next
    end.

(** ** Vocabulary of the edit-distance properties *)

(** The value the loops of [levenshteinDistance] leave at [matrix[i][j]]:
    row 0 and column 0 hold their indices, any other entry is the least of
    the entry above plus 1, the entry to the left plus 1 and the entry
    diagonally above plus the cost of the two units. *)
Fixpoint levEntry (a b : jsstring) (i : nat) : nat -> nat :=
  match i with
  | O => fun j => j
  | S i' =>
      fix row (j : nat) : nat :=
        match j with
        | O => S i'
        | S j' =>
            Nat.min
              (Nat.min (levEntry a b i' (S j') + 1) (row j' + 1))
              (levEntry a b i' j' +
               (if N.eqb (charAt a i') (charAt b j') then 0 else 1))%nat
        end
  end.

(** Row [i] of the matrix once it is complete. *)
Definition levRow (a b : jsstring) (i : nat) : list nat :=
  map (levEntry a b i) (seq 0 (S (length b))).

(** The body of the inner loop of [levenshteinDistance], at row [i] and
    column [j]. *)
Definition levStep (a b : jsstring) (i : nat) (matrix : list (list nat))
  (j : nat) : list (list nat) :=
  let cost :=
    if N.eqb (charAt a (i - 1)) (charAt b (j - 1)) then 0%nat else 1%nat in
  assignEntry matrix i j
    (Nat.min
       (Nat.min (entry matrix (i - 1) j + 1) (entry matrix i (j - 1) + 1))
       (entry matrix (i - 1) (j - 1) + cost)).

(** ** Vocabulary of the scoring properties *)

(** Some query term scores above 0 on some string field of the record. *)
Definition someTermScores {R : Type}
  (fieldValue : R -> jsstring -> option jsstring)
  (toLowerCase : jsstring -> jsstring)
  (wholeWordTest : jsstring -> bool -> jsstring -> option bool)
  (o : IndexedDB.SearchOptions) (it : R) (fields terms : list jsstring)
  : Prop :=
  exists field text term sc,
    In field fields /\ fieldValue it field = Some text /\ In term terms /\
    IndexedDB.termScore toLowerCase wholeWordTest o text term = Some sc /\
    (0 < sc)%Q.

(** Some query term occurs in some string field of the record. *)
Definition someTermOccurs {R : Type}
  (fieldValue : R -> jsstring -> option jsstring)
  (toLowerCase : jsstring -> jsstring)
  (o : IndexedDB.SearchOptions) (it : R) (fields terms : list jsstring)
  : Prop :=
  exists field text term,
    In field fields /\ fieldValue it field = Some text /\ In term terms /\
    includes (if IndexedDB.caseSensitive o then text else toLowerCase text)
      term = true.

(** A number of (field, term) pairs, as a score. *)
Definition pairs (n m : nat) : Q := inject_Z (Z.of_nat (n * m)).

(** ** Vocabulary of the per-category properties *)

(** The values of the slices named [c] in a slice list, in order. *)
Definition valuesIn (c : jsstring) (items : list PieChartData) : list Z :=
  map value (List.filter (fun s => str_eqb (name s) c) items).

(** The values of the slices named [c] across all inputs. *)
Definition valuesAcross (c : jsstring) (rs : list ReportData) : list Z :=
  flat_map (fun r => valuesIn c (pieChart r)) rs.

Definition categoryTotal (c : jsstring) (rs : list ReportData) : Z :=
  zsum (valuesAcross c rs).

(** Some input has a detailed entry of category [c]. *)
Definition categoryAppearsIn (c : jsstring) (rs : list ReportData) : Prop :=
  exists r d, In r rs /\ In d (detailedReport r) /\ category d = c.

(** ** [generateReportData] ([work-timer-popup.tsx], lines 695-754) *)

(** An element of [processedData]. *)
Module CategoryData.
Record t := mk { category : jsstring; activities : list jsstring }.
End CategoryData.

(** Body of [activities.forEach((activity) => ...)]. *)
Definition countActivity (activityCounts : JSMap.t Z) (activity : jsstring)
  : JSMap.t Z :=
  let count := or_zero (JSMap.get activityCounts activity) + 1 in
  JSMap.set activityCounts activity count.

(** The arrays and the counter that the loop over [processedData] fills. *)
Record ReportState := {
  statePieChart : list PieChartData;
  stateDetailedReport : list DetailedReportData;
  totalActivities : Z
}.

(** Body of [processedData.forEach((categoryData) => ...)]. *)
Definition addCategory (st : ReportState) (categoryData : CategoryData.t)
  : ReportState :=
  let category := CategoryData.category categoryData in
  let activities := CategoryData.activities categoryData in
  let activityCount := Z.of_nat (length activities) in
  let activityCounts := fold_left countActivity activities [] in
  let detailedActivities :=
    map (fun p => {| activity := fst p; count := snd p |})
      (JSMap.entries activityCounts) in
  {| statePieChart :=
       statePieChart st ++ [{| name := category; value := activityCount |}];
     stateDetailedReport :=
       stateDetailedReport st ++
       [{| category := category;
           activities := js_sort byCountDesc detailedActivities |}];
     totalActivities := totalActivities st + activityCount |}.

Definition generateReportData (processedData : list CategoryData.t)
  : ReportData :=
  let st :=
    fold_left addCategory processedData
      {| statePieChart := []; stateDetailedReport := [];
         totalActivities := 0 |} in
  {| pieChart := statePieChart st;
     quickReport :=
       map (fun item => QuickReportData.mk (name item)
                          (percentOf (value item) (totalActivities st)))
         (statePieChart st);
     detailedReport := stateDetailedReport st |}.

(** ** Vocabulary of the report properties *)

(** The number of times [a] occurs in a list of activity names. *)
Definition occurrences (a : jsstring) (l : list jsstring) : Z :=
  Z.of_nat (length (List.filter (fun b => str_eqb b a) l)).

(** The detailed entry [d] is the tally of the category [cd]. *)
Definition tallyOf (cd : CategoryData.t) (d : DetailedReportData) : Prop :=
  category d = CategoryData.category cd /\
  NoDup (map activity (activities d)) /\
  (forall a, In a (map activity (activities d)) <->
             In a (CategoryData.activities cd)) /\
  Forall (fun x => count x = occurrences (activity x)
                               (CategoryData.activities cd))
    (activities d) /\
  countDescending (activities d) /\
  zsum (map count (activities d)) =
    Z.of_nat (length (CategoryData.activities cd)).

(** The slice [s] counts the activities of the category [cd]. *)
Definition sliceOf (cd : CategoryData.t) (s : PieChartData) : Prop :=
  name s = CategoryData.category cd /\
  value s = Z.of_nat (length (CategoryData.activities cd)).

(** The report names each category once, in its slices and in its detailed
    entries, names each activity once under its category, by descending
    count, and its percentages are those of its slices. *)
Definition selfConsistent (r : ReportData) : Prop :=
  NoDup (map name (pieChart r)) /\
  quickReport r =
    map (fun s => QuickReportData.mk (name s)
                    (percentOf (value s) (sumValues (pieChart r))))
      (pieChart r) /\
  NoDup (map category (detailedReport r)) /\
  Forall (fun d => NoDup (map activity (activities d)) /\
                   countDescending (activities d))
    (detailedReport r).

(** ** More of the repository ([report-db.ts]) *)

Module ReportDatabaseCalls.

Import ReportDatabase.

(** Lines 201-203. *)
Definition getDailyReportCount : Op DB nat :=
  onDaily (IndexedDBReads.count DailyReport.id None).

(** The value of [exportAllReports]. *)
Record Exported := {
  exportedDaily : list DailyReport.t;
  exportedYearly : list YearlyReport.t
}.

(** Lines 418-428. The two reads of [Promise.all] change nothing, so
    their order does not show. *)
Definition exportAllReports : Op DB Exported :=
  (dailyReports <- getAllDailyReports ;;
   yearlyReports <- getAllYearlyReports ;;
   ret {| exportedDaily := dailyReports;
          exportedYearly := yearlyReports |})%op.

(** An exported value handed to [importReports]. *)
Definition asImportData (e : Exported) : ImportData :=
  {| importDaily := Some (exportedDaily e);
     importYearly := Some (exportedYearly e) |}.

End ReportDatabaseCalls.

(** ** [handleGenerateReport]: the database steps
    ([work-timer-popup.tsx], lines 403-518) *)

(** [s.substring(0, n)] *)
Definition substringTo (n : nat) (s : jsstring) : jsstring := firstn n s.

(** Lines 469-475: the record of the day. *)
Definition reportOfDay (dateString : jsstring) (reportData : ReportData)
  : DailyReport.t :=
  {| DailyReport.id := dateString;
     DailyReport.date := dateString;
     DailyReport.title := js "Daily Report " ++ dateString;
     DailyReport.data := reportData |}.

(** Lines 407 and 465-497: the report of the day is saved, and once the
    daily store holds 365 reports it is rolled over into a yearly report.
    A rejection is what the [catch] of the handler receives; the steps
    after the failing one are not run. *)
Definition handleGenerateReport_save (overwrite : bool)
  (dateString : jsstring) (reportData : ReportData)
  : Op ReportDatabase.DB unit :=
  let year := substringTo 4 dateString in
  let dailyReport := reportOfDay dateString reportData in
  ((if overwrite then ReportDatabase.updateDailyReport dailyReport
    else ReportDatabase.addDailyReport dailyReport) ;;
   reportCount <- ReportDatabaseCalls.getDailyReportCount ;;
   if (365 <=? reportCount)%nat then
     yearlyReport <- ReportDatabase.generateYearlyReport year ;;
     ReportDatabase.addYearlyReport yearlyReport ;;
     ReportDatabase.onDaily IndexedDB.clear
   else ret tt)%op.

(** The yearly report made of the reports of [year] in a daily store. *)
Definition yearlyOf (year : jsstring) (s : list DailyReport.t)
  : YearlyReport.t :=
  {| YearlyReport.id := year;
     YearlyReport.year := year;
     YearlyReport.title := js "Annual Report " ++ year;
     YearlyReport.data :=
       mergeReportData
         (map DailyReport.data
            (List.filter
               (fun r => startsWith (DailyReport.id r) (year ++ js "-"))
               s)) |}.

(** A daily store one report short of the rollover: the last day of 2022
    and 363 numbered days of 2023. *)
Definition dayNumber (n : nat) : jsstring :=
  js "2023-" ++ padded 3 (N.of_nat n).

Definition daysBeforeRollover : ReportDatabase.DB :=
  {| ReportDatabase.dailyReports :=
       workDay "2022-12-31" ::
       map (fun n => reportOfDay (dayNumber n) emptyData) (seq 1 363);
     ReportDatabase.yearlyReports := [] |}.

(** ** More sample data *)

(** The options of a search left at their defaults. *)
Definition exactOptions : IndexedDB.SearchOptions :=
  {| IndexedDB.optLimit := None;
     IndexedDB.caseSensitive := false;
     IndexedDB.matchWholeWord := false;
     IndexedDB.fuzzyMatch := false;
     IndexedDB.fuzzyMatchThreshold := None |}.

(** Three titled reports. *)
Definition threeTitles : IndexedDB.Store DailyReport.t :=
  [titled "2024-01-01" "walking"; titled "2024-01-02" "running";
   titled "2024-01-03" "Running and more running"].

(** A day of two categories: "coding" twice and "email" once under "Work",
    "nap" once under "Rest". *)
Definition twoCategories : list CategoryData.t :=
  [CategoryData.mk (js "Work") [js "coding"; js "email"; js "coding"];
   CategoryData.mk (js "Rest") [js "nap"]].

(** A report whose only slice has the value 0. *)
Definition idleDay : ReportData :=
  {| pieChart := [{| name := js "Idle"; value := 0 |}];
     quickReport := [QuickReportData.mk (js "Idle") NaN];
     detailedReport := [{| category := js "Idle"; activities := [] |}] |}.

(** [{ limit: 2 }] *)
Definition firstTwo : IndexedDB.SearchParams DailyReport.t :=
  {| IndexedDB.range := None; IndexedDB.limit := Some 2;
     IndexedDB.direction := None; IndexedDB.filter := None |}.

(** * The arithmetic of the code: binary64

    A JavaScript [number] is a binary64 floating-point number, and [+],
    [-], [*], [/], [>=] and [>] are the operations of that format. The
    computations of the code whose outcome depends on the rounding of these
    operations are embedded here on the kernel's binary64 numbers. *)

Module Float64.

Definition number := float.

(** The number an integer is: the nearest binary64 number. *)
Definition ofInteger (z : Z) : number :=
  SF2Prim (binary_normalize prec emax z 0 false).

(** The integer a number is, when it is one. *)
Definition toInteger (x : number) : option Z :=
  match Prim2SF x with
  | S754_zero _ => Some 0
  | S754_finite s m e =>
      if 0 <=? e then Some (cond_Zopp s (Zpos m * 2 ^ e))
      else if Zpos m mod 2 ^ (- e) =? 0
           then Some (cond_Zopp s (Zpos m / 2 ^ (- e)))
           else None
  | _ => None
  end.

(** The sum of numbers that are integers, taken exactly. *)
Fixpoint exactSum (l : list number) : option Z :=
  match l with
  | [] => Some 0
  | x :: l' =>
      match toInteger x, exactSum l' with
      | Some z, Some t => Some (z + t)
      | _, _ => None
      end
  end.

(** A number is false when it is [0], [-0] or [NaN]. *)
Definition falsy (x : number) : bool :=
  PrimFloat.eqb x 0%float || PrimFloat.is_nan x.

(** ** [ReportDatabase.mergeReportData] ([report-db.ts], lines 349-412) *)

Record PieChartData := { name : jsstring; value : number }.

Module QuickReportData.
Record t := mk { category : jsstring; percent : number }.
End QuickReportData.

Record Activity := { activity : jsstring; count : number }.

Record DetailedReportData :=
  { category : jsstring; activities : list Activity }.

Record ReportData := {
  pieChart : list PieChartData;
  quickReport : list QuickReportData.t;
  detailedReport : list DetailedReportData
}.

(** [x || 0] on the result of a [Map.get]. *)
Definition or_zero (o : option number) : number :=
  match o with
  | Some v => if falsy v then 0%float else v
  | None => 0%float
  end.

Record MergeState := {
  categoryTotals : JSMap.t number;
  categoryActivities : JSMap.t (JSMap.t number);
  grandTotal : number
}.

(** Body of [for (const item of reportData.pieChart)]. *)
Definition mergeSlice (st : MergeState) (item : PieChartData) : MergeState :=
  let current := or_zero (JSMap.get (categoryTotals st) (name item)) in
  {| categoryTotals :=
       JSMap.set (categoryTotals st) (name item)
         (PrimFloat.add current (value item));
     categoryActivities := categoryActivities st;
     grandTotal := PrimFloat.add (grandTotal st) (value item) |}.

(** Body of [for (const activity of detail.activities)]. *)
Definition mergeActivity (activityMap : JSMap.t number) (a : Activity)
  : JSMap.t number :=
  let current := or_zero (JSMap.get activityMap (activity a)) in
  JSMap.set activityMap (activity a) (PrimFloat.add current (count a)).

(** Body of [for (const detail of reportData.detailedReport)]. *)
Definition mergeDetail (cas : JSMap.t (JSMap.t number))
  (detail : DetailedReportData) : JSMap.t (JSMap.t number) :=
  let cas1 :=
    if negb (JSMap.has cas (category detail))
    then JSMap.set cas (category detail) []
    else cas in
  match JSMap.get cas1 (category detail) with
  | Some activityMap =>
      JSMap.set cas1 (category detail)
        (fold_left mergeActivity (activities detail) activityMap)
  | None => cas1
  end.

(** Body of [for (const reportData of reportDataArray)]. *)
Definition mergeOne (st : MergeState) (reportData : ReportData) : MergeState :=
  let st1 := fold_left mergeSlice (pieChart reportData) st in
  {| categoryTotals := categoryTotals st1;
     categoryActivities :=
       fold_left mergeDetail (detailedReport reportData)
         (categoryActivities st1);
     grandTotal := grandTotal st1 |}.

(** [(value / grandTotal) * 100] *)
Definition percentOf (v total : number) : number :=
  PrimFloat.mul (PrimFloat.div v total) 100%float.

(** Comparator of [activities.sort((a, b) => b.count - a.count)]. *)
Definition byCountDesc (a b : Activity) : bool :=
  PrimFloat.ltb 0%float (PrimFloat.sub (count b) (count a)).

Definition buildDetail (e : jsstring * JSMap.t number) : DetailedReportData :=
  {| category := fst e;
     activities :=
       js_sort byCountDesc
         (map (fun p => {| activity := fst p; count := snd p |})
            (JSMap.entries (snd e))) |}.

Definition mergeReportData (reportDataArray : list ReportData) : ReportData :=
  let st :=
    fold_left mergeOne reportDataArray
      {| categoryTotals := []; categoryActivities := [];
         grandTotal := 0%float |} in
  {| pieChart :=
       map (fun e => {| name := fst e; value := snd e |})
         (JSMap.entries (categoryTotals st));
     quickReport :=
       map (fun e => QuickReportData.mk (fst e)
                        (percentOf (snd e) (grandTotal st)))
         (JSMap.entries (categoryTotals st));
     detailedReport :=
       map buildDetail (JSMap.entries (categoryActivities st)) |}.

(** ** The scores of a term ([db.ts], lines 730-744 and 775-802) *)

(** The options of [fullTextSearch]. *)
Record SearchOptions := {
  limit : option number;
  caseSensitive : bool;
  matchWholeWord : bool;
  fuzzyMatch : bool;
  fuzzyMatchThreshold : option number
}.

Section TermScores.
(** [String.prototype.toLowerCase] *)
Context (toLowerCase : jsstring -> jsstring).
(** [new RegExp("\\b" + term + "\\b", flags).test(text)], with the flag
    [i] when [ignoreCase]; [None] when the pattern is ill-formed. *)
Context (wholeWordTest :
  forall (term : jsstring) (ignoreCase : bool) (text : jsstring), option bool).
Context (options : SearchOptions).

(** [test ? 1 : 0] *)
Definition indicator (b : bool) : number := if b then 1%float else 0%float.

(** Lines 730-744; [None] when the pattern cannot be built. *)
Definition getExactMatchScore (text term : jsstring) : option number :=
  let processedText :=
    if caseSensitive options then text else toLowerCase text in
  if matchWholeWord options then
    option_map indicator
      (wholeWordTest term (negb (caseSensitive options)) processedText)
  else Some (indicator (includes processedText term)).

(** [options.fuzzyMatchThreshold || 0.7] *)
Definition threshold : number :=
  match fuzzyMatchThreshold options with
  | Some t => if falsy t then 0.7%float else t
  | None => 0.7%float
  end.

(** [1 - distance / maxLength] *)
Definition similarity (word term : jsstring) : number :=
  let distance := levenshteinDistance word term in
  let maxLength := Nat.max (length word) (length term) in
  PrimFloat.sub 1%float
    (PrimFloat.div (ofInteger (Z.of_nat distance))
       (ofInteger (Z.of_nat maxLength))).

(** Body of [for (const word of words)], lines 786-799. *)
Definition fuzzyStep (term : jsstring) (bestScore : number)
  (word : jsstring) : number :=
  if (length word <? 3)%nat then bestScore
  else
    let similarityScore := similarity word term in
    if PrimFloat.leb threshold similarityScore
       && PrimFloat.ltb bestScore similarityScore
    then similarityScore
    else bestScore.

(** Lines 775-802. *)
Definition getFuzzyMatchScore (text term : jsstring) : option number :=
  if (length term <=? 3)%nat then getExactMatchScore text term
  else
    let processedText :=
      if caseSensitive options then text else toLowerCase text in
    let words := splitWhiteSpace processedText in
    Some (fold_left (fuzzyStep term) words 0%float).

End TermScores.

End Float64.

(** ** Vocabulary of the fuzzy scoring *)






(** ** Vocabulary of the safe integers *)

(** [Number.MAX_SAFE_INTEGER] *)
Definition MAX_SAFE_INTEGER : Z := 2 ^ 53 - 1.

(** The magnitudes of the slice values of a report, added up. *)
Definition slicesMagnitude (r : ReportData) : Z :=
  zsum (map (fun s => Z.abs (value s)) (pieChart r)).

(** The magnitudes of the activity counts of a detailed entry, added
    up. *)
Definition activityMagnitude (d : DetailedReportData) : Z :=
  zsum (map (fun x => Z.abs (count x)) (activities d)).

(** The magnitudes of the activity counts of a report, added up. *)
Definition countsMagnitude (r : ReportData) : Z :=
  zsum (map activityMagnitude (detailedReport r)).

(** The magnitudes of all the slice values of the inputs, added up. *)
Definition sliceMagnitude (rs : list ReportData) : Z :=
  zsum (map slicesMagnitude rs).

(** The magnitudes of all the activity counts of the inputs, added up. *)
Definition countMagnitude (rs : list ReportData) : Z :=
  zsum (map countsMagnitude rs).

(** The slice values and the activity counts of the inputs are integers
    whose sums, however taken, stay within the safe integers. *)
Definition safeIntegers (rs : list ReportData) : Prop :=
  sliceMagnitude rs <= MAX_SAFE_INTEGER /\
  countMagnitude rs <= MAX_SAFE_INTEGER.

(** The mantissa [m] at the exponent [e] is below 2^[B]; the exponents
    of the format are above -2000. *)
Definition fits (B m e : Z) : Prop :=
  m * 2 ^ (e + 2000) < 2 ^ (B + 2000).

(** ** Integer data as the numbers of the code *)

Definition sliceNumber (s : PieChartData) : Float64.PieChartData :=
  {| Float64.name := name s;
     Float64.value := Float64.ofInteger (value s) |}.

Definition activityNumber (x : Activity) : Float64.Activity :=
  {| Float64.activity := activity x;
     Float64.count := Float64.ofInteger (count x) |}.

Definition detailNumbers (d : DetailedReportData)
  : Float64.DetailedReportData :=
  {| Float64.category := category d;
     Float64.activities := map activityNumber (activities d) |}.

(** A report of integers as an input of the merge, which reads the slices
    and the detailed entries of its inputs and nothing else. *)
Definition asNumbers (r : ReportData) : Float64.ReportData :=
  {| Float64.pieChart := map sliceNumber (pieChart r);
     Float64.quickReport := [];
     Float64.detailedReport := map detailNumbers (detailedReport r) |}.

(** [m] with [f] applied to its values. *)
Definition mapValues {V W : Type} (f : V -> W) (m : JSMap.t V) : JSMap.t W :=
  map (fun e => (fst e, f (snd e))) m.

(** The weights of the values of a map, added up. *)
Definition weight {V : Type} (w : V -> Z) (m : JSMap.t V) : Z :=
  zsum (map (fun e => w (snd e)) m).

(** The magnitudes of the values of a map, added up. *)
Definition magnitude (m : JSMap.t Z) : Z := weight Z.abs m.

Definition magnitude2 (m : JSMap.t (JSMap.t Z)) : Z := weight magnitude m.

(** The state of the merge of integers as the state of the merge of the
    code. *)
Definition stateNumbers (st : MergeState) : Float64.MergeState :=
  {| Float64.categoryTotals := mapValues Float64.ofInteger (categoryTotals st);
     Float64.categoryActivities :=
       mapValues (mapValues Float64.ofInteger) (categoryActivities st);
     Float64.grandTotal := Float64.ofInteger (grandTotal st) |}.

(** A merged report of integers as the report the code returns: the
    slices and the detailed entries with their integers as numbers, and
    the percentages computed, in binary64, from these numbers and the
    grand total. *)
Definition mergedNumbers (total : Z) (out : ReportData) : Float64.ReportData :=
  {| Float64.pieChart := map sliceNumber (pieChart out);
     Float64.quickReport :=
       map (fun s =>
              Float64.QuickReportData.mk (name s)
                (Float64.percentOf (Float64.ofInteger (value s))
                   (Float64.ofInteger total)))
         (pieChart out);
     Float64.detailedReport := map detailNumbers (detailedReport out) |}.

(** The activities are listed by descending count, in the order of the
    numbers. *)
Definition countDescendingNumbers (l : list Float64.Activity) : Prop :=
  StronglySorted
    (fun x y => PrimFloat.leb (Float64.count y) (Float64.count x) = true) l.

(** The conservation of the slice values as the specification words it,
    for every list of inputs: the values of the merged slices add up to
    what the values of the inputs' slices add up to. *)
Definition conservationAsClaimed : Prop :=
  forall rs : list Float64.ReportData,
    Float64.exactSum
      (map Float64.value (Float64.pieChart (Float64.mergeReportData rs)))
    = Float64.exactSum
        (map Float64.value (flat_map Float64.pieChart rs)).

(** One report of two slices of one category, of the values 2^53 and 1,
    and of one activity with these counts. *)
Definition beyondSafeIntegers : ReportData :=
  {| pieChart := [{| name := js "Work"; value := 2 ^ 53 |};
                  {| name := js "Work"; value := 1 |}];
     quickReport := [];
     detailedReport :=
       [{| category := js "Work";
           activities := [{| activity := js "coding"; count := 2 ^ 53 |};
                          {| activity := js "coding"; count := 1 |}] |}] |}.

(** One report whose slices of one category add up to the greatest safe
    integer. *)
Definition atSafeBoundary : ReportData :=
  {| pieChart := [{| name := js "Work"; value := 2 ^ 53 - 2 |};
                  {| name := js "Work"; value := 1 |}];
     quickReport := [];
     detailedReport :=
       [{| category := js "Work";
           activities := [{| activity := js "coding"; count := 2 ^ 53 - 2 |};
                          {| activity := js "coding"; count := 1 |}] |}] |}.

(** A report of 7 activities under "Work" and 18 under "Rest". *)
Definition sevenOfTwentyFive : ReportData :=
  {| pieChart := [{| name := js "Work"; value := 7 |};
                  {| name := js "Rest"; value := 18 |}];
     quickReport := [];
     detailedReport := [] |}.

(** ** [handleGenerateReport]: the check before the report is made
    ([work-timer-popup.tsx], lines 403-518) *)

(** Lines 415-424: without [overwrite] and without a confirmed overwrite,
    a stored report of the day ends the handler; [true] when it goes
    on. *)
Definition handleGenerateReport_check (overwrite confirmOverwrite : bool)
  (dateString : jsstring) : Op ReportDatabase.DB bool :=
  if negb overwrite && negb confirmOverwrite then
    (existingReport <- ReportDatabase.getDailyReport dateString ;;
     ret match existingReport with
         | Some _ => false
         | None => true
         end)%op
  else ret true.

(** The database steps of the handler in their order: the check, and,
    once the report data is made, the save. [generated] is what the steps
    in between yield: [None] when they end the handler (no API key, no
    activities, a failed request), which then touches the database no
    more. *)
Definition handleGenerateReport_database (overwrite confirmOverwrite : bool)
  (dateString : jsstring) (generated : option ReportData)
  : Op ReportDatabase.DB unit :=
  (goOn <- handleGenerateReport_check overwrite confirmOverwrite dateString ;;
   if goOn then
     match generated with
     | Some reportData =>
         handleGenerateReport_save overwrite dateString reportData
     | None => ret tt
     end
   else ret tt)%op.

(** One report of the slices 2^53 under "A" and 1, twice, under "B". *)
Definition slicesBeyondSafeIntegers : ReportData :=
  {| pieChart := [{| name := js "A"; value := 2 ^ 53 |};
                  {| name := js "B"; value := 1 |};
                  {| name := js "B"; value := 1 |}];
     quickReport := [];
     detailedReport := [] |}.

(** * Proofs *)

(** ** The embedding at work *)

Example split_keeps_end_pieces :
  splitWhiteSpace (js " a  b ") = [[]; js "a"; js "b"; []].
Proof. reflexivity. Qed.

Example trim_strips_both_ends : trim (js "  a b  ") = js "a b".
Proof. reflexivity. Qed.

Example levenshtein_kitten_sitting :
  levenshteinDistance (js "kitten") (js "sitting") = 3%nat.
Proof. reflexivity. Qed.

Example levenshtein_empty :
  levenshteinDistance [] (js "abc") = 3%nat /\
  levenshteinDistance (js "abc") [] = 3%nat.
Proof. split; reflexivity. Qed.

Example toISOString_firstOfFebruary :
  toISOString firstOfFebruary = js "2024-02-01T00:00:00.000Z".
Proof. reflexivity. Qed.

Example ids_in_date_order :
  str_ltb (js "2024-01-31") (js "2024-02-01") = true /\
  str_ltb (js "2024-02-01") (js "2024-02-01") = false.
Proof. split; reflexivity. Qed.

Example threeDays_in_key_order :
  map DailyReport.id (ReportDatabase.dailyReports threeDays)
  = [js "2024-01-01"; js "2024-01-15"; js "2024-02-01"].
Proof. reflexivity. Qed.

Example add_twice_is_refused :
  fst (ReportDatabase.addDailyReport (workDay "2024-01-15") threeDays)
  = Rejected (ConstraintError (js "2024-01-15")).
Proof. reflexivity. Qed.

Example search_backwards_with_limit :
  fst (IndexedDB.search DailyReport.id
         {| IndexedDB.range := None; IndexedDB.limit := Some 2;
            IndexedDB.direction := Some IndexedDB.prev;
            IndexedDB.filter := None |}
         (ReportDatabase.dailyReports threeDays))
  = Resolved [workDay "2024-02-01"; workDay "2024-01-15"].
Proof. reflexivity. Qed.

(** The yearly rollover: 365 days of one "coding" each give a yearly
    report with "coding" 365 times under "Work". *)
Example rollover_of_365_days :
  detailedReport
    (mergeReportData (repeat (DailyReport.data (workDay "2024-01-01")) 365))
  = [{| category := js "Work";
        activities := [{| activity := js "coding"; count := 365 |}] |}].
Proof. vm_compute. reflexivity. Qed.

(** ** Strings *)

Lemma str_eqb_spec (a b : jsstring) : reflect (a = b) (str_eqb a b).
Proof.
  revert b; induction a as [|x a IH]; intros [|y b]; simpl;
    try (constructor; congruence).
  destruct (N.eqb_spec x y) as [->|Hxy]; simpl.
  - destruct (IH b) as [->|Hab]; constructor; congruence.
  - constructor; congruence.
Qed.

Lemma str_eqb_refl (a : jsstring) : str_eqb a a = true.
Proof. destruct (str_eqb_spec a a); congruence. Qed.

Lemma str_eqb_eq (a b : jsstring) : str_eqb a b = true <-> a = b.
Proof. destruct (str_eqb_spec a b); split; congruence. Qed.

Lemma str_eqb_neq (a b : jsstring) : str_eqb a b = false <-> a <> b.
Proof. destruct (str_eqb_spec a b); split; congruence. Qed.

(** ** Maps *)

Section JSMapFacts.
Context {V : Type}.
Implicit Types (m : JSMap.t V) (k : jsstring) (v : V).

Lemma get_set_same m k v : JSMap.get (JSMap.set m k v) k = Some v.
Proof.
  induction m as [|[k' v'] m IH]; simpl.
  - now rewrite str_eqb_refl.
  - destruct (str_eqb k' k) eqn:E; simpl; rewrite E; auto.
Qed.

Lemma get_set_other m k k' v :
  k <> k' -> JSMap.get (JSMap.set m k v) k' = JSMap.get m k'.
Proof.
  intros Hk. induction m as [|[k0 v0] m IH]; simpl.
  - apply str_eqb_neq in Hk. now rewrite Hk.
  - destruct (str_eqb_spec k0 k) as [->|E]; simpl.
    + apply str_eqb_neq in Hk. now rewrite Hk.
    + now rewrite IH.
Qed.

Lemma get_None_keys m k : JSMap.get m k = None <-> ~ In k (JSMap.keys m).
Proof.
  induction m as [|[k' v'] m IH]; simpl.
  - tauto.
  - destruct (str_eqb_spec k' k) as [->|Hne].
    + split; [discriminate | tauto].
    + rewrite IH. tauto.
Qed.

Lemma keys_set m k v :
  JSMap.keys (JSMap.set m k v) =
  if JSMap.has m k then JSMap.keys m else JSMap.keys m ++ [k].
Proof.
  unfold JSMap.has. induction m as [|[k' v'] m IH]; simpl.
  - reflexivity.
  - destruct (str_eqb k' k) eqn:E; simpl.
    + reflexivity.
    + rewrite IH. now destruct (JSMap.get m k).
Qed.

Lemma NoDup_keys_set m k v :
  NoDup (JSMap.keys m) -> NoDup (JSMap.keys (JSMap.set m k v)).
Proof.
  intros Hnd. rewrite keys_set. unfold JSMap.has.
  destruct (JSMap.get m k) eqn:E; [assumption|].
  apply get_None_keys in E.
  apply NoDup_rev in Hnd. rewrite <- (rev_involutive (_ ++ _)).
  apply NoDup_rev. rewrite rev_app_distr. simpl. constructor; [|assumption].
  now rewrite <- in_rev.
Qed.

(** With distinct keys, the entry of a key is the only one selected by it. *)
Lemma filter_key_unique m k v :
  NoDup (JSMap.keys m) -> JSMap.get m k = Some v ->
  List.filter (fun e => str_eqb (fst e) k) m = [(k, v)].
Proof.
  induction m as [|[k' v'] m IH]; simpl; [discriminate|].
  intros Hnd Hget. inversion Hnd as [|? ? Hnotin Hnd']; subst.
  destruct (str_eqb_spec k' k) as [->|Hne].
  - injection Hget as ->. f_equal.
    clear IH Hnd Hnd'. induction m as [|[k1 v1] m IHm]; simpl; auto.
    simpl in Hnotin. destruct (str_eqb_spec k1 k) as [->|_]; [tauto|].
    apply IHm. tauto.
  - now apply IH.
Qed.

Lemma Forall_snd_set (P : V -> Prop) m k v :
  Forall (fun e => P (snd e)) m -> P v ->
  Forall (fun e => P (snd e)) (JSMap.set m k v).
Proof.
  intros Hall Hv. induction Hall as [|[k' v'] m Hx Hall IH]; simpl.
  - repeat constructor; assumption.
  - destruct (str_eqb k' k); constructor; auto.
Qed.

Lemma Forall_snd_get (P : V -> Prop) m k v :
  Forall (fun e => P (snd e)) m -> JSMap.get m k = Some v -> P v.
Proof.
  intros Hall. induction Hall as [|[k' v'] m Hx Hall IH]; simpl.
  - discriminate.
  - destruct (str_eqb k' k); [now intros [= <-] | assumption].
Qed.

End JSMapFacts.

(** The values of a map add up as its updates say. *)
Lemma zsum_set (m : JSMap.t Z) k v :
  zsum (map snd (JSMap.set m k v)) =
  zsum (map snd m) - or_zero (JSMap.get m k) + v.
Proof.
  induction m as [|[k' v'] m IH]; simpl.
  - lia.
  - destruct (str_eqb k' k); simpl.
    + destruct (Z.eqb_spec v' 0); lia.
    + rewrite IH. lia.
Qed.

(** ** The stable sort *)

Section JsSortFacts.
Context {A : Type} (after : A -> A -> bool).

Lemma sort_insert_perm x l : Permutation (x :: l) (sort_insert after x l).
Proof.
  induction l as [|y l IH]; simpl.
  - reflexivity.
  - destruct (after x y).
    + rewrite perm_swap. now constructor.
    + reflexivity.
Qed.

Lemma js_sort_perm l : Permutation l (js_sort after l).
Proof.
  induction l as [|x l IH]; simpl.
  - constructor.
  - rewrite <- sort_insert_perm. now constructor.
Qed.

(** The sort orders its input by any total, transitive relation that the
    comparator decides. *)
Context (le : A -> A -> Prop).
Hypothesis le_trans : forall x y z, le x y -> le y z -> le x z.
Hypothesis after_false : forall x y, after x y = false -> le x y.
Hypothesis after_true : forall x y, after x y = true -> le y x.

Lemma sort_insert_sorted x l :
  StronglySorted le l -> StronglySorted le (sort_insert after x l).
Proof.
  induction 1 as [|y l Hs IH Hall]; simpl.
  - repeat constructor.
  - destruct (after x y) eqn:E.
    + constructor; [assumption|].
      rewrite <- sort_insert_perm. constructor; auto.
    + constructor.
      * now constructor.
      * constructor; [auto|].
        eapply Forall_impl; [|exact Hall]. intros z Hz.
        eapply le_trans; eauto.
Qed.

Lemma js_sort_sorted l : StronglySorted le (js_sort after l).
Proof.
  induction l as [|x l IH]; simpl.
  - constructor.
  - now apply sort_insert_sorted.
Qed.

End JsSortFacts.

Lemma filter_map_comm {A B : Type} (f : A -> B) (p : B -> bool) (l : list A) :
  List.filter p (map f l) = map f (List.filter (fun x => p (f x)) l).
Proof.
  induction l as [|x l IH]; simpl; [reflexivity|].
  destruct (p (f x)); simpl; now rewrite IH.
Qed.

Lemma filter_perm {A : Type} (f : A -> bool) (l l' : list A) :
  Permutation l l' -> Permutation (List.filter f l) (List.filter f l').
Proof.
  induction 1 as [| x l l' _ IH | x y l | l l' l'' _ IH1 _ IH2]; simpl.
  - constructor.
  - destruct (f x); auto.
  - destruct (f x), (f y); auto using perm_swap.
  - now transitivity (List.filter f l').
Qed.

(** ** The merge: slices *)

Lemma or_zero_Some v : or_zero (Some v) = v.
Proof. simpl. destruct (Z.eqb_spec v 0); lia. Qed.

Lemma mergeSlice_fold items : forall st,
  let st' := fold_left mergeSlice items st in
  grandTotal st' = grandTotal st + sumValues items /\
  zsum (map snd (categoryTotals st')) =
    zsum (map snd (categoryTotals st)) + sumValues items /\
  categoryActivities st' = categoryActivities st.
Proof.
  induction items as [|it items IH]; intros st; simpl.
  - unfold sumValues; simpl. repeat split; lia.
  - destruct (IH (mergeSlice st it)) as (Hg & Hs & Hc).
    rewrite Hg, Hs, Hc. unfold mergeSlice; simpl.
    rewrite zsum_set. unfold sumValues; simpl. repeat split; lia.
Qed.

Lemma mergeOne_fold_totals rs : forall st,
  let st' := fold_left mergeOne rs st in
  grandTotal st' = grandTotal st + grandTotalOf rs /\
  zsum (map snd (categoryTotals st')) =
    zsum (map snd (categoryTotals st)) + grandTotalOf rs.
Proof.
  induction rs as [|r rs IH]; intros st; simpl.
  - unfold grandTotalOf; simpl. split; lia.
  - destruct (IH (mergeOne st r)) as (Hg & Hs). rewrite Hg, Hs.
    unfold mergeOne; simpl.
    destruct (mergeSlice_fold (pieChart r) st) as (Hg1 & Hs1 & _).
    rewrite Hg1, Hs1. unfold grandTotalOf; simpl. split; lia.
Qed.

(** ** The merge: activities *)

Lemma tally_app o xs ys : tally o (xs ++ ys) = tally (tally o xs) ys.
Proof. apply fold_left_app. Qed.

Lemma tally_cons o n ns : tally o (n :: ns) = tally (Some (or_zero o + n)) ns.
Proof. reflexivity. Qed.

Lemma tally_Some ns : forall v, tally (Some v) ns = Some (v + zsum ns).
Proof.
  induction ns as [|n ns IH]; intros v.
  - simpl. f_equal; lia.
  - rewrite tally_cons, IH, or_zero_Some. simpl. f_equal; lia.
Qed.

Lemma tally_None ns : ns <> [] -> tally None ns = Some (zsum ns).
Proof.
  destruct ns as [|n ns]; [congruence|]. intros _.
  rewrite tally_cons, tally_Some. simpl. f_equal; lia.
Qed.

Lemma get_mergeActivity_fold a xs : forall am,
  JSMap.get (fold_left mergeActivity xs am) a =
  tally (JSMap.get am a) (countsIn a xs).
Proof.
  induction xs as [|x xs IH]; intros am; simpl.
  - reflexivity.
  - rewrite IH. unfold mergeActivity, countsIn. simpl.
    destruct (str_eqb_spec (activity x) a) as [->|Hne]; simpl.
    + now rewrite get_set_same.
    + now rewrite get_set_other.
Qed.

Lemma NoDup_mergeActivity_fold xs : forall am,
  NoDup (JSMap.keys am) -> NoDup (JSMap.keys (fold_left mergeActivity xs am)).
Proof.
  induction xs as [|x xs IH]; intros am H; simpl; [assumption|].
  apply IH. now apply NoDup_keys_set.
Qed.

Lemma get2_mergeDetail m d c a :
  get2 (mergeDetail m d) c a = tally (get2 m c a) (countsOfDetail c a d).
Proof.
  unfold mergeDetail, countsOfDetail, get2, JSMap.has.
  destruct (str_eqb_spec (category d) c) as [<-|Hne].
  - destruct (JSMap.get m (category d)) as [am|] eqn:E; simpl.
    + rewrite ?E, get_set_same. apply get_mergeActivity_fold.
    + rewrite get_set_same, get_set_same. apply get_mergeActivity_fold.
  - destruct (JSMap.get m (category d)) as [am|] eqn:E; simpl.
    + rewrite ?E. now rewrite get_set_other.
    + rewrite get_set_same. now rewrite !get_set_other.
Qed.

Lemma distinctKeys_mergeDetail m d :
  distinctKeys m -> distinctKeys (mergeDetail m d).
Proof.
  intros [Hk Hin]. unfold mergeDetail, JSMap.has.
  destruct (JSMap.get m (category d)) as [am|] eqn:E; simpl.
  - rewrite ?E. split.
    + now apply NoDup_keys_set.
    + apply (Forall_snd_set (fun v => NoDup (JSMap.keys v)));
        [assumption|].
      apply NoDup_mergeActivity_fold.
      exact (Forall_snd_get (fun v => NoDup (JSMap.keys v)) _ _ _ Hin E).
  - rewrite get_set_same. split.
    + now apply NoDup_keys_set, NoDup_keys_set.
    + apply (Forall_snd_set (fun v => NoDup (JSMap.keys v))).
      * apply (Forall_snd_set (fun v => NoDup (JSMap.keys v)));
          [assumption | constructor].
      * apply NoDup_mergeActivity_fold. constructor.
Qed.

Lemma mergeDetail_fold ds c a : forall m,
  distinctKeys m ->
  let m' := fold_left mergeDetail ds m in
  distinctKeys m' /\
  get2 m' c a = tally (get2 m c a) (flat_map (countsOfDetail c a) ds).
Proof.
  induction ds as [|d ds IH]; intros m Hm; simpl.
  - auto.
  - destruct (IH (mergeDetail m d) (distinctKeys_mergeDetail _ _ Hm))
      as (Hd & Hg).
    split; [assumption|].
    rewrite Hg, get2_mergeDetail. symmetry. apply tally_app.
Qed.

Lemma mergeOne_fold_activities rs c a : forall st,
  distinctKeys (categoryActivities st) ->
  let st' := fold_left mergeOne rs st in
  distinctKeys (categoryActivities st') /\
  get2 (categoryActivities st') c a =
    tally (get2 (categoryActivities st) c a) (countsAcross c a rs).
Proof.
  induction rs as [|r rs IH]; intros st Hst; simpl.
  - auto.
  - assert (Hca : categoryActivities (mergeOne st r) =
                  fold_left mergeDetail (detailedReport r)
                    (categoryActivities st)).
    { unfold mergeOne; simpl.
      now destruct (mergeSlice_fold (pieChart r) st) as (_ & _ & ->). }
    destruct (mergeDetail_fold (detailedReport r) c a _ Hst) as (Hd & Hg).
    rewrite <- Hca in Hd, Hg.
    destruct (IH (mergeOne st r) Hd) as (Hd' & Hg').
    split; [assumption|].
    rewrite Hg', Hg. symmetry. apply tally_app.
Qed.

Lemma appearsIn_counts c a rs : appearsIn c a rs -> countsAcross c a rs <> [].
Proof.
  intros (r & d & x & Hr & Hd & Hc & Hx & Ha).
  assert (Hin : In (count x) (countsAcross c a rs)).
  { unfold countsAcross. apply in_flat_map. exists r. split; [assumption|].
    apply in_flat_map. exists d. split; [assumption|].
    unfold countsOfDetail. rewrite Hc, str_eqb_refl.
    unfold countsIn. apply in_map, filter_In. split; [assumption|].
    now apply str_eqb_eq. }
  intros E. now rewrite E in Hin.
Qed.

Lemma byCountDesc_sorted l : countDescending (js_sort byCountDesc l).
Proof.
  apply js_sort_sorted; unfold byCountDesc.
  - intros x y z; lia.
  - intros x y H. apply Z.ltb_ge in H. lia.
  - intros x y H. apply Z.ltb_lt in H. lia.
Qed.

(** The merge of the integers: the slice values of the merged report add
    up to the grand total of the inputs' slice values; every (category,
    activity) pair of the inputs' detailed reports is found exactly once
    in the output, under the one entry of its category, with the sum of
    its counts across all inputs; and each output category lists its
    activities by descending count. *)
Lemma merge_of_integers_conserves (rs : list ReportData) :
  sumValues (pieChart (mergeReportData rs)) = grandTotalOf rs /\
  (forall c a, appearsIn c a rs ->
     exists d,
       List.filter (fun d => str_eqb (category d) c)
         (detailedReport (mergeReportData rs)) = [d] /\
       List.filter (fun x => str_eqb (activity x) a) (activities d) =
         [{| activity := a; count := activityTotal c a rs |}]) /\
  Forall (fun d => countDescending (activities d))
    (detailedReport (mergeReportData rs)).
Proof.
  unfold mergeReportData.
  set (st0 := {| categoryTotals := []; categoryActivities := [];
                 grandTotal := 0 |}).
  set (st := fold_left mergeOne rs st0).
  simpl. repeat split.
  - destruct (mergeOne_fold_totals rs st0) as (_ & Hs). fold st in Hs.
    unfold sumValues, JSMap.entries. rewrite map_map. simpl.
    simpl in Hs. exact Hs.
  - intros c a Happ.
    assert (H0 : distinctKeys (categoryActivities st0))
      by (split; constructor).
    destruct (mergeOne_fold_activities rs c a st0 H0) as ((Hk & Hin) & Hg).
    fold st in Hk, Hin, Hg.
    change (get2 (categoryActivities st0) c a) with (@None Z) in Hg.
    rewrite (tally_None _ (appearsIn_counts _ _ _ Happ)) in Hg.
    unfold get2 in Hg.
    destruct (JSMap.get (categoryActivities st) c) as [am|] eqn:E;
      [|discriminate].
    exists (buildDetail (c, am)). split.
    + unfold JSMap.entries. rewrite filter_map_comm.
      exact (f_equal (map buildDetail) (filter_key_unique _ _ _ Hk E)).
    + simpl. apply Permutation_length_1_inv.
      assert (Ham : NoDup (JSMap.keys am))
        by exact (Forall_snd_get (fun v => NoDup (JSMap.keys v)) _ _ _ Hin E).
      rewrite <- (filter_perm _ _ _ (js_sort_perm byCountDesc _)).
      unfold JSMap.entries. rewrite filter_map_comm.
      exact (Permutation_refl' (eq_sym (f_equal (map _)
               (filter_key_unique _ _ _ Ham Hg)))).
  - apply Forall_forall. intros d Hd. apply in_map_iff in Hd.
    destruct Hd as (e & <- & _). simpl. apply byCountDesc_sorted.
Qed.

(** * Binary64 arithmetic on the safe integers

    Every integer below 2^53 in magnitude is a binary64 number; the sum
    and the difference of two of them are computed without rounding when
    they are below 2^53 in magnitude too; they compare as the integers
    do; and the percentage of one of them in another that is not 0 is a
    finite number. This is derived from the specification of the format
    ([SpecFloat]) that the operations on [float] obey. *)

(** ** Rounding an integer of at most 53 bits *)

Lemma digits2_size (p : positive) : digits2_pos p = Pos.size p.
Proof. induction p as [p IH|p IH|]; simpl; congruence. Qed.

Lemma Zpos_iter_xO (k : nat) (p : positive) :
  Zpos (Nat.iter k xO p) = Zpos p * 2 ^ Z.of_nat k.
Proof.
  induction k as [|k IH]; [simpl; lia|].
  rewrite Nat2Z.inj_succ, Z.pow_succ_r by lia.
  rewrite Nat.iter_succ, Pos2Z.inj_xO, IH. lia.
Qed.

Lemma size_iter_xO (k : nat) (p : positive) :
  Zpos (digits2_pos (Nat.iter k xO p)) = Zpos (digits2_pos p) + Z.of_nat k.
Proof.
  induction k as [|k IH]; [simpl; lia|].
  rewrite Nat.iter_succ. cbn [digits2_pos].
  rewrite Pos2Z.inj_succ, IH. lia.
Qed.

Lemma iter_pos_nat {A : Type} (f : A -> A) (n : positive) : forall x,
  iter_pos f n x = Nat.iter (Pos.to_nat n) f x.
Proof.
  induction n as [n IH|n IH|]; intros x; cbn [iter_pos].
  - rewrite !IH, Pos2Nat.inj_xI.
    replace (S (2 * Pos.to_nat n))%nat
      with (Pos.to_nat n + S (Pos.to_nat n))%nat by lia.
    rewrite Nat.iter_add. now rewrite Nat.iter_succ_r.
  - rewrite !IH, Pos2Nat.inj_xO.
    replace (2 * Pos.to_nat n)%nat
      with (Pos.to_nat n + Pos.to_nat n)%nat by lia.
    now rewrite Nat.iter_add.
  - reflexivity.
Qed.

Lemma shr_1_iter (k : nat) (p : positive) :
  Nat.iter k shr_1
    {| shr_m := Zpos (Nat.iter k xO p); shr_r := false; shr_s := false |}
  = {| shr_m := Zpos p; shr_r := false; shr_s := false |}.
Proof.
  induction k as [|k IH]; [reflexivity|].
  rewrite Nat.iter_succ_r, Nat.iter_succ. cbn [shr_1 orb]. exact IH.
Qed.

(** A mantissa of 53 bits followed by [j] zero bits is rounded to that
    mantissa, exactly. *)
Lemma binary_round_aux_exact (s : bool) (m' : positive) (j : nat) (e' : Z) :
  Zpos (digits2_pos m') = 53 -> -1074 <= e' <= 971 ->
  binary_round_aux prec emax s (Zpos (Nat.iter j xO m')) (e' - Z.of_nat j)
    loc_Exact
  = S754_finite s m' e'.
Proof.
  intros Hd He. unfold binary_round_aux, shr_fexp.
  cbn [Zdigits2 shr_record_of_loc].
  rewrite size_iter_xO, Hd.
  assert (Hf : fexp prec emax (53 + Z.of_nat j + (e' - Z.of_nat j)) = e').
  { unfold fexp, emin, prec, emax. lia. }
  rewrite Hf.
  assert (Hshr :
    shr {| shr_m := Zpos (Nat.iter j xO m'); shr_r := false;
           shr_s := false |} (e' - Z.of_nat j) (e' - (e' - Z.of_nat j))
    = ({| shr_m := Zpos m'; shr_r := false; shr_s := false |}, e')).
  { replace (e' - (e' - Z.of_nat j)) with (Z.of_nat j) by lia.
    destruct j as [|j].
    - cbn [Z.of_nat shr Nat.iter]. f_equal. lia.
    - unfold shr. rewrite Nat2Z.inj_succ. unfold Z.succ.
      destruct (Z.of_nat j + 1) as [|p|p] eqn:E; try lia.
      rewrite iter_pos_nat.
      replace (Pos.to_nat p) with (S j) by lia.
      rewrite shr_1_iter. f_equal. lia. }
  rewrite Hshr. cbn [shr_m loc_of_shr_record round_nearest_even Zdigits2
                     shr_record_of_loc].
  rewrite Hd.
  assert (Hf2 : fexp prec emax (53 + e') - e' = 0).
  { unfold fexp, emin, prec, emax. lia. }
  rewrite Hf2. cbn [shr shr_m].
  unfold prec, emax. destruct (Z.leb_spec e' (1024 - 53)); [reflexivity|lia].
Qed.

(** A positive integer of at most 53 bits, followed by [k] zero bits and
    scaled by 2^-k, is rounded to itself, with its mantissa normalised to
    53 bits. *)
Lemma binary_round_exact (s : bool) (v : positive) (k : nat) :
  Zpos (digits2_pos v) <= 53 ->
  binary_round prec emax s (Nat.iter k xO v) (- Z.of_nat k)
  = S754_finite s
      (Nat.iter (Z.to_nat (53 - Zpos (digits2_pos v))) xO v)
      (Zpos (digits2_pos v) - 53).
Proof.
  intros Hd. unfold binary_round.
  set (d := Zpos (digits2_pos v)) in *.
  assert (Hd1 : 1 <= d) by (unfold d; lia).
  rewrite size_iter_xO. fold d.
  assert (Hf : fexp prec emax (d + Z.of_nat k + - Z.of_nat k) = d - 53).
  { unfold fexp, emin, prec, emax. lia. }
  rewrite Hf. unfold shl_align.
  set (m' := Nat.iter (Z.to_nat (53 - d)) xO v).
  assert (Hm' : Zpos (digits2_pos m') = 53).
  { unfold m'. rewrite size_iter_xO. fold d. lia. }
  destruct (d - 53 - - Z.of_nat k) as [|p|p] eqn:E.
  - assert (Hk : k = Z.to_nat (53 - d)) by lia.
    replace (- Z.of_nat k) with ((d - 53) - Z.of_nat 0) by lia.
    replace (Nat.iter k xO v) with (Nat.iter 0 xO m')
      by (unfold m'; now rewrite Hk).
    apply binary_round_aux_exact; [exact Hm' | lia].
  - set (j := Pos.to_nat p).
    replace (- Z.of_nat k) with ((d - 53) - Z.of_nat j) by (unfold j; lia).
    replace (Nat.iter k xO v) with (Nat.iter j xO m').
    + apply binary_round_aux_exact; [exact Hm' | lia].
    + unfold m'. rewrite <- Nat.iter_add. f_equal. unfold j. lia.
  - assert (Hm : Pos.iter xO (Nat.iter k xO v) p = Nat.iter 0 xO m').
    { rewrite Pos2Nat.inj_iter.
      change (Nat.iter (Pos.to_nat p) xO (Nat.iter k xO v) = m').
      rewrite <- Nat.iter_add. unfold m'. f_equal. lia. }
    rewrite Hm.
    replace (d - 53) with ((d - 53) - Z.of_nat 0) at 1 by lia.
    apply binary_round_aux_exact; [exact Hm' | lia].
Qed.

Lemma digits_below (v : positive) :
  Zpos v < 2 ^ 53 -> Zpos (digits2_pos v) <= 53.
Proof.
  intros Hv. rewrite digits2_size.
  pose proof (Pos.size_le v) as Hle.
  destruct (Z.le_gt_cases (Zpos (Pos.size v)) 53) as [H|H]; [exact H|].
  exfalso.
  assert (H2 : 2 ^ 54 <= 2 ^ Zpos (Pos.size v))
    by (apply Z.pow_le_mono_r; lia).
  assert (H3 : 2 ^ Zpos (Pos.size v) <= Zpos v~0).
  { rewrite <- Pos2Z.inj_pow. exact Hle. }
  rewrite Pos2Z.inj_xO in H3. lia.
Qed.

Lemma binary_round_integer (s : bool) (v : positive) :
  Zpos (digits2_pos v) <= 53 ->
  binary_round prec emax s v 0
  = S754_finite s (Nat.iter (Z.to_nat (53 - Zpos (digits2_pos v))) xO v)
      (Zpos (digits2_pos v) - 53).
Proof. exact (binary_round_exact s v 0). Qed.

Lemma normalize_shifted (z : Z) (k : nat) :
  Z.abs z < 2 ^ 53 ->
  binary_normalize prec emax (z * 2 ^ Z.of_nat k) (- Z.of_nat k) false
  = binary_normalize prec emax z 0 false.
Proof.
  intros Hz. destruct z as [|v|v].
  - reflexivity.
  - rewrite <- Zpos_iter_xO. cbn [binary_normalize].
    rewrite binary_round_exact by (apply digits_below; exact Hz).
    symmetry. exact (binary_round_integer false v (digits_below v Hz)).
  - replace (Zneg v * 2 ^ Z.of_nat k) with (Zneg (Nat.iter k xO v)).
    + cbn [binary_normalize].
      rewrite binary_round_exact by (apply digits_below; exact Hz).
      symmetry. exact (binary_round_integer true v (digits_below v Hz)).
    + rewrite <- Pos2Z.opp_pos, Zpos_iter_xO. lia.
Qed.

Lemma normalize_valid (z : Z) :
  Z.abs z < 2 ^ 53 ->
  valid_binary (binary_normalize prec emax z 0 false) = true.
Proof.
  intros Hz.
  assert (H : forall s v, Zpos v < 2 ^ 53 ->
            valid_binary (binary_round prec emax s v 0) = true).
  { intros s v Hv.
    rewrite (binary_round_integer s v (digits_below v Hv)).
    pose proof (digits_below v Hv) as Hd.
    cbn [SpecFloat.valid_binary]. unfold bounded, canonical_mantissa.
    rewrite size_iter_xO.
    assert (Hd1 : 1 <= Zpos (digits2_pos v)) by lia.
    apply andb_true_intro. split.
    - apply Z.eqb_eq. unfold fexp, emin, prec, emax. lia.
    - apply Z.leb_le. unfold prec, emax. lia. }
  destruct z as [|v|v]; [reflexivity | now apply H | now apply H].
Qed.

Lemma Prim2SF_ofInteger (z : Z) :
  Z.abs z < 2 ^ 53 ->
  Prim2SF (Float64.ofInteger z) = binary_normalize prec emax z 0 false.
Proof.
  intros Hz. unfold Float64.ofInteger. apply Prim2SF_SF2Prim.
  now apply normalize_valid.
Qed.

(** ** Sums, differences and comparisons *)

Lemma shl_align_value (m : positive) (e e' : Z) :
  e' <= e ->
  Zpos (fst (shl_align m e e')) = Zpos m * 2 ^ (e - e').
Proof.
  intros He. unfold shl_align.
  destruct (e' - e) as [|p|p] eqn:E; cbn [fst].
  - replace (e - e') with 0 by lia. lia.
  - lia.
  - rewrite Pos2Nat.inj_iter.
    change (Zpos (Nat.iter (Pos.to_nat p) xO m) = Zpos m * 2 ^ (e - e')).
    rewrite Zpos_iter_xO. f_equal. f_equal. lia.
Qed.

Lemma mantissa_bounds (m : positive) :
  Zpos (digits2_pos m) = 53 -> 2 ^ 52 <= Zpos m < 2 ^ 53.
Proof.
  rewrite digits2_size. intros Hd.
  pose proof (Pos.size_le m) as Hle. pose proof (Pos.size_gt m) as Hgt.
  assert (Hs : Pos.size m = 53%positive) by lia.
  rewrite Hs in Hle, Hgt.
  apply Pos2Z.pos_le_pos in Hle. apply Pos2Z.pos_lt_pos in Hgt.
  rewrite Pos2Z.inj_pow in Hle, Hgt. rewrite Pos2Z.inj_xO in Hle.
  change (2 ^ 53) with (2 * 2 ^ 52) in Hle. lia.
Qed.

(** The finite form of a non-zero integer below 2^53 in magnitude. *)
Lemma normalize_finite (z : Z) :
  z <> 0 -> Z.abs z < 2 ^ 53 ->
  exists m e,
    binary_normalize prec emax z 0 false = S754_finite (z <? 0) m e /\
    -52 <= e <= 0 /\ Zpos m = Z.abs z * 2 ^ (- e) /\
    2 ^ 52 <= Zpos m < 2 ^ 53.
Proof.
  intros Hz Hb.
  assert (H : forall s v, Zpos v < 2 ^ 53 ->
            exists m e,
              binary_round prec emax s v 0 = S754_finite s m e /\
              -52 <= e <= 0 /\ Zpos m = Zpos v * 2 ^ (- e) /\
              2 ^ 52 <= Zpos m < 2 ^ 53).
  { intros s v Hv. pose proof (digits_below v Hv) as Hd.
    eexists _, _. split; [exact (binary_round_integer s v Hd)|].
    split; [lia|]. split.
    - rewrite Zpos_iter_xO. f_equal. f_equal. lia.
    - apply mantissa_bounds. rewrite size_iter_xO. lia. }
  destruct z as [|v|v]; [congruence | now apply H | now apply H].
Qed.

Lemma SFadd_exact (a b : Z) :
  Z.abs a < 2 ^ 53 -> Z.abs b < 2 ^ 53 -> Z.abs (a + b) < 2 ^ 53 ->
  SFadd prec emax (binary_normalize prec emax a 0 false)
    (binary_normalize prec emax b 0 false)
  = binary_normalize prec emax (a + b) 0 false.
Proof.
  intros Ha Hb Hab.
  destruct (Z.eq_dec a 0) as [->|Ha0].
  - cbn [binary_normalize Z.add].
    destruct (Z.eq_dec b 0) as [->|Hb0]; [reflexivity|].
    destruct (normalize_finite b Hb0 Hb) as (m & e & -> & _). reflexivity.
  - destruct (normalize_finite a Ha0 Ha) as (ma & ea & Ea & Hea & Hma & _).
    destruct (Z.eq_dec b 0) as [->|Hb0].
    + rewrite Z.add_0_r, Ea. reflexivity.
    + destruct (normalize_finite b Hb0 Hb) as (mb & eb & Eb & Heb & Hmb & _).
      rewrite Ea, Eb. cbn [SFadd].
      set (ez := Z.min ea eb).
      rewrite !shl_align_value by (unfold ez; lia).
      rewrite Hma, Hmb.
      assert (Hsum :
        cond_Zopp (a <? 0) (Z.abs a * 2 ^ (- ea) * 2 ^ (ea - ez)) +
        cond_Zopp (b <? 0) (Z.abs b * 2 ^ (- eb) * 2 ^ (eb - ez))
        = (a + b) * 2 ^ Z.of_nat (Z.to_nat (- ez))).
      { rewrite Z2Nat.id by (unfold ez; lia).
        rewrite <- !Z.mul_assoc, <- !Z.pow_add_r by (unfold ez; lia).
        replace (- ea + (ea - ez)) with (- ez) by lia.
        replace (- eb + (eb - ez)) with (- ez) by lia.
        unfold cond_Zopp.
        destruct (Z.ltb_spec a 0), (Z.ltb_spec b 0); nia. }
      rewrite Hsum.
      replace ez with (- Z.of_nat (Z.to_nat (- ez))) at 2
        by (rewrite Z2Nat.id; unfold ez; lia).
      now apply normalize_shifted.
Qed.

Lemma SFsub_exact (a b : Z) :
  Z.abs a < 2 ^ 53 -> Z.abs b < 2 ^ 53 -> Z.abs (a - b) < 2 ^ 53 ->
  SFsub prec emax (binary_normalize prec emax a 0 false)
    (binary_normalize prec emax b 0 false)
  = binary_normalize prec emax (a - b) 0 false.
Proof.
  intros Ha Hb Hab.
  destruct (Z.eq_dec a 0) as [->|Ha0].
  - cbn [binary_normalize Z.sub Z.add].
    destruct (Z.eq_dec b 0) as [->|Hb0]; [reflexivity|].
    destruct b as [|v|v]; [congruence| |]; cbn [Z.opp binary_normalize].
    + rewrite (binary_round_integer false v (digits_below v Hb)).
      rewrite (binary_round_integer true v (digits_below v Hb)). reflexivity.
    + rewrite (binary_round_integer true v (digits_below v Hb)).
      rewrite (binary_round_integer false v (digits_below v Hb)). reflexivity.
  - destruct (normalize_finite a Ha0 Ha) as (ma & ea & Ea & Hea & Hma & _).
    destruct (Z.eq_dec b 0) as [->|Hb0].
    + rewrite Z.sub_0_r, Ea. reflexivity.
    + destruct (normalize_finite b Hb0 Hb) as (mb & eb & Eb & Heb & Hmb & _).
      rewrite Ea, Eb. cbn [SFsub].
      set (ez := Z.min ea eb).
      rewrite !shl_align_value by (unfold ez; lia).
      rewrite Hma, Hmb.
      assert (Hsum :
        cond_Zopp (a <? 0) (Z.abs a * 2 ^ (- ea) * 2 ^ (ea - ez)) -
        cond_Zopp (b <? 0) (Z.abs b * 2 ^ (- eb) * 2 ^ (eb - ez))
        = (a - b) * 2 ^ Z.of_nat (Z.to_nat (- ez))).
      { rewrite Z2Nat.id by (unfold ez; lia).
        rewrite <- !Z.mul_assoc, <- !Z.pow_add_r by (unfold ez; lia).
        replace (- ea + (ea - ez)) with (- ez) by lia.
        replace (- eb + (eb - ez)) with (- ez) by lia.
        unfold cond_Zopp.
        destruct (Z.ltb_spec a 0), (Z.ltb_spec b 0); nia. }
      rewrite Hsum.
      replace ez with (- Z.of_nat (Z.to_nat (- ez))) at 2
        by (rewrite Z2Nat.id; unfold ez; lia).
      now apply normalize_shifted.
Qed.

(** Within the integers below 2^53 in magnitude, the sum and the
    difference of two numbers are the numbers of the sum and of the
    difference. *)
Lemma add_exact (a b : Z) :
  Z.abs a < 2 ^ 53 -> Z.abs b < 2 ^ 53 -> Z.abs (a + b) < 2 ^ 53 ->
  PrimFloat.add (Float64.ofInteger a) (Float64.ofInteger b)
  = Float64.ofInteger (a + b).
Proof.
  intros Ha Hb Hab. apply Prim2SF_inj.
  rewrite add_spec, !Prim2SF_ofInteger by assumption.
  now apply SFadd_exact.
Qed.

Lemma sub_exact (a b : Z) :
  Z.abs a < 2 ^ 53 -> Z.abs b < 2 ^ 53 -> Z.abs (a - b) < 2 ^ 53 ->
  PrimFloat.sub (Float64.ofInteger a) (Float64.ofInteger b)
  = Float64.ofInteger (a - b).
Proof.
  intros Ha Hb Hab. apply Prim2SF_inj.
  rewrite sub_spec, !Prim2SF_ofInteger by assumption.
  now apply SFsub_exact.
Qed.

Lemma ltb_zero_ofInteger (z : Z) :
  Z.abs z < 2 ^ 53 ->
  PrimFloat.ltb 0%float (Float64.ofInteger z) = (0 <? z).
Proof.
  intros Hz. rewrite ltb_spec, Prim2SF_ofInteger by assumption.
  change (Prim2SF 0%float) with (S754_zero false).
  destruct (Z.eq_dec z 0) as [->|Hz0]; [reflexivity|].
  destruct (normalize_finite z Hz0 Hz) as (m & e & -> & _).
  unfold SFltb. cbn [SFcompare].
  destruct (Z.ltb_spec z 0), (Z.ltb_spec 0 z); try reflexivity; lia.
Qed.

Lemma eqb_zero_ofInteger (z : Z) :
  Z.abs z < 2 ^ 53 ->
  PrimFloat.eqb (Float64.ofInteger z) 0%float = (z =? 0).
Proof.
  intros Hz. rewrite eqb_spec, Prim2SF_ofInteger by assumption.
  change (Prim2SF 0%float) with (S754_zero false).
  destruct (Z.eq_dec z 0) as [->|Hz0]; [reflexivity|].
  destruct (normalize_finite z Hz0 Hz) as (m & e & -> & _).
  unfold SFeqb. cbn [SFcompare].
  destruct (Z.eqb_spec z 0); [lia|]. now destruct (z <? 0).
Qed.

Lemma is_nan_ofInteger (z : Z) :
  Z.abs z < 2 ^ 53 -> PrimFloat.is_nan (Float64.ofInteger z) = false.
Proof.
  intros Hz. unfold is_nan.
  rewrite eqb_spec, Prim2SF_ofInteger by assumption.
  destruct (Z.eq_dec z 0) as [->|Hz0]; [reflexivity|].
  destruct (normalize_finite z Hz0 Hz) as (m & e & -> & _).
  unfold SFeqb. cbn [SFcompare].
  destruct (z <? 0); rewrite Z.compare_refl;
    change (Pos.compare_cont Eq m m) with (Pos.compare m m);
    now rewrite Pos.compare_refl.
Qed.

(** The order of two integers below 2^53 in magnitude is the order of
    their numbers. *)
Lemma magnitude_compare (x y : Z) (m1 m2 : positive) (e1 e2 : Z) :
  0 < x -> 0 < y ->
  -52 <= e1 <= 0 -> -52 <= e2 <= 0 ->
  Zpos m1 = x * 2 ^ (- e1) -> Zpos m2 = y * 2 ^ (- e2) ->
  2 ^ 52 <= Zpos m1 < 2 ^ 53 -> 2 ^ 52 <= Zpos m2 < 2 ^ 53 ->
  match e1 ?= e2 with
  | Lt => Lt
  | Gt => Gt
  | Eq => Pos.compare_cont Eq m1 m2
  end = (x ?= y).
Proof.
  intros Hx Hy He1 He2 Hm1 Hm2 Hb1 Hb2.
  assert (Hshift : forall u v mu mv eu ev,
            0 < u -> 0 < v -> -52 <= eu <= 0 -> -52 <= ev <= 0 ->
            Zpos mu = u * 2 ^ (- eu) -> Zpos mv = v * 2 ^ (- ev) ->
            Zpos mu < 2 ^ 53 -> 2 ^ 52 <= Zpos mv ->
            eu < ev -> u < v).
  { intros u v mu mv eu ev Hu Hv Heu Hev Hmu Hmv Hbu Hbv Hlt.
    assert (Hp : 2 ^ (- eu) = 2 ^ (- ev) * 2 ^ (ev - eu)).
    { rewrite <- Z.pow_add_r by lia. f_equal. lia. }
    assert (Hd : 2 ^ 1 <= 2 ^ (ev - eu)) by (apply Z.pow_le_mono_r; lia).
    assert (HP : 0 < 2 ^ (- ev)) by (apply Z.pow_pos_nonneg; lia).
    change (2 ^ 1) with 2 in Hd. change (2 ^ 53) with (2 * 2 ^ 52) in Hbu.
    rewrite Hmu, Hp in Hbu. rewrite Hmv in Hbv.
    destruct (Z.lt_ge_cases u v) as [H|H]; [exact H|exfalso].
    assert (H1 : v * 2 ^ (- ev) <= u * 2 ^ (- ev))
      by (apply Z.mul_le_mono_nonneg_r; lia).
    assert (H2 : u * 2 ^ (- ev) * 2 <= u * 2 ^ (- ev) * 2 ^ (ev - eu))
      by (apply Z.mul_le_mono_nonneg_l; nia).
    rewrite Z.mul_assoc in Hbu. lia. }
  destruct (Z.compare_spec e1 e2) as [E|E|E].
  - subst e2. change (Pos.compare_cont Eq m1 m2) with (Pos.compare m1 m2).
    rewrite Pos2Z.inj_compare, Hm1, Hm2.
    assert (HP : 0 < 2 ^ (- e1)) by (apply Z.pow_pos_nonneg; lia).
    destruct (Z.compare_spec x y) as [C|C|C].
    + subst y. apply Z.compare_refl.
    + apply Z.compare_lt_iff. now apply Z.mul_lt_mono_pos_r.
    + apply Z.compare_gt_iff. now apply Z.mul_lt_mono_pos_r.
  - symmetry. apply Z.compare_lt_iff.
    apply (Hshift x y m1 m2 e1 e2); lia.
  - symmetry. apply Z.compare_gt_iff.
    apply (Hshift y x m2 m1 e2 e1); lia.
Qed.

Lemma SFcompare_integers (a b : Z) :
  Z.abs a < 2 ^ 53 -> Z.abs b < 2 ^ 53 ->
  SFcompare (binary_normalize prec emax a 0 false)
    (binary_normalize prec emax b 0 false) = Some (a ?= b).
Proof.
  intros Ha Hb.
  destruct (Z.eq_dec a 0) as [->|Ha0].
  - destruct (Z.eq_dec b 0) as [->|Hb0]; [reflexivity|].
    destruct (normalize_finite b Hb0 Hb) as (m & e & -> & _).
    cbn [binary_normalize SFcompare]. f_equal.
    destruct (Z.ltb_spec b 0); symmetry;
      [apply Z.compare_gt_iff | apply Z.compare_lt_iff]; lia.
  - destruct (normalize_finite a Ha0 Ha) as (ma & ea & -> & Hea & Hma & Hba).
    destruct (Z.eq_dec b 0) as [->|Hb0].
    + cbn [binary_normalize SFcompare]. f_equal.
      destruct (Z.ltb_spec a 0); symmetry;
        [apply Z.compare_lt_iff | apply Z.compare_gt_iff]; lia.
    + destruct (normalize_finite b Hb0 Hb)
        as (mb & eb & -> & Heb & Hmb & Hbb).
      cbn [SFcompare]. f_equal.
      destruct (Z.ltb_spec a 0) as [Hsa|Hsa],
               (Z.ltb_spec b 0) as [Hsb|Hsb].
      * assert (Hc : match ea ?= eb with
                     | Lt => Lt
                     | Gt => Gt
                     | Eq => Pos.compare_cont Eq ma mb
                     end = (Z.abs a ?= Z.abs b))
          by (apply magnitude_compare; assumption || lia).
        replace (a ?= b) with (CompOpp (Z.abs a ?= Z.abs b)).
        -- rewrite <- Hc.
           destruct (ea ?= eb); reflexivity.
        -- replace (Z.abs a) with (- a) by lia.
           replace (Z.abs b) with (- b) by lia.
           rewrite Z.compare_opp. symmetry. apply Z.compare_antisym.
      * symmetry. apply Z.compare_lt_iff. lia.
      * symmetry. apply Z.compare_gt_iff. lia.
      * assert (Hc : match ea ?= eb with
                     | Lt => Lt
                     | Gt => Gt
                     | Eq => Pos.compare_cont Eq ma mb
                     end = (Z.abs a ?= Z.abs b))
          by (apply magnitude_compare; assumption || lia).
        replace (a ?= b) with (Z.abs a ?= Z.abs b).
        -- rewrite <- Hc.
           destruct (ea ?= eb); reflexivity.
        -- replace (Z.abs a) with a by lia.
           replace (Z.abs b) with b by lia. reflexivity.
Qed.

Lemma ltb_ofInteger (a b : Z) :
  Z.abs a < 2 ^ 53 -> Z.abs b < 2 ^ 53 ->
  PrimFloat.ltb (Float64.ofInteger a) (Float64.ofInteger b) = (a <? b).
Proof.
  intros Ha Hb. rewrite ltb_spec, !Prim2SF_ofInteger by assumption.
  unfold SFltb. rewrite SFcompare_integers by assumption.
  unfold Z.ltb. now destruct (a ?= b).
Qed.

Lemma leb_ofInteger (a b : Z) :
  Z.abs a < 2 ^ 53 -> Z.abs b < 2 ^ 53 ->
  PrimFloat.leb (Float64.ofInteger a) (Float64.ofInteger b) = (a <=? b).
Proof.
  intros Ha Hb. rewrite leb_spec, !Prim2SF_ofInteger by assumption.
  unfold SFleb. rewrite SFcompare_integers by assumption.
  unfold Z.leb. now destruct (a ?= b).
Qed.

Lemma eqb_ofInteger (a b : Z) :
  Z.abs a < 2 ^ 53 -> Z.abs b < 2 ^ 53 ->
  PrimFloat.eqb (Float64.ofInteger a) (Float64.ofInteger b) = (a =? b).
Proof.
  intros Ha Hb. rewrite eqb_spec, !Prim2SF_ofInteger by assumption.
  unfold SFeqb. rewrite SFcompare_integers by assumption.
  rewrite Z.eqb_compare. now destruct (a ?= b).
Qed.

Lemma falsy_ofInteger (z : Z) :
  Z.abs z < 2 ^ 53 -> Float64.falsy (Float64.ofInteger z) = (z =? 0).
Proof.
  intros Hz. unfold Float64.falsy.
  rewrite eqb_zero_ofInteger, is_nan_ofInteger by assumption.
  apply orb_false_r.
Qed.

(** An integer below 2^53 in magnitude is read back from its number. *)
Lemma toInteger_ofInteger (z : Z) :
  Z.abs z < 2 ^ 53 -> Float64.toInteger (Float64.ofInteger z) = Some z.
Proof.
  intros Hz. unfold Float64.toInteger.
  rewrite Prim2SF_ofInteger by assumption.
  destruct (Z.eq_dec z 0) as [->|Hz0]; [reflexivity|].
  destruct (normalize_finite z Hz0 Hz) as (m & e & -> & He & Hm & _).
  assert (Hp : 0 < 2 ^ (- e)) by (apply Z.pow_pos_nonneg; lia).
  assert (Hs : cond_Zopp (z <? 0) (Z.abs z) = z).
  { unfold cond_Zopp. destruct (Z.ltb_spec z 0); lia. }
  destruct (Z.leb_spec 0 e) as [H0|H0].
  - assert (e = 0) by lia. subst e. f_equal. rewrite <- Hs at 2.
    f_equal. rewrite Hm. cbn. lia.
  - rewrite Hm, Z.mod_mul by lia. cbn [Z.eqb].
    rewrite Z.div_mul by lia. now rewrite Hs.
Qed.

(** Injectivity on the integers below 2^53 in magnitude. *)
Lemma ofInteger_inj (a b : Z) :
  Z.abs a < 2 ^ 53 -> Z.abs b < 2 ^ 53 ->
  Float64.ofInteger a = Float64.ofInteger b -> a = b.
Proof.
  intros Ha Hb E.
  pose proof (toInteger_ofInteger a Ha) as H1.
  rewrite E, (toInteger_ofInteger b Hb) in H1. congruence.
Qed.

(** A percentage of the total 0. *)
Lemma percentOf_zero_total (z : Z) :
  Z.abs z < 2 ^ 53 ->
  Float64.percentOf (Float64.ofInteger z) (Float64.ofInteger 0)
  = if z =? 0 then nan
    else if 0 <? z then infinity else neg_infinity.
Proof.
  intros Hz. apply Prim2SF_inj. unfold Float64.percentOf.
  rewrite mul_spec, div_spec, !Prim2SF_ofInteger by (assumption || now cbn).
  assert (Hh : exists m e, Prim2SF 100%float = S754_finite false m e).
  { eexists _, _. vm_compute. reflexivity. }
  destruct Hh as (mh & eh & ->).
  destruct (Z.eq_dec z 0) as [->|Hz0]; [reflexivity|].
  destruct (normalize_finite z Hz0 Hz) as (m & e & -> & _).
  cbn [binary_normalize SFdiv SFmul xorb].
  destruct (Z.eqb_spec z 0) as [|_]; [congruence|].
  destruct (Z.ltb_spec z 0), (Z.ltb_spec 0 z); try lia; reflexivity.
Qed.

(** ** Quotients and products that stay finite *)

Lemma shr_1_m mrs :
  0 <= shr_m mrs -> shr_m (shr_1 mrs) = shr_m mrs / 2.
Proof.
  destruct mrs as [m r s]. cbn [shr_m shr_1]. intros Hm.
  destruct m as [|[p|p|]|p]; cbn [shr_m]; [| | | |lia];
    rewrite <- Z.div2_div; reflexivity.
Qed.

Lemma iter_shr_1_m (n : nat) mrs :
  0 <= shr_m mrs ->
  0 <= shr_m (Nat.iter n shr_1 mrs) /\
  shr_m (Nat.iter n shr_1 mrs) * 2 ^ Z.of_nat n <= shr_m mrs.
Proof.
  intros Hm. induction n as [|n (IH0 & IH)].
  - cbn. lia.
  - rewrite Nat.iter_succ, shr_1_m by exact IH0.
    rewrite Nat2Z.inj_succ, Z.pow_succ_r by lia.
    set (x := shr_m (Nat.iter n shr_1 mrs)) in *.
    assert (H2 : 0 <= x / 2) by (apply Z.div_pos; lia).
    assert (H3 : 2 * (x / 2) <= x) by (apply Z.mul_div_le; lia).
    split; [exact H2|].
    assert (Hp : 0 <= 2 ^ Z.of_nat n) by (apply Z.pow_nonneg; lia).
    nia.
Qed.

Lemma Zdigits2_lower (m : Z) : 0 < m -> 2 ^ (Zdigits2 m - 1) <= m.
Proof.
  destruct m as [|p|p]; try lia. intros _. cbn [Zdigits2].
  rewrite digits2_size. pose proof (Pos.size_le p) as H.
  apply Pos2Z.pos_le_pos in H. rewrite Pos2Z.inj_pow, (Pos2Z.inj_xO p) in H.
  replace (Zpos (Pos.size p)) with (Z.succ (Zpos (Pos.size p) - 1)) in H
    by lia.
  rewrite Z.pow_succ_r in H by lia. lia.
Qed.

(** What fits below 2^[B] has at most [B - e] digits. *)
Lemma fits_digits B m e :
  0 <= m -> -2000 <= e -> -2000 <= B -> fits B m e ->
  Zdigits2 m + e <= B \/ m = 0.
Proof.
  intros Hm He HB Hf. destruct (Z.eq_dec m 0) as [->|Hm0]; [now right|left].
  pose proof (Zdigits2_lower m ltac:(lia)) as Hd.
  assert (Hd1 : 1 <= Zdigits2 m).
  { destruct m as [|p|p]; cbn [Zdigits2]; lia. }
  unfold fits in Hf.
  assert (Hp : 0 < 2 ^ (e + 2000)) by (apply Z.pow_pos_nonneg; lia).
  assert (H1 : 2 ^ (Zdigits2 m - 1) * 2 ^ (e + 2000) < 2 ^ (B + 2000)) by nia.
  rewrite <- Z.pow_add_r in H1 by lia.
  apply Z.pow_lt_mono_r_iff in H1; lia.
Qed.

Lemma shr_fexp_bounds B m e l :
  0 <= m -> -2000 <= e -> -2000 <= B -> fits B m e ->
  let '(mrs, e') := shr_fexp prec emax m e l in
  0 <= shr_m mrs /\ fits B (shr_m mrs) e' /\
  e' = Z.max e (fexp prec emax (Zdigits2 m + e)).
Proof.
  intros Hm He HB Hf. unfold shr_fexp, shr.
  assert (Hrec : shr_m (shr_record_of_loc m l) = m).
  { destruct l as [|[]]; reflexivity. }
  destruct (fexp prec emax (Zdigits2 m + e) - e) as [|p|p] eqn:E.
  - rewrite Hrec. repeat split; [lia | exact Hf | lia].
  - rewrite iter_pos_nat.
    destruct (iter_shr_1_m (Pos.to_nat p) (shr_record_of_loc m l))
      as (H0 & Hle); [rewrite Hrec; lia|].
    rewrite Hrec in Hle. rewrite positive_nat_Z in Hle.
    split; [exact H0|]. split; [|lia].
    unfold fits in *.
    replace (e + Zpos p + 2000) with (Zpos p + (e + 2000)) by lia.
    rewrite Z.pow_add_r by lia.
    assert (Hp : 0 < 2 ^ (e + 2000)) by (apply Z.pow_pos_nonneg; lia).
    nia.
  - rewrite Hrec. repeat split; [lia | exact Hf | lia].
Qed.

Lemma round_nearest_even_bounds m l :
  0 <= m -> m <= round_nearest_even m l <= m + 1.
Proof.
  intros Hm. destruct l as [|[]]; cbn [round_nearest_even]; try lia.
  destruct (Z.even m); lia.
Qed.

(** Rounding what fits below 2^[B], for [B] up to 1023, gives a zero or a
    finite number, which fits below 2^([B]+1). *)
Lemma binary_round_aux_bounded (s : bool) (B mx ex : Z) (lx : location) :
  0 <= mx -> -2000 <= ex <= 971 -> ex <= B -> -1074 <= B <= 1023 ->
  fits B mx ex ->
  binary_round_aux prec emax s mx ex lx = S754_zero s \/
  exists m e,
    binary_round_aux prec emax s mx ex lx = S754_finite s m e /\
    ex <= e /\ e <= Z.max (Z.max ex (B - 52)) (-1074) /\
    fits (B + 1) (Zpos m) e.
Proof.
  intros Hm (He & He9) HeB HB Hf. unfold binary_round_aux.
  pose proof (shr_fexp_bounds B mx ex lx Hm He ltac:(lia) Hf) as H1.
  destruct (shr_fexp prec emax mx ex lx) as (mrs', e').
  destruct H1 as (Hm' & Hf' & He').
  assert (Hfe : fexp prec emax (Zdigits2 mx + ex)
                <= Z.max (Z.max ex (B - 53)) (-1074)).
  { destruct (fits_digits B mx ex Hm He ltac:(lia) Hf) as [Hd | ->].
    - unfold fexp, emin, prec, emax. lia.
    - cbn [Zdigits2]. unfold fexp, emin, prec, emax. lia. }
  pose proof (round_nearest_even_bounds (shr_m mrs')
                (loc_of_shr_record mrs') Hm') as Hr.
  set (m1 := round_nearest_even (shr_m mrs') (loc_of_shr_record mrs')) in *.
  assert (Hf1 : fits (B + 1) m1 e').
  { unfold fits in *.
    assert (Hp : 0 < 2 ^ (e' + 2000)) by (apply Z.pow_pos_nonneg; lia).
    replace (B + 1 + 2000) with (Z.succ (B + 2000)) by lia.
    rewrite Z.pow_succ_r by lia.
    destruct (Z.eq_dec (shr_m mrs') 0) as [E0|E0].
    - rewrite E0 in Hr.
      assert (Hpow : 2 ^ (e' + 2000) <= 2 ^ (B + 2000))
        by (apply Z.pow_le_mono_r; lia).
      nia.
    - nia. }
  pose proof (shr_fexp_bounds (B + 1) m1 e' loc_Exact ltac:(lia) ltac:(lia)
                ltac:(lia) Hf1) as H2.
  destruct (shr_fexp prec emax m1 e' loc_Exact) as (mrs'', e'').
  destruct H2 as (Hm'' & Hf'' & He'').
  assert (Hfe1 : fexp prec emax (Zdigits2 m1 + e')
                 <= Z.max (Z.max e' (B - 52)) (-1074)).
  { destruct (fits_digits (B + 1) m1 e' ltac:(lia) ltac:(lia) ltac:(lia) Hf1)
      as [Hd | E].
    - unfold fexp, emin, prec, emax. lia.
    - rewrite E. cbn [Zdigits2]. unfold fexp, emin, prec, emax. lia. }
  destruct (shr_m mrs'') as [|m|m] eqn:Em; [now left | | lia].
  right. exists m, e''.
  destruct (Z.leb_spec e'' (emax - prec)) as [Hle|Hgt].
  - repeat split; [lia | lia | exact Hf''].
  - unfold emax, prec in Hgt. lia.
Qed.

Lemma finite_is_finite (x : float) :
  (exists s, Prim2SF x = S754_zero s) \/
  (exists s m e, Prim2SF x = S754_finite s m e) ->
  PrimFloat.is_finite x = true.
Proof.
  intros H. unfold is_finite, is_nan, is_infinity.
  rewrite !eqb_spec, abs_spec.
  change (Prim2SF infinity) with (S754_infinity false).
  destruct H as [(s & ->)|(s & m & e & ->)]; [reflexivity|].
  unfold SFeqb. cbn [SFabs SFcompare].
  rewrite Z.compare_refl.
  change (Pos.compare_cont Eq m m) with (Pos.compare m m).
  rewrite Pos.compare_refl. now destruct s.
Qed.

(** A percentage of a total that is not 0 is a finite number. *)
Lemma percentOf_finite (v t : Z) :
  Z.abs v < 2 ^ 53 -> Z.abs t < 2 ^ 53 -> t <> 0 ->
  PrimFloat.is_finite
    (Float64.percentOf (Float64.ofInteger v) (Float64.ofInteger t)) = true.
Proof.
  intros Hv Ht Ht0. apply finite_is_finite. unfold Float64.percentOf.
  rewrite mul_spec, div_spec, !Prim2SF_ofInteger by assumption.
  assert (Hh : Prim2SF 100%float
               = S754_finite false 7036874417766400 (-46)).
  { vm_compute. reflexivity. }
  rewrite Hh.
  destruct (normalize_finite t Ht0 Ht) as (mt & et & -> & Het & _ & Hbt).
  destruct (Z.eq_dec v 0) as [->|Hv0].
  { left. eexists. reflexivity. }
  destruct (normalize_finite v Hv0 Hv) as (mv & ev & -> & Hev & _ & Hbv).
  unfold SF64div, SF64mul. cbn [SFdiv].
  unfold SFdiv_core_binary. cbn [Zdigits2].
  set (e' := Z.min (fexp prec emax (Zpos (digits2_pos mv) + ev
                                    - (Zpos (digits2_pos mt) + et)))
               (ev - et)).
  assert (He'lo : -1074 <= e').
  { unfold e', fexp, emin, prec, emax. lia. }
  assert (He'hi : e' <= ev - et) by (unfold e'; lia).
  set (m' := match ev - et - e' with
             | 0 => Zpos mv
             | Zpos _ => Z.shiftl (Zpos mv) (ev - et - e')
             | Zneg _ => 0
             end).
  assert (Hm' : m' = Zpos mv * 2 ^ (ev - et - e')).
  { unfold m'. destruct (ev - et - e') as [|p|p] eqn:E;
      [cbn; lia | rewrite Z.shiftl_mul_pow2 by lia; reflexivity | lia]. }
  pose proof (Z_div_mod m' (Zpos mt) ltac:(lia)) as Hdiv.
  destruct (Z.div_eucl m' (Zpos mt)) as (q, r).
  destruct Hdiv as (Hq & Hr).
  assert (Hpow : 0 < 2 ^ (ev - et - e')) by (apply Z.pow_pos_nonneg; lia).
  assert (Hq0 : 0 <= q) by nia.
  assert (Hfq : fits 53 q e').
  { unfold fits.
    assert (Hq1 : q * 2 ^ 52 < 2 ^ 53 * 2 ^ (ev - et - e')) by nia.
    assert (Hq2 : q < 2 * 2 ^ (ev - et - e')).
    { change (2 ^ 53) with (2 * 2 ^ 52) in Hq1. nia. }
    assert (Hp : 0 < 2 ^ (e' + 2000)) by (apply Z.pow_pos_nonneg; lia).
    assert (Hq3 : q * 2 ^ (e' + 2000)
                  < 2 * 2 ^ (ev - et - e') * 2 ^ (e' + 2000)) by nia.
    rewrite <- Z.mul_assoc, <- Z.pow_add_r in Hq3 by lia.
    replace (ev - et - e' + (e' + 2000)) with (ev - et + 2000) in Hq3 by lia.
    assert (Hp2 : 2 ^ (ev - et + 2000) <= 2 ^ (52 + 2000))
      by (apply Z.pow_le_mono_r; lia).
    change (2 ^ (53 + 2000)) with (2 * 2 ^ (52 + 2000)). lia. }
  destruct (binary_round_aux_bounded (xorb (v <? 0) (t <? 0)) 53 q e'
              (new_location (Zpos mt) r) Hq0 ltac:(lia) ltac:(lia)
              ltac:(lia) Hfq)
    as [->|(m & e & -> & Helo & Hehi & Hfm)].
  { left. eexists. reflexivity. }
  cbn [SFmul].
  assert (Hfp : fits 61 (Zpos (m * 7036874417766400)) (e + -46)).
  { unfold fits in *. rewrite Pos2Z.inj_mul.
    change (Zpos 7036874417766400) with (100 * 2 ^ 46).
    assert (Hp : 0 < 2 ^ (e + -46 + 2000)) by (apply Z.pow_pos_nonneg; lia).
    replace (e + 2000) with (46 + (e + -46 + 2000)) in Hfm by lia.
    rewrite Z.pow_add_r in Hfm by lia.
    change (2 ^ (61 + 2000)) with (128 * 2 ^ (53 + 1 + 2000)). nia. }
  destruct (binary_round_aux_bounded (xorb (xorb (v <? 0) (t <? 0)) false)
              61 (Zpos (m * 7036874417766400)) (e + -46) loc_Exact
              ltac:(lia) ltac:(lia) ltac:(lia) ltac:(lia) Hfp)
    as [->|(m2 & e2 & -> & _)].
  - left. eexists. reflexivity.
  - right. eexists _, _, _. reflexivity.
Qed.

(** * The merge in binary64 and the merge of the integers

    Within the safe integers the merge of the code, on binary64 numbers,
    computes what the merge of the integers computes: every addition of
    the one is exact and is the addition of the other, and the comparator
    of the sort decides alike. *)

Lemma zsum_perm l l' : Permutation l l' -> zsum l = zsum l'.
Proof. induction 1; simpl; lia. Qed.

(** ** Maps of integers and maps of their numbers *)

Lemma get_mapValues {V W : Type} (f : V -> W) (m : JSMap.t V) k :
  JSMap.get (mapValues f m) k = option_map f (JSMap.get m k).
Proof.
  induction m as [|(k' & v) m IH]; simpl; [reflexivity|].
  now destruct (str_eqb k' k).
Qed.

Lemma has_mapValues {V W : Type} (f : V -> W) (m : JSMap.t V) k :
  JSMap.has (mapValues f m) k = JSMap.has m k.
Proof.
  unfold JSMap.has. rewrite get_mapValues. now destruct (JSMap.get m k).
Qed.

Lemma set_mapValues {V W : Type} (f : V -> W) (m : JSMap.t V) k v :
  JSMap.set (mapValues f m) k (f v) = mapValues f (JSMap.set m k v).
Proof.
  induction m as [|(k' & v') m IH]; simpl; [reflexivity|].
  destruct (str_eqb k' k); simpl; [reflexivity|]. now rewrite IH.
Qed.

Section Weight.
Context {V : Type} (w : V -> Z).
Hypothesis w_nonneg : forall v, 0 <= w v.

Lemma weight_nonneg (m : JSMap.t V) : 0 <= weight w m.
Proof.
  induction m as [|(k & v) m IH]; unfold weight in *; simpl; [lia|].
  specialize (w_nonneg v). lia.
Qed.

Lemma weight_In (m : JSMap.t V) e : In e m -> w (snd e) <= weight w m.
Proof.
  induction m as [|(k & v) m IH]; intros Hin; [destruct Hin|].
  unfold weight in *. simpl. destruct Hin as [<-|Hin].
  - pose proof (weight_nonneg m) as H. unfold weight in H. simpl. lia.
  - specialize (IH Hin). specialize (w_nonneg v). lia.
Qed.

Lemma weight_get (m : JSMap.t V) k v :
  JSMap.get m k = Some v -> w v <= weight w m.
Proof.
  induction m as [|(k' & v') m IH]; simpl; [discriminate|].
  unfold weight in *. simpl. destruct (str_eqb k' k).
  - intros [= ->]. pose proof (weight_nonneg m) as H.
    unfold weight in H. lia.
  - intros H. specialize (IH H). specialize (w_nonneg v'). lia.
Qed.

Lemma weight_set (m : JSMap.t V) k v :
  weight w (JSMap.set m k v) =
  weight w m - match JSMap.get m k with Some u => w u | None => 0 end + w v.
Proof.
  induction m as [|(k' & v') m IH]; unfold weight in *; simpl; [lia|].
  destruct (str_eqb k' k); simpl; [lia|]. rewrite IH. lia.
Qed.

End Weight.

Lemma magnitude_nonneg m : 0 <= magnitude m.
Proof. apply weight_nonneg. intros v. apply Z.abs_nonneg. Qed.

Lemma or_zero_id o : or_zero o = match o with Some v => v | None => 0 end.
Proof.
  destruct o as [v|]; simpl; [|reflexivity].
  now destruct (Z.eqb_spec v 0).
Qed.

Lemma or_zero_magnitude m k : Z.abs (or_zero (JSMap.get m k)) <= magnitude m.
Proof.
  rewrite or_zero_id. destruct (JSMap.get m k) as [v|] eqn:E.
  - exact (weight_get Z.abs Z.abs_nonneg m k v E).
  - apply magnitude_nonneg.
Qed.

Lemma magnitude_add m k v :
  magnitude (JSMap.set m k (or_zero (JSMap.get m k) + v))
  <= magnitude m + Z.abs v.
Proof.
  unfold magnitude. rewrite weight_set, or_zero_id.
  destruct (JSMap.get m k) as [u|]; lia.
Qed.

Lemma safe_below z : z <= MAX_SAFE_INTEGER -> z < 2 ^ 53.
Proof. unfold MAX_SAFE_INTEGER. lia. Qed.

Lemma or_zero_numbers m k :
  magnitude m <= MAX_SAFE_INTEGER ->
  Float64.or_zero (JSMap.get (mapValues Float64.ofInteger m) k)
  = Float64.ofInteger (or_zero (JSMap.get m k)).
Proof.
  intros Hm. rewrite get_mapValues.
  destruct (JSMap.get m k) as [v|] eqn:E; simpl; [|reflexivity].
  assert (Hv : Z.abs v < 2 ^ 53).
  { apply safe_below.
    pose proof (weight_get Z.abs Z.abs_nonneg m k v E). unfold magnitude in Hm.
    lia. }
  rewrite falsy_ofInteger by exact Hv.
  now destruct (Z.eqb_spec v 0).
Qed.

(** ** The merge of the integers and the merge of their numbers *)

Lemma update_numbers m k v :
  magnitude m + Z.abs v <= MAX_SAFE_INTEGER ->
  JSMap.set (mapValues Float64.ofInteger m) k
    (PrimFloat.add
       (Float64.or_zero (JSMap.get (mapValues Float64.ofInteger m) k))
       (Float64.ofInteger v))
  = mapValues Float64.ofInteger
      (JSMap.set m k (or_zero (JSMap.get m k) + v)).
Proof.
  intros Hb.
  pose proof (or_zero_magnitude m k) as Hc.
  pose proof (magnitude_nonneg m) as Hm.
  rewrite or_zero_numbers by lia.
  rewrite add_exact by (apply safe_below; lia).
  apply set_mapValues.
Qed.

Lemma mergeSlice_numbers st item :
  magnitude (categoryTotals st) + Z.abs (value item) <= MAX_SAFE_INTEGER ->
  Z.abs (grandTotal st) + Z.abs (value item) <= MAX_SAFE_INTEGER ->
  Float64.mergeSlice (stateNumbers st) (sliceNumber item)
  = stateNumbers (mergeSlice st item).
Proof.
  intros Hm Hg. unfold Float64.mergeSlice, mergeSlice, stateNumbers.
  cbn [Float64.categoryTotals Float64.categoryActivities Float64.grandTotal
       Float64.name Float64.value sliceNumber
       categoryTotals categoryActivities grandTotal].
  rewrite update_numbers by exact Hm.
  rewrite add_exact by (apply safe_below; lia).
  reflexivity.
Qed.

Lemma mergeSlice_fold_numbers items : forall st,
  magnitude (categoryTotals st) + zsum (map (fun s => Z.abs (value s)) items)
    <= MAX_SAFE_INTEGER ->
  Z.abs (grandTotal st) + zsum (map (fun s => Z.abs (value s)) items)
    <= MAX_SAFE_INTEGER ->
  let st' := fold_left mergeSlice items st in
  fold_left Float64.mergeSlice (map sliceNumber items) (stateNumbers st)
    = stateNumbers st' /\
  magnitude (categoryTotals st')
    <= magnitude (categoryTotals st)
       + zsum (map (fun s => Z.abs (value s)) items) /\
  Z.abs (grandTotal st')
    <= Z.abs (grandTotal st) + zsum (map (fun s => Z.abs (value s)) items).
Proof.
  induction items as [|it items IH]; intros st Hm Hg; cbn [fold_left map].
  - cbn [zsum fold_right]. repeat split; lia.
  - cbn [zsum fold_right map] in Hm, Hg |- *.
    fold (zsum (map (fun s => Z.abs (value s)) items)) in Hm, Hg |- *.
    assert (Hrest : 0 <= zsum (map (fun s => Z.abs (value s)) items)).
    { clear. induction items; cbn; [lia|].
      fold (zsum (map (fun s => Z.abs (value s)) items)). lia. }
    pose proof (magnitude_add (categoryTotals st) (name it) (value it)) as Ha.
    rewrite mergeSlice_numbers by lia.
    assert (Hm1 : magnitude (categoryTotals (mergeSlice st it))
                  <= magnitude (categoryTotals st) + Z.abs (value it))
      by exact Ha.
    assert (Hg1 : Z.abs (grandTotal (mergeSlice st it))
                  <= Z.abs (grandTotal st) + Z.abs (value it))
      by (cbn [mergeSlice grandTotal]; lia).
    destruct (IH (mergeSlice st it)) as (E & Hm2 & Hg2); [lia|lia|].
    split; [exact E|]. split; lia.
Qed.

Lemma zsum_abs_nonneg {A : Type} (f : A -> Z) (l : list A) :
  0 <= zsum (map (fun x => Z.abs (f x)) l).
Proof.
  induction l as [|x l IH]; cbn; [lia|].
  fold (zsum (map (fun x => Z.abs (f x)) l)). lia.
Qed.

Lemma mergeActivity_fold_numbers xs : forall am,
  magnitude am + zsum (map (fun x => Z.abs (count x)) xs)
    <= MAX_SAFE_INTEGER ->
  let am' := fold_left mergeActivity xs am in
  fold_left Float64.mergeActivity (map activityNumber xs)
    (mapValues Float64.ofInteger am)
    = mapValues Float64.ofInteger am' /\
  magnitude am' <= magnitude am + zsum (map (fun x => Z.abs (count x)) xs).
Proof.
  induction xs as [|x xs IH]; intros am Hm; cbn [fold_left map].
  - cbn [zsum fold_right]. split; [reflexivity|lia].
  - cbn [zsum fold_right map] in Hm |- *.
    fold (zsum (map (fun x => Z.abs (count x)) xs)) in Hm |- *.
    pose proof (zsum_abs_nonneg count xs) as Hrest.
    pose proof (magnitude_add am (activity x) (count x)) as Ha.
    unfold Float64.mergeActivity at 2.
    cbn [Float64.activity Float64.count activityNumber].
    rewrite update_numbers by lia.
    fold (mergeActivity am x).
    assert (Hb : magnitude (mergeActivity am x)
                 <= magnitude am + Z.abs (count x)) by exact Ha.
    destruct (IH (mergeActivity am x)) as (E & Hm2); [lia|].
    split; [exact E|lia].
Qed.

Lemma magnitude2_nonneg m : 0 <= magnitude2 m.
Proof. apply weight_nonneg. exact magnitude_nonneg. Qed.

Lemma mergeDetail_numbers cas d :
  magnitude2 cas + activityMagnitude d <= MAX_SAFE_INTEGER ->
  Float64.mergeDetail (mapValues (mapValues Float64.ofInteger) cas)
    (detailNumbers d)
  = mapValues (mapValues Float64.ofInteger) (mergeDetail cas d) /\
  magnitude2 (mergeDetail cas d) <= magnitude2 cas + activityMagnitude d.
Proof.
  intros Hb. unfold Float64.mergeDetail, mergeDetail.
  cbn [Float64.category Float64.activities detailNumbers].
  rewrite has_mapValues.
  set (cas1 := if negb (JSMap.has cas (category d))
               then JSMap.set cas (category d) [] else cas).
  assert (E1 : (if negb (JSMap.has cas (category d))
                then JSMap.set (mapValues (mapValues Float64.ofInteger) cas)
                       (category d) []
                else mapValues (mapValues Float64.ofInteger) cas)
               = mapValues (mapValues Float64.ofInteger) cas1).
  { unfold cas1. destruct (negb (JSMap.has cas (category d)));
      [|reflexivity].
    exact (set_mapValues (mapValues Float64.ofInteger) cas (category d) []). }
  rewrite E1.
  assert (Hm1 : magnitude2 cas1 = magnitude2 cas).
  { unfold cas1, JSMap.has.
    destruct (JSMap.get cas (category d)) eqn:E; cbn [negb]; [reflexivity|].
    unfold magnitude2. rewrite weight_set, E. cbn. lia. }
  rewrite get_mapValues.
  destruct (JSMap.get cas1 (category d)) as [am|] eqn:E; cbn [option_map].
  - pose proof (weight_get magnitude magnitude_nonneg cas1 _ _ E) as Ham.
    fold (magnitude2 cas1) in Ham.
    destruct (mergeActivity_fold_numbers (activities d) am) as (Ef & Hmf).
    { unfold activityMagnitude in Hb. lia. }
    rewrite Ef. split.
    + apply set_mapValues.
    + unfold magnitude2 at 1. rewrite weight_set, E.
      fold (magnitude2 cas1). unfold activityMagnitude. lia.
  - split; [reflexivity|].
    pose proof (zsum_abs_nonneg count (activities d)).
    unfold activityMagnitude. lia.
Qed.

Lemma mergeDetail_fold_numbers ds : forall cas,
  magnitude2 cas + zsum (map activityMagnitude ds) <= MAX_SAFE_INTEGER ->
  let cas' := fold_left mergeDetail ds cas in
  fold_left Float64.mergeDetail (map detailNumbers ds)
    (mapValues (mapValues Float64.ofInteger) cas)
    = mapValues (mapValues Float64.ofInteger) cas' /\
  magnitude2 cas' <= magnitude2 cas + zsum (map activityMagnitude ds).
Proof.
  induction ds as [|d ds IH]; intros cas Hb; cbn [fold_left map].
  - cbn [zsum fold_right]. split; [reflexivity|lia].
  - cbn [zsum fold_right map] in Hb |- *.
    fold (zsum (map activityMagnitude ds)) in Hb |- *.
    assert (Hrest : 0 <= zsum (map activityMagnitude ds)).
    { clear. induction ds as [|d ds IH]; cbn; [lia|].
      fold (zsum (map activityMagnitude ds)).
      pose proof (zsum_abs_nonneg count (activities d)).
      unfold activityMagnitude at 1. lia. }
    destruct (mergeDetail_numbers cas d) as (E & Hm); [lia|].
    rewrite E.
    destruct (IH (mergeDetail cas d)) as (E2 & Hm2); [lia|].
    split; [exact E2|lia].
Qed.

Lemma sliceMagnitude_cons r rs :
  sliceMagnitude (r :: rs) = slicesMagnitude r + sliceMagnitude rs.
Proof. reflexivity. Qed.

Lemma countMagnitude_cons r rs :
  countMagnitude (r :: rs) = countsMagnitude r + countMagnitude rs.
Proof. reflexivity. Qed.

Lemma sliceMagnitude_nonneg rs : 0 <= sliceMagnitude rs.
Proof.
  induction rs as [|r rs IH]; [cbn; lia|].
  rewrite sliceMagnitude_cons.
  pose proof (zsum_abs_nonneg value (pieChart r)).
  unfold slicesMagnitude. lia.
Qed.

Lemma countsMagnitude_nonneg r : 0 <= countsMagnitude r.
Proof.
  unfold countsMagnitude.
  induction (detailedReport r) as [|d ds IH]; cbn; [lia|].
  fold (zsum (map activityMagnitude ds)).
  pose proof (zsum_abs_nonneg count (activities d)).
  unfold activityMagnitude at 1. lia.
Qed.

Lemma countMagnitude_nonneg rs : 0 <= countMagnitude rs.
Proof.
  induction rs as [|r rs IH]; [cbn; lia|].
  rewrite countMagnitude_cons.
  pose proof (countsMagnitude_nonneg r). lia.
Qed.

Lemma mergeOne_numbers st r :
  magnitude (categoryTotals st) + slicesMagnitude r <= MAX_SAFE_INTEGER ->
  Z.abs (grandTotal st) + slicesMagnitude r <= MAX_SAFE_INTEGER ->
  magnitude2 (categoryActivities st) + countsMagnitude r
    <= MAX_SAFE_INTEGER ->
  Float64.mergeOne (stateNumbers st) (asNumbers r)
    = stateNumbers (mergeOne st r) /\
  magnitude (categoryTotals (mergeOne st r))
    <= magnitude (categoryTotals st) + slicesMagnitude r /\
  Z.abs (grandTotal (mergeOne st r))
    <= Z.abs (grandTotal st) + slicesMagnitude r /\
  magnitude2 (categoryActivities (mergeOne st r))
    <= magnitude2 (categoryActivities st) + countsMagnitude r.
Proof.
  intros Hm Hg Hc. unfold Float64.mergeOne, mergeOne.
  change (Float64.pieChart (asNumbers r)) with (map sliceNumber (pieChart r)).
  change (Float64.detailedReport (asNumbers r))
    with (map detailNumbers (detailedReport r)).
  destruct (mergeSlice_fold_numbers (pieChart r) st Hm Hg) as (E & Hm1 & Hg1).
  cbv zeta in E, Hm1, Hg1. rewrite E.
  destruct (mergeSlice_fold (pieChart r) st) as (_ & _ & Hca).
  cbv zeta in Hca.
  cbn [stateNumbers Float64.categoryTotals Float64.categoryActivities
       Float64.grandTotal categoryTotals categoryActivities grandTotal].
  rewrite Hca.
  destruct (mergeDetail_fold_numbers (detailedReport r)
              (categoryActivities st) Hc) as (E2 & Hc2).
  cbv zeta in E2, Hc2. rewrite E2.
  unfold stateNumbers.
  cbn [categoryTotals categoryActivities grandTotal].
  repeat split; assumption.
Qed.

Lemma mergeOne_fold_numbers rs : forall st,
  magnitude (categoryTotals st) + sliceMagnitude rs <= MAX_SAFE_INTEGER ->
  Z.abs (grandTotal st) + sliceMagnitude rs <= MAX_SAFE_INTEGER ->
  magnitude2 (categoryActivities st) + countMagnitude rs
    <= MAX_SAFE_INTEGER ->
  let st' := fold_left mergeOne rs st in
  fold_left Float64.mergeOne (map asNumbers rs) (stateNumbers st)
    = stateNumbers st' /\
  magnitude (categoryTotals st')
    <= magnitude (categoryTotals st) + sliceMagnitude rs /\
  Z.abs (grandTotal st') <= Z.abs (grandTotal st) + sliceMagnitude rs /\
  magnitude2 (categoryActivities st')
    <= magnitude2 (categoryActivities st) + countMagnitude rs.
Proof.
  induction rs as [|r rs IH]; intros st Hm Hg Hc; cbn [fold_left map].
  - change (sliceMagnitude []) with 0. change (countMagnitude []) with 0.
    repeat split; lia.
  - rewrite sliceMagnitude_cons in Hm, Hg |- *.
    rewrite countMagnitude_cons in Hc |- *.
    pose proof (sliceMagnitude_nonneg rs).
    pose proof (countMagnitude_nonneg rs).
    destruct (mergeOne_numbers st r) as (E & Hm1 & Hg1 & Hc1); [lia..|].
    rewrite E.
    destruct (IH (mergeOne st r)) as (E2 & Hm2 & Hg2 & Hc2); [lia..|].
    split; [exact E2|]. repeat split; lia.
Qed.

(** ** The sort of the integers and the sort of their numbers *)

Section SortMap.
Context {A B : Type} (f : A -> B).
Context (after : A -> A -> bool) (after' : B -> B -> bool).

Lemma sort_insert_map x s :
  (forall y, In y s -> after' (f x) (f y) = after x y) ->
  sort_insert after' (f x) (map f s) = map f (sort_insert after x s).
Proof.
  induction s as [|y s IH]; intros H; simpl; [reflexivity|].
  rewrite (H y) by now left.
  destruct (after x y); simpl; [|reflexivity].
  rewrite IH; [reflexivity|]. intros z Hz. apply H. now right.
Qed.

Lemma js_sort_map l :
  (forall x y, In x l -> In y l -> after' (f x) (f y) = after x y) ->
  js_sort after' (map f l) = map f (js_sort after l).
Proof.
  induction l as [|x l IH]; intros H; simpl; [reflexivity|].
  rewrite IH by (intros y z Hy Hz; apply H; now right).
  apply sort_insert_map. intros y Hy. apply H; [now left|right].
  apply (Permutation_in _ (Permutation_sym (js_sort_perm after l)) Hy).
Qed.

End SortMap.

Lemma abs_In_bound {A : Type} (f : A -> Z) (l : list A) x :
  In x l -> Z.abs (f x) <= zsum (map (fun x => Z.abs (f x)) l).
Proof.
  induction l as [|z l IH]; intros Hx; [destruct Hx|]. cbn.
  fold (zsum (map (fun x => Z.abs (f x)) l)).
  pose proof (zsum_abs_nonneg f l).
  destruct Hx as [<-|Hx]; [lia|]. specialize (IH Hx). lia.
Qed.

Lemma abs_diff_bound {A : Type} (f : A -> Z) (l : list A) x y :
  In x l -> In y l ->
  Z.abs (f y - f x) <= zsum (map (fun x => Z.abs (f x)) l).
Proof.
  induction l as [|z l IH]; intros Hx Hy; [destruct Hx|]. cbn.
  fold (zsum (map (fun x => Z.abs (f x)) l)).
  pose proof (zsum_abs_nonneg f l).
  destruct Hx as [<-|Hx], Hy as [<-|Hy].
  - lia.
  - pose proof (abs_In_bound f l y Hy). lia.
  - pose proof (abs_In_bound f l x Hx). lia.
  - specialize (IH Hx Hy). lia.
Qed.

Lemma byCountDesc_numbers a b :
  Z.abs (count a) <= MAX_SAFE_INTEGER ->
  Z.abs (count b) <= MAX_SAFE_INTEGER ->
  Z.abs (count b - count a) <= MAX_SAFE_INTEGER ->
  Float64.byCountDesc (activityNumber a) (activityNumber b)
  = byCountDesc a b.
Proof.
  intros Ha Hb Hab. unfold Float64.byCountDesc, byCountDesc.
  cbn [Float64.count activityNumber].
  rewrite sub_exact by (apply safe_below; assumption).
  apply ltb_zero_ofInteger, safe_below, Hab.
Qed.

Lemma activities_magnitude (am : JSMap.t Z) :
  zsum (map (fun x => Z.abs (count x))
          (map (fun p => {| activity := fst p; count := snd p |}) am))
  = magnitude am.
Proof. rewrite map_map. reflexivity. Qed.

Lemma buildDetail_numbers c am :
  magnitude am <= MAX_SAFE_INTEGER ->
  Float64.buildDetail (c, mapValues Float64.ofInteger am)
  = detailNumbers (buildDetail (c, am)).
Proof.
  intros Hm. unfold Float64.buildDetail, buildDetail, detailNumbers.
  cbn [fst snd category activities]. f_equal.
  unfold JSMap.entries, mapValues. rewrite map_map. cbn [fst snd].
  set (l := map (fun p => {| activity := fst p; count := snd p |}) am).
  assert (El : map (fun x : jsstring * Z =>
                      {| Float64.activity := fst x;
                         Float64.count := Float64.ofInteger (snd x) |}) am
               = map activityNumber l).
  { unfold l. rewrite map_map. reflexivity. }
  rewrite El. apply js_sort_map. intros x y Hx Hy.
  pose proof (activities_magnitude am) as Hl. fold l in Hl.
  pose proof (abs_In_bound count l x Hx).
  pose proof (abs_In_bound count l y Hy).
  pose proof (abs_diff_bound count l x y Hx Hy).
  apply byCountDesc_numbers; lia.
Qed.

Lemma activityMagnitude_buildDetail c am :
  activityMagnitude (buildDetail (c, am)) = magnitude am.
Proof.
  unfold activityMagnitude, buildDetail. cbn [activities fst snd].
  rewrite <- (activities_magnitude am). symmetry.
  apply zsum_perm, Permutation_map, js_sort_perm.
Qed.

(** ** The merged report in binary64 *)

Lemma mergeReportData_state rs :
  safeIntegers rs ->
  let st := fold_left mergeOne rs
              {| categoryTotals := []; categoryActivities := [];
                 grandTotal := 0 |} in
  fold_left Float64.mergeOne (map asNumbers rs)
    {| Float64.categoryTotals := []; Float64.categoryActivities := [];
       Float64.grandTotal := 0%float |}
  = stateNumbers st /\
  magnitude (categoryTotals st) <= sliceMagnitude rs /\
  Z.abs (grandTotal st) <= sliceMagnitude rs /\
  magnitude2 (categoryActivities st) <= countMagnitude rs /\
  grandTotal st = grandTotalOf rs.
Proof.
  intros (Hs & Hc).
  set (st0 := {| categoryTotals := []; categoryActivities := [];
                 grandTotal := 0 |}).
  destruct (mergeOne_fold_numbers rs st0) as (E & Hm & Hg & Hc2).
  - change (0 + sliceMagnitude rs <= MAX_SAFE_INTEGER). lia.
  - change (0 + sliceMagnitude rs <= MAX_SAFE_INTEGER). lia.
  - change (0 + countMagnitude rs <= MAX_SAFE_INTEGER). lia.
  - cbv zeta in E, Hm, Hg, Hc2 |- *.
    split; [exact E|].
    destruct (mergeOne_fold_totals rs st0) as (Hgt & _). cbv zeta in Hgt.
    change (magnitude (categoryTotals st0)) with 0 in Hm.
    change (Z.abs (grandTotal st0)) with 0 in Hg.
    change (magnitude2 (categoryActivities st0)) with 0 in Hc2.
    change (grandTotal st0) with 0 in Hgt.
    repeat split; lia.
Qed.

(** The merge of the numbers of safe integers is the merge of the
    integers, with the percentages computed from its slices and the grand
    total. *)
Lemma mergeReportData_numbers rs :
  safeIntegers rs ->
  Float64.mergeReportData (map asNumbers rs)
  = mergedNumbers (grandTotalOf rs) (mergeReportData rs).
Proof.
  intros Hsafe.
  destruct (mergeReportData_state rs Hsafe) as (E & Hm & Hg & Hc & Hgt).
  cbv zeta in E, Hm, Hg, Hc, Hgt.
  unfold Float64.mergeReportData, mergeReportData, mergedNumbers.
  rewrite E.
  set (st := fold_left mergeOne rs _) in *.
  cbn [stateNumbers Float64.categoryTotals Float64.categoryActivities
       Float64.grandTotal pieChart quickReport detailedReport].
  unfold JSMap.entries, mapValues. rewrite !map_map. cbn [fst snd name value].
  rewrite Hgt. f_equal.
  apply map_ext_in. intros (c & am) Hin. cbn [fst snd].
  apply (buildDetail_numbers c am).
  pose proof (weight_In magnitude magnitude_nonneg _ _ Hin) as Hw.
  fold (magnitude2 (categoryActivities st)) in Hw. cbn [snd] in Hw.
  destruct Hsafe as (_ & Hcs). lia.
Qed.

(** The merged report is within the safe integers when the inputs
    are. *)
Lemma mergeReportData_safe rs :
  safeIntegers rs ->
  safeIntegers [mergeReportData rs] /\
  Z.abs (grandTotalOf rs) <= MAX_SAFE_INTEGER.
Proof.
  intros Hsafe.
  destruct (mergeReportData_state rs Hsafe) as (_ & Hm & Hg & Hc & Hgt).
  cbv zeta in Hm, Hg, Hc, Hgt. destruct Hsafe as (Hs & Hcs).
  split; [split|].
  - rewrite sliceMagnitude_cons. change (sliceMagnitude []) with 0.
    unfold slicesMagnitude, mergeReportData. cbn [pieChart].
    unfold JSMap.entries. rewrite map_map. cbn [value snd].
    fold (weight Z.abs (categoryTotals (fold_left mergeOne rs
            {| categoryTotals := []; categoryActivities := [];
               grandTotal := 0 |}))).
    unfold magnitude in Hm. lia.
  - rewrite countMagnitude_cons. change (countMagnitude []) with 0.
    unfold countsMagnitude, mergeReportData. cbn [detailedReport].
    unfold JSMap.entries. rewrite map_map.
    rewrite (map_ext _ (fun e => magnitude (snd e))).
    + fold (weight magnitude (categoryActivities (fold_left mergeOne rs
              {| categoryTotals := []; categoryActivities := [];
                 grandTotal := 0 |}))).
      unfold magnitude2 in Hc. lia.
    + intros (c & am). apply activityMagnitude_buildDetail.
  - rewrite <- Hgt. lia.
Qed.

(** ** What the merged report holds, read as integers *)

Lemma zsum_app l l' : zsum (l ++ l') = zsum l + zsum l'.
Proof. induction l as [|x l IH]; simpl; lia. Qed.

Lemma zsum_In_bound {A : Type} (f : A -> Z) (l : list A) x :
  (forall y, 0 <= f y) -> In x l -> f x <= zsum (map f l).
Proof.
  intros Hf. induction l as [|z l IH]; intros Hx; [destruct Hx|]. cbn.
  fold (zsum (map f l)).
  assert (H0 : 0 <= zsum (map f l)).
  { clear -Hf. induction l as [|y l IH]; cbn; [lia|].
    fold (zsum (map f l)). specialize (Hf y). lia. }
  destruct Hx as [<-|Hx]; [lia|]. specialize (IH Hx). specialize (Hf z). lia.
Qed.

Lemma exactSum_numbers (l : list Z) :
  zsum (map Z.abs l) <= MAX_SAFE_INTEGER ->
  Float64.exactSum (map Float64.ofInteger l) = Some (zsum l).
Proof.
  induction l as [|z l IH]; intros H; [reflexivity|].
  cbn [map Float64.exactSum]. cbn [map zsum fold_right] in H.
  fold (zsum (map Z.abs l)) in H.
  assert (H0 : 0 <= zsum (map Z.abs l))
    by exact (zsum_abs_nonneg (fun x => x) l).
  rewrite toInteger_ofInteger by (apply safe_below; lia).
  rewrite IH by lia. reflexivity.
Qed.

Lemma input_values rs :
  map Float64.value (flat_map Float64.pieChart (map asNumbers rs))
  = map Float64.ofInteger (flat_map (fun r => map value (pieChart r)) rs).
Proof.
  induction rs as [|r rs IH]; [reflexivity|].
  cbn [map flat_map]. rewrite !map_app, IH. f_equal.
  cbn [asNumbers Float64.pieChart]. rewrite !map_map. reflexivity.
Qed.

Lemma input_values_total rs :
  zsum (flat_map (fun r => map value (pieChart r)) rs) = grandTotalOf rs /\
  zsum (map Z.abs (flat_map (fun r => map value (pieChart r)) rs))
  = sliceMagnitude rs.
Proof.
  induction rs as [|r rs (IH1 & IH2)]; [split; reflexivity|].
  cbn [flat_map]. rewrite map_app, !zsum_app, IH1, IH2, map_map.
  split; reflexivity.
Qed.

Lemma count_bound r d x :
  In d (detailedReport r) -> In x (activities d) ->
  Z.abs (count x) <= countsMagnitude r.
Proof.
  intros Hd Hx.
  pose proof (abs_In_bound count (activities d) x Hx) as H1.
  assert (H2 : activityMagnitude d <= countsMagnitude r).
  { apply (zsum_In_bound activityMagnitude); [|exact Hd].
    intros y. apply (zsum_abs_nonneg count). }
  unfold activityMagnitude in H2. lia.
Qed.

Lemma countDescending_numbers l :
  Forall (fun x => Z.abs (count x) <= MAX_SAFE_INTEGER) l ->
  countDescending l -> countDescendingNumbers (map activityNumber l).
Proof.
  intros Hb Hs. induction Hs as [|x l Hs IH Hall]; [constructor|].
  inversion Hb as [|? ? Hx Hl]; subst.
  cbn [map]. constructor; [now apply IH|].
  apply Forall_map. rewrite Forall_forall in *. intros y Hy.
  cbn [Float64.count activityNumber].
  rewrite leb_ofInteger by (apply safe_below; auto).
  apply Z.leb_le. now apply Hall.
Qed.

(** The counts of a merged report of safe integers are safe integers. *)
Lemma merged_counts_safe rs d x :
  safeIntegers rs ->
  In d (detailedReport (mergeReportData rs)) -> In x (activities d) ->
  Z.abs (count x) <= MAX_SAFE_INTEGER.
Proof.
  intros Hsafe Hd Hx.
  destruct (mergeReportData_safe rs Hsafe) as ((_ & Hc) & _).
  rewrite countMagnitude_cons in Hc. change (countMagnitude []) with 0 in Hc.
  pose proof (count_bound _ _ _ Hd Hx). lia.
Qed.

(** The values of the slices of a merged report of safe integers are safe
    integers. *)
Lemma merged_values_safe rs s :
  safeIntegers rs ->
  In s (pieChart (mergeReportData rs)) ->
  Z.abs (value s) <= MAX_SAFE_INTEGER.
Proof.
  intros Hsafe Hs.
  destruct (mergeReportData_safe rs Hsafe) as ((Hv & _) & _).
  rewrite sliceMagnitude_cons in Hv. change (sliceMagnitude []) with 0 in Hv.
  pose proof (abs_In_bound value _ s Hs) as H. unfold slicesMagnitude in Hv.
  lia.
Qed.

(** C1, within the safe integers. For every list of inputs whose slice
    values and activity counts are integers whose magnitudes add up to the
    greatest safe integer at most, the merge of the code, in binary64,
    returns slices whose values are integers that add up to the grand
    total of the inputs' slice values, which is what the values of the
    inputs' slices add up to; every (category, activity) pair of the
    inputs' detailed reports is found exactly once in the output, under
    the one entry of its category, and its count there is the sum of its
    counts across all inputs; and each output category lists its
    activities by descending count. *)
Theorem mergeReportData_conservation (rs : list ReportData) :
  safeIntegers rs ->
  let out := Float64.mergeReportData (map asNumbers rs) in
  Float64.exactSum (map Float64.value (Float64.pieChart out))
    = Some (grandTotalOf rs) /\
  Float64.exactSum
    (map Float64.value (flat_map Float64.pieChart (map asNumbers rs)))
    = Some (grandTotalOf rs) /\
  (forall c a, appearsIn c a rs ->
     exists d x,
       List.filter (fun d => str_eqb (Float64.category d) c)
         (Float64.detailedReport out) = [d] /\
       List.filter (fun x => str_eqb (Float64.activity x) a)
         (Float64.activities d) = [x] /\
       Float64.toInteger (Float64.count x) = Some (activityTotal c a rs)) /\
  Forall (fun d => countDescendingNumbers (Float64.activities d))
    (Float64.detailedReport out).
Proof.
  intros Hsafe out. unfold out.
  rewrite (mergeReportData_numbers rs Hsafe).
  destruct (mergeReportData_safe rs Hsafe) as ((Hv & _) & _).
  destruct (merge_of_integers_conserves rs) as (Hsum & Hd & Hsorted).
  cbn [mergedNumbers Float64.pieChart Float64.detailedReport].
  split; [|split; [|split]].
  - rewrite map_map. cbn [Float64.value sliceNumber].
    rewrite <- (map_map value Float64.ofInteger), exactSum_numbers.
    + f_equal. exact Hsum.
    + rewrite map_map. rewrite sliceMagnitude_cons in Hv.
      change (sliceMagnitude []) with 0 in Hv. unfold slicesMagnitude in Hv.
      lia.
  - rewrite input_values. destruct (input_values_total rs) as (Ht & Hm).
    rewrite exactSum_numbers; [now rewrite Ht|].
    rewrite Hm. exact (proj1 Hsafe).
  - intros c a Happ. destruct (Hd c a Happ) as (d & Ed & Ex).
    exists (detailNumbers d),
      (activityNumber {| activity := a; count := activityTotal c a rs |}).
    split; [|split].
    + rewrite filter_map_comm. cbn [Float64.category detailNumbers].
      now rewrite Ed.
    + cbn [Float64.activities detailNumbers]. rewrite filter_map_comm.
      cbn [Float64.activity activityNumber]. now rewrite Ex.
    + cbn [Float64.count activityNumber count].
      apply toInteger_ofInteger, safe_below.
      assert (Hin : In d (detailedReport (mergeReportData rs))).
      { apply (proj1 (filter_In (fun d => str_eqb (category d) c) d _)).
        rewrite Ed. now left. }
      assert (Hix : In {| activity := a; count := activityTotal c a rs |}
                      (activities d)).
      { apply (proj1 (filter_In (fun x => str_eqb (activity x) a) _ _)).
        rewrite Ex. now left. }
      exact (merged_counts_safe rs d _ Hsafe Hin Hix).
  - apply Forall_map. rewrite Forall_forall in *. intros d Hin.
    cbn [Float64.activities detailNumbers].
    apply countDescending_numbers; [|now apply Hsorted].
    apply Forall_forall. intros x Hx.
    exact (merged_counts_safe rs d x Hsafe Hin Hx).
Qed.

(** C1, as the specification words it, does not hold beyond the safe
    integers, where the additions of the code round. Two slices of one
    category with the values 2^53 and 1 are merged into one slice of the
    value 2^53, and two counts 2^53 and 1 of one activity into the count
    2^53, while the values of the inputs add up to 2^53 + 1. *)
Lemma conservation_fails_beyond_safe_integers :
  ~ conservationAsClaimed /\
  ~ safeIntegers [beyondSafeIntegers] /\
  (let out := Float64.mergeReportData [asNumbers beyondSafeIntegers] in
   Float64.pieChart out =
     [{| Float64.name := js "Work";
         Float64.value := 9007199254740992%float |}] /\
   Float64.detailedReport out =
     [{| Float64.category := js "Work";
         Float64.activities :=
           [{| Float64.activity := js "coding";
               Float64.count := 9007199254740992%float |}] |}] /\
   Float64.exactSum
     (map Float64.value
        (flat_map Float64.pieChart [asNumbers beyondSafeIntegers]))
   = Some (2 ^ 53 + 1)).
Proof.
  split; [|split].
  - intros H. specialize (H [asNumbers beyondSafeIntegers]).
    vm_compute in H. discriminate H.
  - intros (H & _). vm_compute in H. now apply H.
  - repeat split; vm_compute; reflexivity.
Qed.

(** The merge at the edge of the safe integers: slices of one category
    that add up to the greatest safe integer. *)
Example merge_at_the_greatest_safe_integer :
  safeIntegers [atSafeBoundary] /\
  map Float64.value
    (Float64.pieChart (Float64.mergeReportData [asNumbers atSafeBoundary]))
  = [9007199254740991%float].
Proof.
  split; [split; vm_compute; discriminate|]. vm_compute. reflexivity.
Qed.

(** The percentage of 7 activities out of 25, as the code computes it. *)
Example percent_in_binary64 :
  map Float64.QuickReportData.percent
    (Float64.quickReport
       (Float64.mergeReportData [asNumbers sevenOfTwentyFive]))
  = [28.000000000000004%float; 72%float].
Proof. vm_compute. reflexivity. Qed.

(** ** The key order *)

Lemma str_ltb_irrefl a : str_ltb a a = false.
Proof.
  induction a as [|x a IH]; simpl; [reflexivity|].
  now rewrite N.ltb_irrefl, N.eqb_refl.
Qed.

Lemma str_ltb_trans a : forall b c,
  str_ltb a b = true -> str_ltb b c = true -> str_ltb a c = true.
Proof.
  induction a as [|x a IH]; intros [|y b] [|z c]; simpl; try congruence.
  destruct (N.ltb_spec x y), (N.eqb_spec x y), (N.ltb_spec y z),
    (N.eqb_spec y z), (N.ltb_spec x z), (N.eqb_spec x z);
    try congruence; try lia; eauto.
Qed.

(** Two keys are equal or one is below the other. *)
Lemma str_ltb_total a : forall b,
  str_ltb a b = false -> str_eqb b a = false -> str_ltb b a = true.
Proof.
  induction a as [|x a IH]; intros [|y b]; simpl; try congruence.
  destruct (N.ltb_spec x y), (N.eqb_spec x y), (N.ltb_spec y x),
    (N.eqb_spec y x); simpl; try congruence; try lia; eauto.
Qed.

Lemma filter_sortedStore {R : Type} (keyOf : R -> jsstring) f (s : list R) :
  sortedStore keyOf s -> sortedStore keyOf (List.filter f s).
Proof.
  unfold sortedStore. induction 1 as [|r s Hs IH Hall]; simpl.
  - constructor.
  - destruct (f r); [|assumption]. constructor; [assumption|].
    apply Forall_forall. intros x Hx. apply filter_In in Hx.
    rewrite Forall_forall in Hall. now apply Hall.
Qed.

(** ** The engine: reads and writes of one store *)

Section EngineFacts.
Context {R : Type} (keyOf : R -> jsstring).
Implicit Types (s : IndexedDB.Store R) (r item : R) (k key : jsstring).

Lemma lookup_None s k :
  IndexedDB.lookup keyOf s k = None <-> ~ hasKey keyOf s k.
Proof.
  unfold hasKey. induction s as [|r s IH]; simpl; [tauto|].
  destruct (str_eqb_spec (keyOf r) k) as [E|E].
  - split; [discriminate | tauto].
  - rewrite IH. tauto.
Qed.

Lemma lookup_insert_same s item :
  IndexedDB.lookup keyOf (IndexedDB.insert keyOf item s) (keyOf item)
  = Some item.
Proof.
  induction s as [|r s IH]; simpl.
  - now rewrite str_eqb_refl.
  - destruct (str_ltb (keyOf item) (keyOf r)) eqn:Hlt; simpl.
    + now rewrite str_eqb_refl.
    + destruct (str_eqb (keyOf r) (keyOf item)) eqn:Heq; simpl.
      * now rewrite str_eqb_refl.
      * now rewrite Heq.
Qed.

Lemma insert_fresh_perm s item :
  IndexedDB.lookup keyOf s (keyOf item) = None ->
  Permutation (IndexedDB.insert keyOf item s) (item :: s).
Proof.
  induction s as [|r s IH]; simpl; [reflexivity|].
  destruct (str_eqb (keyOf r) (keyOf item)) eqn:Heq; [discriminate|].
  intros Hnone. destruct (str_ltb (keyOf item) (keyOf r)); [reflexivity|].
  rewrite (IH Hnone). apply perm_swap.
Qed.

Lemma insert_keys s item k :
  hasKey keyOf (IndexedDB.insert keyOf item s) k <->
  k = keyOf item \/ hasKey keyOf s k.
Proof.
  unfold hasKey. induction s as [|r s IH]; simpl.
  - intuition congruence.
  - destruct (str_ltb (keyOf item) (keyOf r)); simpl; [intuition congruence|].
    destruct (str_eqb_spec (keyOf r) (keyOf item)) as [E|E]; simpl.
    + rewrite E. intuition congruence.
    + rewrite IH. intuition congruence.
Qed.

Lemma insert_sorted s item :
  sortedStore keyOf s -> sortedStore keyOf (IndexedDB.insert keyOf item s).
Proof.
  unfold sortedStore. induction 1 as [|r s Hs IH Hall]; simpl.
  - repeat constructor.
  - destruct (str_ltb (keyOf item) (keyOf r)) eqn:Hlt.
    + constructor; [now constructor|]. constructor; [assumption|].
      eapply Forall_impl; [|exact Hall]. intros x Hx.
      eapply str_ltb_trans; eauto.
    + destruct (str_eqb_spec (keyOf r) (keyOf item)) as [E|E].
      * constructor; [assumption|]. now rewrite <- E.
      * constructor; [assumption|].
        apply Forall_forall. intros x Hx.
        assert (Hk : hasKey keyOf (IndexedDB.insert keyOf item s) (keyOf x))
          by (apply in_map, Hx).
        apply insert_keys in Hk. destruct Hk as [Hk|Hk].
        -- rewrite Hk. apply str_ltb_total; [assumption|].
           apply str_eqb_neq. congruence.
        -- unfold hasKey in Hk. apply in_map_iff in Hk.
           destruct Hk as (y & Hy & Hin). rewrite <- Hy.
           rewrite Forall_forall in Hall. now apply Hall.
Qed.

(** Every write of the engine keeps the store in key order. *)
Lemma writes_keep_order s item key items :
  sortedStore keyOf s ->
  sortedStore keyOf (snd (IndexedDB.add keyOf item s)) /\
  sortedStore keyOf (snd (IndexedDB.put keyOf item s)) /\
  sortedStore keyOf (snd (IndexedDB.delete keyOf key s)) /\
  sortedStore keyOf (snd (IndexedDB.clear s)) /\
  sortedStore keyOf (snd (IndexedDB.addMultiple keyOf items s)).
Proof.
  intros Hs. unfold IndexedDB.add, IndexedDB.put, IndexedDB.delete,
    IndexedDB.clear, IndexedDB.addMultiple, IndexedDB.remove.
  repeat split; simpl.
  - destruct (IndexedDB.lookup keyOf s (keyOf item)); simpl;
      auto using insert_sorted.
  - now apply insert_sorted.
  - now apply filter_sortedStore.
  - constructor.
  - destruct (IndexedDB.addAll keyOf items s) as [s'|] eqn:E; simpl;
      [|assumption].
    revert s s' Hs E. induction items as [|x items IH]; intros s s' Hs; simpl.
    + now intros [= <-].
    + destruct (IndexedDB.lookup keyOf s (keyOf x)); [discriminate|].
      apply IH. now apply insert_sorted.
Qed.

(** C9. A record whose key is not yet in the store, added and then read
    back by its key, is returned as it was added. *)
Theorem add_then_get_roundtrip s r :
  ~ hasKey keyOf s (keyOf r) ->
  exists s',
    IndexedDB.add keyOf r s = (Resolved (keyOf r), s') /\
    (key <- IndexedDB.add keyOf r ;; IndexedDB.get keyOf key)%op s
      = (Resolved (Some r), s').
Proof.
  intros Hfresh. apply lookup_None in Hfresh.
  exists (IndexedDB.insert keyOf r s).
  unfold bind, IndexedDB.add, IndexedDB.get. rewrite Hfresh.
  now rewrite lookup_insert_same.
Qed.

(** C7. [update] rejects exactly when the store holds no record with the
    key, then with the not-found error and the store unchanged; when the
    record exists, [updateFn] applied to it is written by [put] and is the
    value resolved. *)
Theorem update_rejects_iff_absent s key (updateFn : R -> R) :
  ((exists e s', IndexedDB.update keyOf key updateFn s = (Rejected e, s'))
     <-> ~ hasKey keyOf s key) /\
  (~ hasKey keyOf s key ->
     IndexedDB.update keyOf key updateFn s = (Rejected (NotFoundError key), s)) /\
  (forall cur, IndexedDB.lookup keyOf s key = Some cur ->
     IndexedDB.get keyOf key s = (Resolved (Some cur), s) /\
     IndexedDB.update keyOf key updateFn s =
       (Resolved (updateFn cur), snd (IndexedDB.put keyOf (updateFn cur) s)) /\
     IndexedDB.lookup keyOf (snd (IndexedDB.update keyOf key updateFn s))
       (keyOf (updateFn cur)) = Some (updateFn cur)).
Proof.
  unfold IndexedDB.update, catch, bind, IndexedDB.get, IndexedDB.put, reject,
    ret.
  repeat split.
  - intros (e & s' & H). apply lookup_None.
    destruct (IndexedDB.lookup keyOf s key); [discriminate | reflexivity].
  - intros H. apply lookup_None in H. rewrite H. eauto.
  - intros H. apply lookup_None in H. now rewrite H.
  - now rewrite H.
  - now rewrite H.
  - rewrite H. simpl. apply lookup_insert_same.
Qed.

End EngineFacts.

(** ** Ranges and cursor scans *)

(** On keys free of the sentinel unit, the prefix range selects exactly the
    keys that start with the prefix. *)
Lemma inRange_prefix p : forall k,
  belowMaxChar k = true ->
  inRange (createRange.prefix p) k = startsWith k p.
Proof.
  unfold inRange, createRange.prefix, str_leb, MAX_CHAR; simpl.
  induction p as [|x p IH]; intros [|y k] Hk; simpl in *; try reflexivity.
  - apply andb_prop in Hk. destruct Hk as [Hy _]. now rewrite Hy.
  - apply andb_prop in Hk. destruct Hk as [_ Hk]. specialize (IH k Hk).
    rewrite (N.eqb_sym x y).
    destruct (N.ltb_spec y x), (N.eqb_spec y x); simpl; try lia; auto.
Qed.

(** A key that continues the prefix with the sentinel unit itself starts
    with the prefix and lies outside the range. *)
Example prefix_range_excludes_sentinel :
  startsWith (js "2024-" ++ MAX_CHAR) (js "2024-") = true /\
  inRange (createRange.prefix (js "2024-")) (js "2024-" ++ MAX_CHAR) = false.
Proof. split; reflexivity. Qed.

Lemma isDigit_below c : isDigit c = true -> (c <? 0xffff)%N = true.
Proof.
  unfold isDigit. intros H. apply andb_prop in H. destruct H as [_ H].
  apply N.leb_le in H. apply N.ltb_lt. lia.
Qed.

Lemma hyphen_below c : (c =? 45)%N = true -> (c <? 0xffff)%N = true.
Proof. intros H. apply N.eqb_eq in H. now subst c. Qed.

Lemma wellFormedId_belowMaxChar s :
  wellFormedId s = true -> belowMaxChar s = true.
Proof.
  unfold wellFormedId.
  do 10 (destruct s as [|? s]; try discriminate).
  destruct s; [|discriminate]. intros H.
  repeat match type of H with
         | (_ && _) = true =>
             let H' := fresh in apply andb_prop in H; destruct H as [H H']
         end.
  unfold belowMaxChar. cbn [forallb].
  repeat (apply andb_true_intro; split);
    auto using isDigit_below, hyphen_below.
Qed.

Section SearchFacts.
Context {R : Type} (keyOf : R -> jsstring).

Lemma cursorLoop_rangeOnly rg (cursor : list R) : forall results,
  IndexedDB.cursorLoop (IndexedDB.rangeOnly rg) cursor results
  = results ++ cursor.
Proof.
  induction cursor as [|x cursor IH]; intros results; simpl.
  - now rewrite app_nil_r.
  - rewrite IH, <- app_assoc. reflexivity.
Qed.

(** A scan with nothing but a range returns the records of the range, in
    store order, and leaves the store as it is. *)
Lemma search_rangeOnly rg (s : IndexedDB.Store R) :
  IndexedDB.search keyOf (IndexedDB.rangeOnly rg) s
  = (Resolved (List.filter (fun x => inRange rg (keyOf x)) s), s).
Proof.
  unfold IndexedDB.search. simpl. now rewrite cursorLoop_rangeOnly.
Qed.

End SearchFacts.

(** ** The repository: month and year scans *)

Section ReportFacts.
Import ReportDatabase.

Lemma onDaily_search rg db :
  onDaily (IndexedDB.search DailyReport.id (IndexedDB.rangeOnly rg)) db
  = (Resolved
       (List.filter (fun r => inRange rg (DailyReport.id r)) (dailyReports db)),
     db).
Proof.
  unfold onDaily. rewrite search_rangeOnly. now destruct db.
Qed.

Lemma prefix_scan p (s : list DailyReport.t) :
  Forall (fun r => belowMaxChar (DailyReport.id r) = true) s ->
  List.filter (fun r => inRange (createRange.prefix p) (DailyReport.id r)) s
  = List.filter (fun r => startsWith (DailyReport.id r) p) s.
Proof.
  intros Hid. apply filter_ext_in. intros r Hr.
  rewrite Forall_forall in Hid. apply inRange_prefix, Hid, Hr.
Qed.

Lemma wellFormed_ids_belowMaxChar (s : list DailyReport.t) :
  Forall (fun r => wellFormedId (DailyReport.id r) = true) s ->
  Forall (fun r => belowMaxChar (DailyReport.id r) = true) s.
Proof.
  apply Forall_impl. intros r. apply wellFormedId_belowMaxChar.
Qed.

(** C5. On a store of daily reports with well-formed ids,
    [getDailyReportsByMonth] scans the primary key from the prefix
    [yearMonth + "-"] (included) to the prefix followed by the sentinel
    unit (excluded), and returns exactly the reports whose id starts with
    the prefix, in ascending id order. *)
Theorem getDailyReportsByMonth_prefix db (yearMonth : jsstring) :
  sortedStore DailyReport.id (dailyReports db) ->
  Forall (fun r => wellFormedId (DailyReport.id r) = true) (dailyReports db) ->
  getDailyReportsByMonth yearMonth =
    onDaily (IndexedDB.search DailyReport.id
      (IndexedDB.rangeOnly
         {| lower := Some (yearMonth ++ js "-"); lowerOpen := false;
            upper := Some ((yearMonth ++ js "-") ++ [0xffff%N]);
            upperOpen := true |})) /\
  exists rs,
    getDailyReportsByMonth yearMonth db = (Resolved rs, db) /\
    rs = List.filter
           (fun r => startsWith (DailyReport.id r) (yearMonth ++ js "-"))
           (dailyReports db) /\
    (forall r, In r rs <->
       In r (dailyReports db) /\
       startsWith (DailyReport.id r) (yearMonth ++ js "-") = true) /\
    sortedStore DailyReport.id rs.
Proof.
  intros Hsorted Hwf. split; [reflexivity|].
  unfold getDailyReportsByMonth. rewrite onDaily_search.
  rewrite (prefix_scan _ _ (wellFormed_ids_belowMaxChar _ Hwf)).
  eexists. split; [reflexivity|]. split; [reflexivity|]. split.
  - intros r. apply filter_In.
  - now apply filter_sortedStore.
Qed.

Lemma filter_nil_iff {A : Type} (f : A -> bool) (l : list A) :
  List.filter f l = [] <-> ~ exists x, In x l /\ f x = true.
Proof.
  split.
  - intros E (x & Hx & Hf).
    assert (Hin : In x (List.filter f l)) by (apply filter_In; auto).
    now rewrite E in Hin.
  - intros Hno. destruct (List.filter f l) as [|x l'] eqn:E; [reflexivity|].
    exfalso. apply Hno. exists x. apply filter_In. rewrite E. now left.
Qed.

Lemma generateYearlyReport_run db (year : jsstring) :
  Forall (fun r => belowMaxChar (DailyReport.id r) = true) (dailyReports db) ->
  generateYearlyReport year db =
  match List.filter (fun r => startsWith (DailyReport.id r) (year ++ js "-"))
          (dailyReports db) with
  | [] => (Rejected (NoDailyReports year), db)
  | r :: l =>
      (Resolved
         {| YearlyReport.id := year;
            YearlyReport.year := year;
            YearlyReport.title := js "Annual Report " ++ year;
            YearlyReport.data :=
              mergeReportData (map DailyReport.data (r :: l)) |}, db)
  end.
Proof.
  intros Hwf. unfold generateYearlyReport, getDailyReportsByYear, bind.
  rewrite onDaily_search, (prefix_scan _ _ Hwf).
  now destruct (List.filter _ (dailyReports db)).
Qed.

(** C2. On daily reports whose ids are free of the sentinel unit of the
    prefix range, as every id of the format [YYYY-MM-DD] is,
    [generateYearlyReport] rejects exactly when no daily report has an id
    starting with [year + "-"], then with its own error; otherwise it
    resolves with the yearly report of id and year [year], titled
    ["Annual Report " + year], holding the merge of those reports' data.
    Either way both stores are left as they were. *)
Theorem generateYearlyReport_outcome db (year : jsstring) :
  Forall (fun r => belowMaxChar (DailyReport.id r) = true) (dailyReports db) ->
  let matching :=
    List.filter (fun r => startsWith (DailyReport.id r) (year ++ js "-"))
      (dailyReports db) in
  ((exists e db', generateYearlyReport year db = (Rejected e, db')) <->
   ~ exists r, In r (dailyReports db) /\
               startsWith (DailyReport.id r) (year ++ js "-") = true) /\
  (matching = [] ->
     generateYearlyReport year db = (Rejected (NoDailyReports year), db)) /\
  (matching <> [] ->
     generateYearlyReport year db =
       (Resolved
          {| YearlyReport.id := year;
             YearlyReport.year := year;
             YearlyReport.title := js "Annual Report " ++ year;
             YearlyReport.data :=
               mergeReportData (map DailyReport.data matching) |},
        db)).
Proof.
  intros Hwf matching.
  rewrite (generateYearlyReport_run _ _ Hwf). fold matching.
  pose proof (filter_nil_iff
    (fun r => startsWith (DailyReport.id r) (year ++ js "-"))
    (dailyReports db)) as Hnone.
  fold matching in Hnone. clearbody matching.
  repeat split.
  - intros (e & db' & H). apply Hnone.
    destruct matching; [reflexivity | discriminate].
  - intros H. apply Hnone in H. rewrite H. eauto.
  - now intros ->.
  - intros H. destruct matching; [congruence | reflexivity].
Qed.

End ReportFacts.

(** ** The repository: cleanup *)

Lemma splitHead_app sep (a rest : jsstring) :
  Forall (fun c => c <> sep) a -> splitHead sep (a ++ sep :: rest) = a.
Proof.
  induction 1 as [|c a Hc _ IH]; simpl.
  - now rewrite N.eqb_refl.
  - apply N.eqb_neq in Hc. now rewrite Hc, IH.
Qed.

Lemma digitsLoop_digits width : forall n acc,
  Forall (fun c => isDigit c = true) acc ->
  Forall (fun c => isDigit c = true) (digitsLoop width n acc).
Proof.
  induction width as [|w IH]; intros n acc Hacc; cbn [digitsLoop];
    [assumption|].
  apply IH. constructor; [|assumption].
  unfold isDigit.
  assert (Hm : (n mod 10 < 10)%N) by (apply N.mod_upper_bound; discriminate).
  revert Hm. generalize (n mod 10)%N as m. intros m Hm.
  apply andb_true_intro; split; apply N.leb_le; lia.
Qed.

Lemma digits_not_T l :
  Forall (fun c => isDigit c = true) l -> Forall (fun c => c <> 84%N) l.
Proof.
  apply Forall_impl. intros c Hc ->. discriminate.
Qed.

(** For a four-digit year, the boundary string of the cleanup is the
    date's [YYYY-MM-DD]. *)
Lemma splitHead_toISOString (d : Date) :
  0 <= utcFullYear d <= 9999 ->
  splitHead 84 (toISOString d) = yyyymmdd d.
Proof.
  intros [Hlo Hhi]. unfold toISOString.
  apply Z.leb_le in Hlo, Hhi. rewrite Hlo, Hhi. simpl andb. cbv iota.
  transitivity
    (splitHead 84
       (yyyymmdd d ++
        84%N :: (padded 2 (utcHours d) ++ js ":" ++ padded 2 (utcMinutes d)
                   ++ js ":" ++ padded 2 (utcSeconds d) ++ js "." ++
                   padded 3 (utcMilliseconds d) ++ js "Z"))).
  { unfold yyyymmdd. repeat rewrite <- app_assoc. reflexivity. }
  apply splitHead_app. unfold yyyymmdd.
  repeat (apply Forall_app; split);
    try (apply digits_not_T, digitsLoop_digits; constructor);
    repeat constructor; discriminate.
Qed.

Section CleanupFacts.
Import ReportDatabase.

Lemma filter_filter {A : Type} (f g : A -> bool) (l : list A) :
  List.filter g (List.filter f l) = List.filter (fun x => f x && g x) l.
Proof.
  induction l as [|x l IH]; simpl; [reflexivity|].
  destruct (f x); simpl; [destruct (g x)|]; now rewrite IH.
Qed.

Lemma filter_all {A : Type} (l : list A) :
  List.filter (fun _ => true) l = l.
Proof. induction l as [|x l IH]; simpl; now rewrite ?IH. Qed.

(** Deleting the reports of [olds] one by one removes the records whose id
    is the id of one of them. *)
Lemma delete_each (olds : list DailyReport.t) : forall db,
  promiseAll olds
    (fun report =>
       onDaily (IndexedDB.delete DailyReport.id (DailyReport.id report))) db
  = (Resolved tt,
     {| dailyReports :=
          List.filter
            (fun r => negb (existsb (fun o => str_eqb (DailyReport.id r)
                                                (DailyReport.id o)) olds))
            (dailyReports db);
        yearlyReports := yearlyReports db |}).
Proof.
  induction olds as [|o olds IH]; intros db; simpl.
  - unfold ret. rewrite filter_all. now destruct db.
  - unfold bind, onDaily at 1, IndexedDB.delete at 1. rewrite IH. simpl.
    unfold IndexedDB.remove. rewrite filter_filter.
    do 2 f_equal. apply filter_ext. intros r. now rewrite negb_orb.
Qed.

Lemma existsb_below (b : jsstring) (s : list DailyReport.t) r :
  In r s ->
  existsb (fun o => str_eqb (DailyReport.id r) (DailyReport.id o))
    (List.filter (fun x => str_ltb (DailyReport.id x) b) s)
  = str_ltb (DailyReport.id r) b.
Proof.
  intros Hr. destruct (str_ltb (DailyReport.id r) b) eqn:Hlt.
  - apply existsb_exists. exists r. split.
    + apply filter_In. auto.
    + apply str_eqb_refl.
  - destruct (existsb _ _) eqn:E; [|reflexivity].
    apply existsb_exists in E. destruct E as (o & Ho & Heq).
    apply filter_In in Ho. destruct Ho as [_ Ho].
    apply str_eqb_eq in Heq. congruence.
Qed.

Lemma cleanupOldReports_run db (olderThan : Date) :
  cleanupOldReports olderThan db =
  (Resolved tt,
   {| dailyReports :=
        List.filter
          (fun r => negb (str_ltb (DailyReport.id r)
                            (splitHead 84 (toISOString olderThan))))
          (dailyReports db);
      yearlyReports := yearlyReports db |}).
Proof.
  unfold cleanupOldReports, bind. rewrite onDaily_search, delete_each.
  do 2 f_equal. apply filter_ext_in. intros r Hr.
  f_equal. rewrite <- (existsb_below _ _ _ Hr). reflexivity.
Qed.

(** C6. [cleanupOldReports] removes from the daily store exactly the
    reports whose id is below the boundary string, keeps those whose id is
    the boundary or above it, and leaves the yearly store alone; for a
    four-digit year the boundary is the date's [YYYY-MM-DD]. For the date
    2024-02-01 a report 2024-01-31 goes and a report 2024-02-01 stays. *)
Theorem cleanupOldReports_boundary db (olderThan : Date) :
  let boundary := splitHead 84 (toISOString olderThan) in
  (0 <= utcFullYear olderThan <= 9999 -> boundary = yyyymmdd olderThan) /\
  (exists db',
     cleanupOldReports olderThan db = (Resolved tt, db') /\
     dailyReports db' =
       List.filter (fun r => negb (str_ltb (DailyReport.id r) boundary))
         (dailyReports db) /\
     (forall r, In r (dailyReports db) ->
        str_ltb (DailyReport.id r) boundary = true ->
        ~ In r (dailyReports db')) /\
     (forall r, In r (dailyReports db) ->
        str_ltb (DailyReport.id r) boundary = false ->
        In r (dailyReports db')) /\
     yearlyReports db' = yearlyReports db) /\
  (olderThan = {| utcFullYear := 2024; utcMonth := 2; utcDate := 1;
                  utcHours := 0; utcMinutes := 0; utcSeconds := 0;
                  utcMilliseconds := 0 |} ->
   forall r db', In r (dailyReports db) ->
     cleanupOldReports olderThan db = (Resolved tt, db') ->
     (DailyReport.id r = js "2024-01-31" -> ~ In r (dailyReports db')) /\
     (DailyReport.id r = js "2024-02-01" -> In r (dailyReports db'))).
Proof.
  intros boundary. split; [apply splitHead_toISOString|].
  rewrite cleanupOldReports_run. fold boundary. split.
  - eexists. split; [reflexivity|]. simpl. repeat split.
    + intros r _ Hlt Hin. apply filter_In in Hin.
      destruct Hin as [_ Hin]. now rewrite Hlt in Hin.
    + intros r Hin Hge. apply filter_In. now rewrite Hge.
  - intros -> r db' Hr [= <-]. simpl. split; intros Hid.
    + intros Hin. apply filter_In in Hin. destruct Hin as [_ Hin].
      unfold boundary in Hin. now rewrite Hid in Hin.
    + apply filter_In. split; [assumption|].
      unfold boundary. now rewrite Hid.
Qed.

End CleanupFacts.

(** ** The repository: import *)

Section BulkAddFacts.
Context {R : Type} (keyOf : R -> jsstring).

Lemma addAll_perm (items : list R) : forall s s',
  IndexedDB.addAll keyOf items s = Some s' -> Permutation s' (items ++ s).
Proof.
  induction items as [|item items IH]; intros s s'; simpl.
  - now intros [= ->].
  - destruct (IndexedDB.lookup keyOf s (keyOf item)) eqn:E; [discriminate|].
    intros H. rewrite (IH _ _ H), (insert_fresh_perm _ _ _ E).
    symmetry. apply Permutation_middle.
Qed.

Lemma addAll_sorted (items : list R) : forall s s',
  sortedStore keyOf s ->
  IndexedDB.addAll keyOf items s = Some s' -> sortedStore keyOf s'.
Proof.
  induction items as [|item items IH]; intros s s' Hs; simpl.
  - now intros [= <-].
  - destruct (IndexedDB.lookup keyOf s (keyOf item)); [discriminate|].
    apply IH. now apply insert_sorted.
Qed.

(** Records with pairwise distinct keys, none of them in the store, are
    all added. *)
Lemma addAll_succeeds (items : list R) : forall s,
  NoDup (map keyOf items) ->
  (forall k, In k (map keyOf items) -> ~ hasKey keyOf s k) ->
  exists s', IndexedDB.addAll keyOf items s = Some s'.
Proof.
  induction items as [|item items IH]; intros s Hnd Hfresh; simpl.
  - eauto.
  - inversion Hnd as [|? ? Hnotin Hnd']; subst.
    assert (E : IndexedDB.lookup keyOf s (keyOf item) = None).
    { apply lookup_None, Hfresh. now left. }
    rewrite E. apply IH; [assumption|].
    intros k Hk Hhas. apply insert_keys in Hhas. destruct Hhas as [->|Hhas].
    + contradiction.
    + apply (Hfresh k); [now right | assumption].
Qed.




End BulkAddFacts.

Section ImportFacts.
Import ReportDatabase.

(** The import is the replacement of the daily store followed, when that
    one succeeded, by the replacement of the yearly store. *)
Lemma importReports_run (data : ImportData) db :
  importReports data db =
  match replaceStore DailyReport.id (importDaily data) (dailyReports db) with
  | (Resolved _, d') =>
      let (o, y') :=
        replaceStore YearlyReport.id (importYearly data) (yearlyReports db) in
      (o, {| dailyReports := d'; yearlyReports := y' |})
  | (Rejected e, d') =>
      (Rejected e, {| dailyReports := d'; yearlyReports := yearlyReports db |})
  end.
Proof.
  unfold importReports, replaceStore, bind, onDaily, onYearly, ret,
    IndexedDB.clear, IndexedDB.addMultiple.
  destruct db as [d y]; simpl.
  destruct (present (importDaily data)) as [ds|]; simpl.
  - destruct (IndexedDB.addAll DailyReport.id ds []); simpl; [|reflexivity].
    destruct (present (importYearly data)) as [ys|]; simpl; [|reflexivity].
    now destruct (IndexedDB.addAll YearlyReport.id ys []).
  - destruct (present (importYearly data)) as [ys|]; simpl; [|reflexivity].
    now destruct (IndexedDB.addAll YearlyReport.id ys []).
Qed.


End ImportFacts.

(** ** The text search: blank queries *)

Lemma dropWhile_nil {A : Type} (f : A -> bool) (l : list A) :
  dropWhile f l = [] <-> forallb f l = true.
Proof.
  induction l as [|x l IH]; simpl; [tauto|].
  destruct (f x); simpl; [assumption|]. split; discriminate.
Qed.

Lemma forallb_dropWhile {A : Type} (f : A -> bool) (l : list A) :
  forallb f (dropWhile f l) = forallb f l.
Proof.
  induction l as [|x l IH]; simpl; [reflexivity|].
  destruct (f x) eqn:E; simpl; [assumption|]. now rewrite E.
Qed.

Lemma forallb_rev {A : Type} (f : A -> bool) (l : list A) :
  forallb f (rev l) = forallb f l.
Proof.
  induction l as [|x l IH]; simpl; [reflexivity|].
  rewrite forallb_app, IH. simpl. rewrite andb_true_r. apply andb_comm.
Qed.

Lemma trim_nil (s : jsstring) : trim s = [] <-> forallb isWhiteSpace s = true.
Proof.
  unfold trim. rewrite <- forallb_dropWhile, <- forallb_rev, <- dropWhile_nil.
  split; intros H.
  - now apply (f_equal (@rev N)) in H; rewrite rev_involutive in H.
  - now rewrite H.
Qed.

(** The test [!query || query.trim() === ""] holds exactly of the queries
    made of white space only, the empty one among them. *)
Lemma isBlank_whitespace (query : jsstring) :
  IndexedDB.isBlank query = forallb isWhiteSpace query.
Proof.
  unfold IndexedDB.isBlank. destruct query as [|c q]; [reflexivity|].
  destruct (trim (c :: q)) eqn:E.
  - symmetry. now apply trim_nil.
  - destruct (forallb isWhiteSpace (c :: q)) eqn:F; [|reflexivity].
    apply trim_nil in F. congruence.
Qed.

(** ** The text search: scores *)

Lemma Qltb_lt (a b : Q) : Qltb a b = true <-> (a < b)%Q.
Proof.
  unfold Qltb. rewrite negb_true_iff. split.
  - intros H. apply Qnot_le_lt. intros Hle.
    apply Qle_bool_iff in Hle. congruence.
  - intros H. destruct (Qle_bool b a) eqn:E; [|reflexivity].
    apply Qle_bool_iff in E. now apply Qlt_not_le in H.
Qed.

Lemma Qltb_ge (a b : Q) : Qltb a b = false <-> (b <= a)%Q.
Proof.
  unfold Qltb. rewrite negb_false_iff. apply Qle_bool_iff.
Qed.

Section FuzzyFacts.
Context (toLowerCase : jsstring -> jsstring).
Context (wholeWordTest : jsstring -> bool -> jsstring -> option bool).
Context (o : IndexedDB.SearchOptions).

Lemma fuzzyStep_fold term (words : list jsstring) : forall best,
  let q := fold_left (IndexedDB.fuzzyStep o term) words best in
  (best <= q)%Q /\
  (forall w, In w words -> candidate (IndexedDB.threshold o) term w ->
     (IndexedDB.similarity w term <= q)%Q) /\
  (q = best \/
   exists w, In w words /\ candidate (IndexedDB.threshold o) term w /\
             q = IndexedDB.similarity w term).
Proof.
  induction words as [|w words IH]; intros best; simpl.
  - split; [apply Qle_refl|]. split; [contradiction | now left].
  - destruct (IH (IndexedDB.fuzzyStep o term best w)) as (Hle & Hub & Hat).
    assert (Hstep :
      (best <= IndexedDB.fuzzyStep o term best w)%Q /\
      (candidate (IndexedDB.threshold o) term w ->
         (IndexedDB.similarity w term
            <= IndexedDB.fuzzyStep o term best w)%Q) /\
      (IndexedDB.fuzzyStep o term best w = best \/
       candidate (IndexedDB.threshold o) term w /\
       IndexedDB.fuzzyStep o term best w = IndexedDB.similarity w term)).
    { unfold IndexedDB.fuzzyStep, candidate.
      destruct (Nat.ltb_spec (length w) 3) as [Hshort|Hlong].
      - split; [apply Qle_refl|]. split; [lia | now left].
      - destruct (Qle_bool _ _) eqn:Hthr; simpl.
        + apply Qle_bool_iff in Hthr.
          destruct (Qltb best (IndexedDB.similarity w term)) eqn:Hbest.
          * apply Qltb_lt in Hbest. split; [now apply Qlt_le_weak|].
            split; [intros _; apply Qle_refl | now right].
          * apply Qltb_ge in Hbest. split; [apply Qle_refl|].
            split; [now intros _ | now left].
        + split; [apply Qle_refl|]. split; [|now left].
          intros [_ Hc]. apply Qle_bool_iff in Hc. congruence. }
    destruct Hstep as (Hs1 & Hs2 & Hs3). repeat split.
    + eapply Qle_trans; eauto.
    + intros w' [<-|Hin] Hc.
      * eapply Qle_trans; [apply Hs2, Hc | exact Hle].
      * now apply Hub.
    + destruct Hat as [Hq|(w' & Hin & Hc & Hq)].
      * destruct Hs3 as [Hb|[Hc Hb]].
        -- left. congruence.
        -- right. exists w. repeat split; auto; try apply Hc. congruence.
      * right. exists w'. auto.
Qed.

(** A term of more than three units is scored by the best similarity of
    the candidate words of the field value. *)
Lemma getFuzzyMatchScore_long text term :
  (3 < length term)%nat ->
  exists q,
    IndexedDB.getFuzzyMatchScore toLowerCase wholeWordTest o text term
      = Some q /\
    bestSimilarity (IndexedDB.threshold o) term
      (splitWhiteSpace
         (if IndexedDB.caseSensitive o then text else toLowerCase text)) q.
Proof.
  intros Hlen. unfold IndexedDB.getFuzzyMatchScore.
  destruct (Nat.leb_spec (length term) 3) as [Hle|_]; [lia|].
  eexists. split; [reflexivity|].
  destruct (fuzzyStep_fold term
    (splitWhiteSpace
       (if IndexedDB.caseSensitive o then text else toLowerCase text)) 0%Q)
    as (H0 & Hub & Hat).
  split; [exact H0|]. split; [exact Hub | exact Hat].
Qed.

(** A term of at most three units is scored by exact matching. *)
Lemma getFuzzyMatchScore_short text term :
  (length term <= 3)%nat ->
  IndexedDB.getFuzzyMatchScore toLowerCase wholeWordTest o text term
  = IndexedDB.getExactMatchScore toLowerCase wholeWordTest o text term.
Proof.
  intros Hlen. unfold IndexedDB.getFuzzyMatchScore.
  now destruct (Nat.leb_spec (length term) 3) as [_|Hgt]; [|lia].
Qed.

End FuzzyFacts.

(** ** The text search: results *)

Lemma firstn_In {A : Type} (l : list A) : forall n x,
  In x (firstn n l) -> In x l.
Proof.
  induction l as [|y l IH]; intros [|n] x; simpl; try tauto.
  intros [->|H]; [now left | right; eauto].
Qed.

Lemma firstn_sorted {A : Type} (le : A -> A -> Prop) (l : list A) : forall n,
  StronglySorted le l -> StronglySorted le (firstn n l).
Proof.
  induction l as [|x l IH]; intros [|n] Hs; simpl; try constructor.
  - apply IH. now inversion Hs.
  - inversion Hs as [|? ? _ Hall]; subst.
    apply Forall_forall. intros y Hy. rewrite Forall_forall in Hall.
    apply Hall. eapply firstn_In; eauto.
Qed.

Lemma firstn_Forall {A : Type} (P : A -> Prop) (l : list A) n :
  Forall P l -> Forall P (firstn n l).
Proof.
  rewrite !Forall_forall. intros H x Hx. apply H.
  eapply firstn_In; eauto.
Qed.

Section ResultFacts.
Context {R : Type}.
Context (fieldValue : R -> jsstring -> option jsstring).
Context (toLowerCase : jsstring -> jsstring).
Context (wholeWordTest : jsstring -> bool -> jsstring -> option bool).
Context (o : IndexedDB.SearchOptions).

Lemma byScoreDesc_sorted (l : list (IndexedDB.Scored R)) :
  scoreDescending (js_sort IndexedDB.byScoreDesc l).
Proof.
  apply js_sort_sorted; unfold IndexedDB.byScoreDesc.
  - intros x y z Hxy Hyz. eapply Qle_trans; eauto.
  - intros x y H. apply Qltb_ge in H.
    apply (Qplus_le_l _ _ (- IndexedDB.score x)).
    now rewrite Qplus_opp_r.
  - intros x y H. apply Qltb_lt in H. apply Qlt_le_weak.
    apply (Qplus_lt_l _ _ (- IndexedDB.score x)).
    now rewrite Qplus_opp_r.
Qed.

(** The results kept, ordered and cut, as lines 835-844 make them. *)
Lemma kept_results (results : list (IndexedDB.Scored R)) (n : nat) :
  let sortedResults :=
    js_sort IndexedDB.byScoreDesc
      (List.filter (fun r => Qltb 0 (IndexedDB.score r)) results) in
  Forall (fun r => (0 < IndexedDB.score r)%Q) sortedResults /\
  scoreDescending sortedResults /\
  Forall (fun r => (0 < IndexedDB.score r)%Q) (firstn n sortedResults) /\
  scoreDescending (firstn n sortedResults) /\
  (length (firstn n sortedResults) <= n)%nat.
Proof.
  intros sortedResults.
  assert (Hpos : Forall (fun r => (0 < IndexedDB.score r)%Q) sortedResults).
  { apply Forall_forall. intros r Hr.
    apply (Permutation_in _ (Permutation_sym (js_sort_perm _ _))) in Hr.
    apply filter_In in Hr. now apply Qltb_lt. }
  pose proof (byScoreDesc_sorted
    (List.filter (fun r => Qltb 0 (IndexedDB.score r)) results)) as Hs.
  repeat split; auto using firstn_Forall, firstn_le_length.
  now apply firstn_sorted.
Qed.

Lemma termScore_total text term :
  IndexedDB.matchWholeWord o = false ->
  exists q,
    IndexedDB.termScore toLowerCase wholeWordTest o text term = Some q.
Proof.
  intros Hw. unfold IndexedDB.termScore, IndexedDB.getFuzzyMatchScore,
    IndexedDB.getExactMatchScore. rewrite Hw.
  destruct (IndexedDB.fuzzyMatch o); [|eauto].
  destruct (length term <=? 3)%nat; eauto.
Qed.

Lemma scoreTerms_total text (terms : list jsstring) : forall total,
  IndexedDB.matchWholeWord o = false ->
  exists q,
    IndexedDB.scoreTerms toLowerCase wholeWordTest o text terms total = Some q.
Proof.
  induction terms as [|term terms IH]; intros total Hw; simpl; [eauto|].
  destruct (termScore_total text term Hw) as (q & ->). now apply IH.
Qed.

Lemma scoreFields_total it (fields terms : list jsstring) : forall total,
  IndexedDB.matchWholeWord o = false ->
  exists q,
    IndexedDB.scoreFields fieldValue toLowerCase wholeWordTest o it fields
      terms total = Some q.
Proof.
  induction fields as [|f fields IH]; intros total Hw; simpl; [eauto|].
  destruct (fieldValue it f) as [text|]; [|now apply IH].
  destruct (scoreTerms_total text terms total Hw) as (q & ->). now apply IH.
Qed.

Lemma scoreItems_total (items : list R) (fields terms : list jsstring) :
  IndexedDB.matchWholeWord o = false ->
  exists results,
    IndexedDB.scoreItems fieldValue toLowerCase wholeWordTest o items fields
      terms = Some results.
Proof.
  intros Hw. induction items as [|it items (results & IH)]; simpl; [eauto|].
  destruct (scoreFields_total it fields terms 0%Q Hw) as (q & ->).
  rewrite IH. simpl. eauto.
Qed.

(** C4. A query that is not blank yields only entries of score above 0,
    by descending score, and at most [limit] of them when a limit above 0
    is given; the search does resolve when no pattern has to be built. A
    query that is empty or all white space yields every record of the
    store, in the store's order, each with score 0. The store is left as
    it is. *)
Theorem fullTextSearch_results (s : IndexedDB.Store R)
  (query : jsstring) (fields : list jsstring) :
  (forallb isWhiteSpace query = false ->
     (forall res s',
        IndexedDB.fullTextSearch fieldValue toLowerCase wholeWordTest o
          query fields s = (Resolved res, s') ->
        s' = s /\
        Forall (fun r => (0 < IndexedDB.score r)%Q) res /\
        scoreDescending res /\
        (forall n, IndexedDB.optLimit o = Some n -> 0 < n ->
           Z.of_nat (length res) <= n)) /\
     (IndexedDB.matchWholeWord o = false ->
      exists res,
        IndexedDB.fullTextSearch fieldValue toLowerCase wholeWordTest o
          query fields s = (Resolved res, s))) /\
  (forallb isWhiteSpace query = true ->
     IndexedDB.fullTextSearch fieldValue toLowerCase wholeWordTest o
       query fields s
     = (Resolved
          (map (fun it => {| IndexedDB.item := it; IndexedDB.score := 0 |}) s),
        s)).
Proof.
  unfold IndexedDB.fullTextSearch, bind, IndexedDB.getAll, ret, reject.
  rewrite isBlank_whitespace. split.
  - intros ->. split.
    + intros res s'.
      destruct (IndexedDB.scoreItems _ _ _ _ _ _ _) as [results|];
        [|discriminate].
      destruct (kept_results results (Z.to_nat 0)) as (Hp & Hs & _).
      destruct (IndexedDB.optLimit o) as [n|].
      * destruct (kept_results results (Z.to_nat n)) as (_ & _ & Hp' & Hs' & Hl).
        destruct (Z.ltb_spec 0 n) as [Hn|Hn]; intros [= <- <-].
        -- repeat split; auto. intros m [= <-] _. lia.
        -- repeat split; auto. intros m [= <-] Hm. lia.
      * intros [= <- <-]. repeat split; auto. discriminate.
    + intros Hw.
      destruct (scoreItems_total s fields
                  (IndexedDB.queryTermsOf toLowerCase o query) Hw)
        as (results & ->).
      destruct (IndexedDB.optLimit o) as [n|]; [|eauto].
      destruct (0 <? n); eauto.
  - now intros ->.
Qed.

End ResultFacts.

(** ** The text search: the threshold option *)

Lemma fold_left_pointwise {A B : Type} (f g : A -> B -> A) (l : list B) :
  (forall a b, f a b = g a b) ->
  forall a, fold_left f l a = fold_left g l a.
Proof.
  intros Hfg. induction l as [|b l IH]; intros a; simpl; [reflexivity|].
  now rewrite Hfg, IH.
Qed.

Section ThresholdFacts.
Context {R : Type}.
Context (fieldValue : R -> jsstring -> option jsstring).
Context (toLowerCase : jsstring -> jsstring).
Context (wholeWordTest : jsstring -> bool -> jsstring -> option bool).
Context (o1 o2 : IndexedDB.SearchOptions).
Hypothesis Hsame : sameButThreshold o1 o2.
Hypothesis Hthr : IndexedDB.threshold o1 = IndexedDB.threshold o2.

Lemma getExactMatchScore_same text term :
  IndexedDB.getExactMatchScore toLowerCase wholeWordTest o1 text term
  = IndexedDB.getExactMatchScore toLowerCase wholeWordTest o2 text term.
Proof.
  destruct Hsame as (_ & Hc & Hw & _).
  unfold IndexedDB.getExactMatchScore. now rewrite Hc, Hw.
Qed.

Lemma fuzzyStep_same term best word :
  IndexedDB.fuzzyStep o1 term best word = IndexedDB.fuzzyStep o2 term best word.
Proof. unfold IndexedDB.fuzzyStep. now rewrite Hthr. Qed.

Lemma getFuzzyMatchScore_same text term :
  IndexedDB.getFuzzyMatchScore toLowerCase wholeWordTest o1 text term
  = IndexedDB.getFuzzyMatchScore toLowerCase wholeWordTest o2 text term.
Proof.
  unfold IndexedDB.getFuzzyMatchScore. rewrite getExactMatchScore_same.
  destruct Hsame as (_ & -> & _).
  now rewrite (fold_left_pointwise _ _ _ (fuzzyStep_same term)).
Qed.

Lemma termScore_same text term :
  IndexedDB.termScore toLowerCase wholeWordTest o1 text term
  = IndexedDB.termScore toLowerCase wholeWordTest o2 text term.
Proof.
  unfold IndexedDB.termScore.
  rewrite getExactMatchScore_same, getFuzzyMatchScore_same.
  now destruct Hsame as (_ & _ & _ & ->).
Qed.

Lemma scoreTerms_same text (terms : list jsstring) : forall total,
  IndexedDB.scoreTerms toLowerCase wholeWordTest o1 text terms total
  = IndexedDB.scoreTerms toLowerCase wholeWordTest o2 text terms total.
Proof.
  induction terms as [|term terms IH]; intros total; simpl; [reflexivity|].
  rewrite termScore_same.
  now destruct (IndexedDB.termScore toLowerCase wholeWordTest o2 text term).
Qed.

Lemma scoreFields_same it (fields terms : list jsstring) : forall total,
  IndexedDB.scoreFields fieldValue toLowerCase wholeWordTest o1 it fields
    terms total
  = IndexedDB.scoreFields fieldValue toLowerCase wholeWordTest o2 it fields
      terms total.
Proof.
  induction fields as [|f fields IH]; intros total; simpl; [reflexivity|].
  destruct (fieldValue it f) as [text|]; [|apply IH].
  rewrite scoreTerms_same.
  now destruct (IndexedDB.scoreTerms toLowerCase wholeWordTest o2 text terms
                  total).
Qed.

Lemma scoreItems_same (items : list R) (fields terms : list jsstring) :
  IndexedDB.scoreItems fieldValue toLowerCase wholeWordTest o1 items fields
    terms
  = IndexedDB.scoreItems fieldValue toLowerCase wholeWordTest o2 items fields
      terms.
Proof.
  induction items as [|it items IH]; simpl; [reflexivity|].
  now rewrite scoreFields_same, IH.
Qed.

(** The search reads [fuzzyMatchThreshold] through [threshold] only. *)
Lemma fullTextSearch_same (query : jsstring) (fields : list jsstring)
  (s : IndexedDB.Store R) :
  IndexedDB.fullTextSearch fieldValue toLowerCase wholeWordTest o1 query
    fields s
  = IndexedDB.fullTextSearch fieldValue toLowerCase wholeWordTest o2 query
      fields s.
Proof.
  unfold IndexedDB.fullTextSearch, bind, IndexedDB.getAll,
    IndexedDB.queryTermsOf.
  rewrite scoreItems_same.
  now destruct Hsame as (-> & -> & _).
Qed.

End ThresholdFacts.

(** C10. A search with fuzzy matching on and the threshold 0 gives what
    the same search gives with the threshold 0.7: the value 0 is replaced
    by the default, so that a word of similarity 1/2 is still turned
    down. *)
Theorem zero_threshold_is_default {R : Type}
  (fieldValue : R -> jsstring -> option jsstring)
  (toLowerCase : jsstring -> jsstring)
  (wholeWordTest : jsstring -> bool -> jsstring -> option bool)
  (o : IndexedDB.SearchOptions) (s : IndexedDB.Store R)
  (query : jsstring) (fields : list jsstring) :
  IndexedDB.fullTextSearch fieldValue toLowerCase wholeWordTest
    (withFuzzyThreshold o 0) query fields s
  = IndexedDB.fullTextSearch fieldValue toLowerCase wholeWordTest
      (withFuzzyThreshold o (7 # 10)) query fields s /\
  IndexedDB.threshold (withFuzzyThreshold o 0) = (7 # 10)%Q /\
  IndexedDB.similarity (js "abcdef") (js "abcxyz") = (3 # 6)%Q /\
  IndexedDB.getFuzzyMatchScore asciiLower wholeWordTest (fuzzyOptions 0)
    (js "abcdef") (js "abcxyz") = Some 0%Q.
Proof.
  assert (Hthr : IndexedDB.threshold (withFuzzyThreshold o 0)
                 = IndexedDB.threshold (withFuzzyThreshold o (7 # 10)))
    by reflexivity.
  split.
  - apply fullTextSearch_same; [|exact Hthr].
    repeat split; reflexivity.
  - repeat split; reflexivity.
Qed.


(** ** The text search: fuzzy scoring of one term *)

(** ** The order of binary64 numbers *)




Lemma SFltb_irrefl (x : spec_float) : SFltb x x = false.
Proof.
  unfold SFltb. destruct x as [s|s| |s m e]; cbn [SFcompare];
    try reflexivity; destruct s; try reflexivity;
    rewrite Z.compare_refl;
    change (Pos.compare_cont Eq m m) with (Pos.compare m m);
    now rewrite Pos.compare_refl.
Qed.


Lemma ltb_irrefl (x : float) : PrimFloat.ltb x x = false.
Proof. rewrite ltb_spec. apply SFltb_irrefl. Qed.


(** ** The fuzzy score of one term, in binary64 *)

Section FuzzyScores.
Context (toLowerCase : jsstring -> jsstring).
Context (wholeWordTest : jsstring -> bool -> jsstring -> option bool).
Context (o : Float64.SearchOptions).





End FuzzyScores.



(** * The properties at sample inputs *)

(** Three days of one "coding" each merge into one "Work" entry holding
    "coding" three times. *)
Lemma mergeReportData_conservation_witness :
  let rs := map DailyReport.data
              [workDay "2024-01-01"; workDay "2024-01-02";
               workDay "2024-01-03"] in
  let out := Float64.mergeReportData (map asNumbers rs) in
  safeIntegers rs /\
  appearsIn (js "Work") (js "coding") rs /\
  Float64.exactSum (map Float64.value (Float64.pieChart out)) = Some 3 /\
  exists d x,
    List.filter (fun d => str_eqb (Float64.category d) (js "Work"))
      (Float64.detailedReport out) = [d] /\
    List.filter (fun x => str_eqb (Float64.activity x) (js "coding"))
      (Float64.activities d) = [x] /\
    Float64.toInteger (Float64.count x) = Some 3.
Proof.
  intros rs out.
  assert (H : appearsIn (js "Work") (js "coding") rs).
  { exists (DailyReport.data (workDay "2024-01-01")),
      {| category := js "Work";
         activities := [{| activity := js "coding"; count := 1 |}] |},
      {| activity := js "coding"; count := 1 |}.
    repeat split; simpl; auto. }
  assert (Hsafe : safeIntegers rs) by (split; vm_compute; discriminate).
  destruct (mergeReportData_conservation rs Hsafe) as (Hsum & _ & Hd & _).
  split; [exact Hsafe|]. split; [exact H|]. split; [exact Hsum|].
  exact (Hd _ _ H).
Defined.

(** The year 2024 of the three-day store is reported, the year 2023 is
    refused. *)
Lemma generateYearlyReport_outcome_witness :
  Forall (fun r => belowMaxChar (DailyReport.id r) = true)
    (ReportDatabase.dailyReports threeDays) /\
  (exists y,
     ReportDatabase.generateYearlyReport (js "2024") threeDays
       = (Resolved y, threeDays) /\
     YearlyReport.id y = js "2024" /\
     YearlyReport.title y = js "Annual Report 2024" /\
     detailedReport (YearlyReport.data y) =
       [{| category := js "Work";
           activities := [{| activity := js "coding"; count := 3 |}] |}]) /\
  ReportDatabase.generateYearlyReport (js "2023") threeDays
    = (Rejected (NoDailyReports (js "2023")), threeDays).
Proof.
  assert (Hwf : Forall (fun r => belowMaxChar (DailyReport.id r) = true)
                  (ReportDatabase.dailyReports threeDays))
    by (repeat constructor).
  split; [exact Hwf|]. split.
  - destruct (generateYearlyReport_outcome threeDays (js "2024") Hwf)
      as (_ & _ & Hsome).
    eexists. split; [apply Hsome; discriminate|].
    repeat split; reflexivity.
  - destruct (generateYearlyReport_outcome threeDays (js "2023") Hwf)
      as (_ & Hnone & _).
    apply Hnone. reflexivity.
Defined.


(** A two-term query on three titles, and a blank query. *)
Lemma fullTextSearch_results_witness :
  let store := [titled "2024-01-01" "walking"; titled "2024-01-02" "running";
                titled "2024-01-03" "Running and more running"] in
  let search := IndexedDB.fullTextSearch dailyField asciiLower
                  (fun _ _ _ => None) (fuzzyOptions (7 # 10)) in
  (exists res,
     search (js "runing running") [js "title"] store = (Resolved res, store) /\
     map (fun r => DailyReport.id (IndexedDB.item r)) res
       = [js "2024-01-02"; js "2024-01-03"] /\
     Forall (fun r => (0 < IndexedDB.score r)%Q) res /\
     scoreDescending res) /\
  search (js "   ") [js "title"] store
    = (Resolved (map (fun it => {| IndexedDB.item := it;
                                   IndexedDB.score := 0 |}) store), store).
Proof.
  intros store search.
  destruct (fullTextSearch_results dailyField asciiLower (fun _ _ _ => None)
              (fuzzyOptions (7 # 10)) store (js "runing running")
              [js "title"]) as (Hfull & _).
  destruct (fullTextSearch_results dailyField asciiLower (fun _ _ _ => None)
              (fuzzyOptions (7 # 10)) store (js "   ") [js "title"])
    as (_ & Hblank).
  split.
  - destruct (Hfull eq_refl) as (Hres & Htotal).
    destruct (Htotal eq_refl) as (res & Hrun).
    destruct (Hres res store Hrun) as (_ & Hpos & Hsorted & _).
    exists res. split; [exact Hrun|]. split; [|split; assumption].
    vm_compute in Hrun. injection Hrun as <-. reflexivity.
  - apply Hblank. reflexivity.
Defined.

(** January 2024 of the three-day store. *)
Lemma getDailyReportsByMonth_prefix_witness :
  sortedStore DailyReport.id (ReportDatabase.dailyReports threeDays) /\
  Forall (fun r => wellFormedId (DailyReport.id r) = true)
    (ReportDatabase.dailyReports threeDays) /\
  exists rs,
    ReportDatabase.getDailyReportsByMonth (js "2024-01") threeDays
      = (Resolved rs, threeDays) /\
    rs = [workDay "2024-01-01"; workDay "2024-01-15"].
Proof.
  assert (Hs : sortedStore DailyReport.id
                 (ReportDatabase.dailyReports threeDays))
    by (repeat constructor).
  assert (Hwf : Forall (fun r => wellFormedId (DailyReport.id r) = true)
                  (ReportDatabase.dailyReports threeDays))
    by (repeat constructor).
  split; [exact Hs|]. split; [exact Hwf|].
  destruct (getDailyReportsByMonth_prefix threeDays (js "2024-01") Hs Hwf)
    as (_ & rs & Hrun & Hrs & _).
  exists rs. split; [exact Hrun|]. rewrite Hrs. reflexivity.
Defined.

(** The cleanup of 1 February 2024 on the reports of 31 January and of
    1 February. *)
Lemma cleanupOldReports_boundary_witness :
  splitHead 84 (toISOString firstOfFebruary) = js "2024-02-01" /\
  exists db',
    ReportDatabase.cleanupOldReports firstOfFebruary aroundFebruary
      = (Resolved tt, db') /\
    ReportDatabase.dailyReports db' = [workDay "2024-02-01"] /\
    ReportDatabase.yearlyReports db'
      = ReportDatabase.yearlyReports aroundFebruary.
Proof.
  destruct (cleanupOldReports_boundary aroundFebruary firstOfFebruary)
    as (Hfmt & (db' & Hrun & Hdaily & _ & _ & Hyearly) & _).
  split.
  - rewrite Hfmt; [reflexivity | simpl; lia].
  - exists db'. split; [exact Hrun|]. split; [|exact Hyearly].
    rewrite Hdaily. reflexivity.
Defined.

(** An update of a missing key and an update of a stored one. *)
Lemma update_rejects_iff_absent_witness :
  let store := ReportDatabase.dailyReports threeDays in
  let retitle (r : DailyReport.t) :=
    DailyReport.mk (DailyReport.id r) (DailyReport.date r) (js "Edited")
      (DailyReport.data r) in
  IndexedDB.update DailyReport.id (js "2024-03-01") retitle store
    = (Rejected (NotFoundError (js "2024-03-01")), store) /\
  IndexedDB.update DailyReport.id (js "2024-01-15") retitle store
    = (Resolved (retitle (workDay "2024-01-15")),
       [workDay "2024-01-01"; retitle (workDay "2024-01-15");
        workDay "2024-02-01"]).
Proof.
  intros store retitle. split.
  - destruct (update_rejects_iff_absent DailyReport.id store
                (js "2024-03-01") retitle) as (_ & Habsent & _).
    apply Habsent. unfold hasKey. simpl.
    intros [H|[H|[H|[]]]]; discriminate.
  - destruct (update_rejects_iff_absent DailyReport.id store
                (js "2024-01-15") retitle) as (_ & _ & Hpresent).
    destruct (Hpresent (workDay "2024-01-15") eq_refl) as (_ & Hrun & _).
    rewrite Hrun. reflexivity.
Defined.


(** A fourth day added to the three-day store and read back. *)
Lemma add_then_get_roundtrip_witness :
  ~ hasKey DailyReport.id (ReportDatabase.dailyReports threeDays)
      (DailyReport.id (workDay "2024-01-20")) /\
  exists s',
    IndexedDB.add DailyReport.id (workDay "2024-01-20")
      (ReportDatabase.dailyReports threeDays)
      = (Resolved (js "2024-01-20"), s') /\
    (key <- IndexedDB.add DailyReport.id (workDay "2024-01-20") ;;
     IndexedDB.get DailyReport.id key)%op
      (ReportDatabase.dailyReports threeDays)
      = (Resolved (Some (workDay "2024-01-20")), s').
Proof.
  assert (Hfresh : ~ hasKey DailyReport.id
                     (ReportDatabase.dailyReports threeDays)
                     (DailyReport.id (workDay "2024-01-20"))).
  { unfold hasKey. simpl. intros [H|[H|[H|[]]]]; discriminate. }
  split; [exact Hfresh|].
  exact (add_then_get_roundtrip DailyReport.id _ _ Hfresh).
Defined.

(** * Further properties *)

(** * Further properties of the engine *)

(** ** Writes of one record *)

Section WriteFacts.
Context {R : Type} (keyOf : R -> jsstring).
Implicit Types (s : IndexedDB.Store R) (r item : R) (k key : jsstring).

Lemma hasKey_lookup s k :
  hasKey keyOf s k <-> exists r, IndexedDB.lookup keyOf s k = Some r.
Proof.
  destruct (IndexedDB.lookup keyOf s k) as [r|] eqn:E.
  - split; [eauto|]. intros _.
    destruct (in_dec (list_eq_dec N.eq_dec) k (map keyOf s)) as [H|H];
      [exact H|].
    apply lookup_None in H. congruence.
  - apply lookup_None in E. split; [contradiction|]. intros (r & Hr).
    discriminate.
Qed.

Lemma lookup_In s k r :
  IndexedDB.lookup keyOf s k = Some r -> In r s /\ keyOf r = k.
Proof.
  induction s as [|x s IH]; simpl; [discriminate|].
  destruct (str_eqb_spec (keyOf x) k) as [E|E].
  - intros [= <-]. auto.
  - intros H. destruct (IH H). auto.
Qed.

Lemma lookup_insert_other s item k :
  k <> keyOf item ->
  IndexedDB.lookup keyOf (IndexedDB.insert keyOf item s) k
  = IndexedDB.lookup keyOf s k.
Proof.
  intros Hk. assert (Hne : str_eqb (keyOf item) k = false)
    by (apply str_eqb_neq; congruence).
  induction s as [|x s IH]; simpl.
  - now rewrite Hne.
  - destruct (str_ltb (keyOf item) (keyOf x)); simpl.
    + now rewrite Hne.
    + destruct (str_eqb_spec (keyOf x) (keyOf item)) as [E|E]; simpl.
      * now rewrite Hne, E, Hne.
      * now rewrite IH.
Qed.

Lemma insert_same_key s item item' :
  keyOf item' = keyOf item ->
  IndexedDB.insert keyOf item' (IndexedDB.insert keyOf item s)
  = IndexedDB.insert keyOf item' s.
Proof.
  intros Hk. induction s as [|x s IH]; simpl.
  - now rewrite Hk, str_ltb_irrefl, str_eqb_refl.
  - rewrite Hk. destruct (str_ltb (keyOf item) (keyOf x)) eqn:Hlt; simpl.
    + now rewrite Hk, str_ltb_irrefl, str_eqb_refl.
    + destruct (str_eqb (keyOf x) (keyOf item)) eqn:Heq; simpl.
      * now rewrite Hk, str_ltb_irrefl, str_eqb_refl.
      * rewrite Hk, Hlt, Heq. f_equal. exact IH.
Qed.

(** In a store in key order no record stands before a smaller key. *)
Lemma lookup_below_head s x k :
  sortedStore keyOf (x :: s) -> str_ltb k (keyOf x) = true ->
  IndexedDB.lookup keyOf (x :: s) k = None.
Proof.
  intros Hs Hlt. apply lookup_None. unfold hasKey. intros Hin.
  apply in_map_iff in Hin. destruct Hin as (y & Hy & Hin).
  inversion Hs as [|? ? _ Hall]; subst.
  destruct Hin as [->|Hin].
  - now rewrite str_ltb_irrefl in Hlt.
  - rewrite Forall_forall in Hall. specialize (Hall _ Hin).
    pose proof (str_ltb_trans _ _ _ Hlt Hall) as Hc.
    now rewrite str_ltb_irrefl in Hc.
Qed.

Lemma insert_present_keys s item :
  sortedStore keyOf s -> hasKey keyOf s (keyOf item) ->
  map keyOf (IndexedDB.insert keyOf item s) = map keyOf s.
Proof.
  induction s as [|x s IH]; intros Hs Hhas; simpl.
  - destruct Hhas.
  - destruct (str_ltb (keyOf item) (keyOf x)) eqn:Hlt.
    + apply hasKey_lookup in Hhas. destruct Hhas as (r & Hr).
      now rewrite (lookup_below_head s x _ Hs Hlt) in Hr.
    + destruct (str_eqb_spec (keyOf x) (keyOf item)) as [E|E]; simpl.
      * now rewrite E.
      * f_equal. apply IH; [now inversion Hs|].
        destruct Hhas as [H|H]; [congruence | exact H].
Qed.

Lemma insert_absent_length s item :
  ~ hasKey keyOf s (keyOf item) ->
  length (IndexedDB.insert keyOf item s) = S (length s).
Proof.
  intros H. apply lookup_None in H.
  now rewrite (Permutation_length (insert_fresh_perm keyOf s item H)).
Qed.

Lemma lookup_remove s key k :
  IndexedDB.lookup keyOf (IndexedDB.remove keyOf key s) k
  = if str_eqb k key then None else IndexedDB.lookup keyOf s k.
Proof.
  unfold IndexedDB.remove. induction s as [|x s IH]; simpl.
  - now destruct (str_eqb k key).
  - destruct (str_eqb_spec (keyOf x) key) as [E|E]; simpl; rewrite IH.
    + destruct (str_eqb_spec k key) as [Hk|Hk]; [reflexivity|].
      destruct (str_eqb_spec (keyOf x) k); [congruence | reflexivity].
    + destruct (str_eqb_spec (keyOf x) k) as [Hx|Hx]; [|reflexivity].
      destruct (str_eqb_spec k key); [congruence | reflexivity].
Qed.

Lemma remove_absent s key :
  ~ hasKey keyOf s key -> IndexedDB.remove keyOf key s = s.
Proof.
  unfold IndexedDB.remove, hasKey. induction s as [|x s IH]; simpl;
    [reflexivity|].
  intros H. destruct (str_eqb_spec (keyOf x) key) as [E|E]; simpl.
  - tauto.
  - f_equal. apply IH. tauto.
Qed.

(** X1. [add] rejects exactly when the key of the item is already stored,
    then with the constraint error and the store as it was; [put] of the
    same item then goes through, and a read of the key returns the item. *)
Theorem add_rejects_iff_present s item :
  ((exists e s', IndexedDB.add keyOf item s = (Rejected e, s'))
     <-> hasKey keyOf s (keyOf item)) /\
  (hasKey keyOf s (keyOf item) ->
     IndexedDB.add keyOf item s
       = (Rejected (ConstraintError (keyOf item)), s) /\
     exists s',
       (IndexedDB.put keyOf item ;; IndexedDB.get keyOf (keyOf item))%op s
         = (Resolved (Some item), s')).
Proof.
  rewrite hasKey_lookup. unfold IndexedDB.add.
  destruct (IndexedDB.lookup keyOf s (keyOf item)) as [x|] eqn:E.
  - split; [split; eauto|]. intros _. split; [reflexivity|].
    exists (IndexedDB.insert keyOf item s).
    unfold bind, IndexedDB.put, IndexedDB.get.
    now rewrite lookup_insert_same.
  - split.
    + split; [intros (e & s' & H); discriminate|].
      intros (r & Hr). discriminate.
    + intros (r & Hr). discriminate.
Qed.

(** X2. [put] of an item twice leaves the store as one [put] does. *)
Theorem put_is_idempotent s item :
  (IndexedDB.put keyOf item ;; IndexedDB.put keyOf item)%op s
  = IndexedDB.put keyOf item s.
Proof.
  unfold bind, IndexedDB.put. now rewrite insert_same_key.
Qed.

(** X3. After [put], a read of the item's key returns the item and a read
    of any other key returns what it returned before; in a store in key
    order the number of records stays when the key was stored and grows
    by one when it was not. *)
Theorem put_touches_its_key_only s item :
  let s' := snd (IndexedDB.put keyOf item s) in
  IndexedDB.get keyOf (keyOf item) s' = (Resolved (Some item), s') /\
  (forall k, k <> keyOf item ->
     fst (IndexedDB.get keyOf k s') = fst (IndexedDB.get keyOf k s)) /\
  (sortedStore keyOf s -> hasKey keyOf s (keyOf item) ->
     map keyOf s' = map keyOf s) /\
  (~ hasKey keyOf s (keyOf item) -> length s' = S (length s)).
Proof.
  unfold IndexedDB.put, IndexedDB.get. simpl. repeat split.
  - now rewrite lookup_insert_same.
  - intros k Hk. now rewrite lookup_insert_other.
  - apply insert_present_keys.
  - apply insert_absent_length.
Qed.

(** X4. [delete] always resolves; afterwards a read of the key returns
    nothing and a read of any other key returns what it returned before;
    when the key was not stored the store is left as it was. *)
Theorem delete_touches_its_key_only s key :
  let s' := snd (IndexedDB.delete keyOf key s) in
  fst (IndexedDB.delete keyOf key s) = Resolved tt /\
  IndexedDB.get keyOf key s' = (Resolved None, s') /\
  (forall k, k <> key ->
     fst (IndexedDB.get keyOf k s') = fst (IndexedDB.get keyOf k s)) /\
  (~ hasKey keyOf s key -> s' = s).
Proof.
  unfold IndexedDB.delete, IndexedDB.get. simpl. repeat split.
  - now rewrite lookup_remove, str_eqb_refl.
  - intros k Hk. rewrite lookup_remove.
    apply str_eqb_neq in Hk. now rewrite Hk.
  - apply remove_absent.
Qed.

(** X5. An update whose function changes the key does not move the
    record: the record read stays under its key, and the value returned
    is stored under the new key beside it. *)
Theorem update_cannot_move_a_record s key (updateFn : R -> R) cur :
  IndexedDB.lookup keyOf s key = Some cur ->
  keyOf (updateFn cur) <> key ->
  exists s',
    IndexedDB.update keyOf key updateFn s = (Resolved (updateFn cur), s') /\
    IndexedDB.lookup keyOf s' key = Some cur /\
    IndexedDB.lookup keyOf s' (keyOf (updateFn cur)) = Some (updateFn cur).
Proof.
  intros Hcur Hmove. eexists.
  unfold IndexedDB.update, catch, bind, IndexedDB.get, IndexedDB.put, ret.
  rewrite Hcur. simpl. split; [reflexivity|]. split.
  - rewrite lookup_insert_other by congruence. exact Hcur.
  - apply lookup_insert_same.
Qed.

(** X6. An update whose function keeps the key, on a store in key order,
    replaces the record where it stands: the keys of the store and every
    other record are as before. *)
Theorem update_in_place s key (updateFn : R -> R) cur :
  sortedStore keyOf s ->
  IndexedDB.lookup keyOf s key = Some cur ->
  keyOf (updateFn cur) = key ->
  exists s',
    IndexedDB.update keyOf key updateFn s = (Resolved (updateFn cur), s') /\
    map keyOf s' = map keyOf s /\
    IndexedDB.lookup keyOf s' key = Some (updateFn cur) /\
    (forall k, k <> key ->
       IndexedDB.lookup keyOf s' k = IndexedDB.lookup keyOf s k).
Proof.
  intros Hs Hcur Hkeep. eexists.
  unfold IndexedDB.update, catch, bind, IndexedDB.get, IndexedDB.put, ret.
  rewrite Hcur. simpl. split; [reflexivity|]. repeat split.
  - apply insert_present_keys; [assumption|].
    apply hasKey_lookup. rewrite Hkeep. eauto.
  - rewrite <- Hkeep. apply lookup_insert_same.
  - intros k Hk. apply lookup_insert_other. congruence.
Qed.

(** X7. Two updates of one key by functions that keep the key amount to
    one update by their composition. *)
Theorem update_twice_is_update_by_composition s key (f g : R -> R) cur :
  IndexedDB.lookup keyOf s key = Some cur ->
  keyOf (f cur) = key -> keyOf (g (f cur)) = key ->
  (IndexedDB.update keyOf key f ;; IndexedDB.update keyOf key g)%op s
  = IndexedDB.update keyOf key (fun x => g (f x)) s.
Proof.
  intros Hcur Hf Hg.
  unfold IndexedDB.update, catch, bind, IndexedDB.get, IndexedDB.put, ret.
  assert (H1 : IndexedDB.lookup keyOf (IndexedDB.insert keyOf (f cur) s) key
               = Some (f cur)).
  { rewrite <- Hf. apply lookup_insert_same. }
  rewrite Hcur. simpl. rewrite H1. simpl.
  rewrite insert_same_key by congruence. reflexivity.
Qed.

Lemma addAll_only_distinct (items : list R) : forall s s',
  IndexedDB.addAll keyOf items s = Some s' ->
  NoDup (map keyOf items) /\
  (forall k, In k (map keyOf items) -> ~ hasKey keyOf s k).
Proof.
  induction items as [|item items IH]; intros s s'; simpl.
  - intros _. split; [constructor | contradiction].
  - destruct (IndexedDB.lookup keyOf s (keyOf item)) eqn:E; [discriminate|].
    apply lookup_None in E. intros H. destruct (IH _ _ H) as (Hnd & Hfresh).
    split.
    + constructor; [|assumption]. intros Hin.
      apply (Hfresh _ Hin). apply insert_keys. now left.
    + intros k [<-|Hin]; [assumption|]. intros Hhas.
      apply (Hfresh _ Hin). apply insert_keys. now right.
Qed.

(** X8. [addMultiple] resolves exactly when the keys of the items are
    pairwise distinct and none of them is stored; it then adds every item,
    keeping the key order; when it rejects, the store is as it was. *)
Theorem addMultiple_all_or_nothing s (items : list R) :
  ((exists s', IndexedDB.addMultiple keyOf items s = (Resolved tt, s')) <->
   NoDup (map keyOf items) /\
   (forall k, In k (map keyOf items) -> ~ hasKey keyOf s k)) /\
  (forall e s', IndexedDB.addMultiple keyOf items s = (Rejected e, s') ->
     e = BulkAddError /\ s' = s) /\
  (forall s', IndexedDB.addMultiple keyOf items s = (Resolved tt, s') ->
     Permutation s' (items ++ s) /\
     (sortedStore keyOf s -> sortedStore keyOf s')).
Proof.
  unfold IndexedDB.addMultiple. split; [|split].
  - split.
    + intros (s' & H).
      destruct (IndexedDB.addAll keyOf items s) as [s0|] eqn:E;
        [|discriminate].
      exact (addAll_only_distinct _ _ _ E).
    + intros (Hnd & Hfresh).
      destruct (addAll_succeeds keyOf items s Hnd Hfresh) as (s' & ->).
      eauto.
  - intros e s'. destruct (IndexedDB.addAll keyOf items s); [discriminate|].
    now intros [= <- <-].
  - intros s'. destruct (IndexedDB.addAll keyOf items s) as [s0|] eqn:E;
      [|discriminate].
    intros [= <-]. split.
    + exact (addAll_perm _ _ _ _ E).
    + intros Hs. exact (addAll_sorted _ _ _ _ Hs E).
Qed.

End WriteFacts.

(** ** Counting and key reads *)

Section ReadFacts.
Context {R : Type} (keyOf : R -> jsstring).
Implicit Types (s : IndexedDB.Store R) (r : R) (k key : jsstring).

(** In a store in key order a key selects its record and no other. *)
Lemma filter_key_sorted s k :
  sortedStore keyOf s ->
  List.filter (fun r => str_eqb (keyOf r) k) s =
  match IndexedDB.lookup keyOf s k with
  | Some r => [r]
  | None => []
  end.
Proof.
  induction s as [|x s IH]; intros Hs; simpl; [reflexivity|].
  inversion Hs as [|? ? Hs' Hall]; subst.
  destruct (str_eqb_spec (keyOf x) k) as [E|E].
  - f_equal. apply (proj2 (filter_nil_iff _ s)).
    intros (y & Hy & Heq). apply str_eqb_eq in Heq.
    rewrite Forall_forall in Hall. specialize (Hall _ Hy).
    rewrite Heq, <- E, str_ltb_irrefl in Hall. discriminate.
  - now apply IH.
Qed.

Lemma filter_key_nonempty s k :
  (0 <? length (List.filter (fun r => str_eqb (keyOf r) k) s))%nat
  = match IndexedDB.lookup keyOf s k with Some _ => true | None => false end.
Proof.
  induction s as [|x s IH]; simpl; [reflexivity|].
  destruct (str_eqb (keyOf x) k); [reflexivity | exact IH].
Qed.

(** X9. [count] without a query gives the number of records; with a range
    it gives the number of records a search of that range returns; with a
    key, on a store in key order, it gives 1 or 0 as the key is stored or
    not, except that the empty string, being false, counts every
    record. *)
Theorem count_of_a_query s :
  IndexedDBReads.count keyOf None s = (Resolved (length s), s) /\
  (forall rg, exists rs,
     IndexedDB.search keyOf (IndexedDB.rangeOnly rg) s = (Resolved rs, s) /\
     IndexedDBReads.count keyOf (Some (IndexedDBReads.QueryRange rg)) s
       = (Resolved (length rs), s)) /\
  (sortedStore keyOf s -> forall k, k <> [] ->
     IndexedDBReads.count keyOf (Some (IndexedDBReads.QueryKey k)) s
     = (Resolved
          match IndexedDB.lookup keyOf s k with
          | Some _ => 1%nat
          | None => 0%nat
          end, s)) /\
  IndexedDBReads.count keyOf (Some (IndexedDBReads.QueryKey [])) s
    = (Resolved (length s), s).
Proof.
  unfold IndexedDBReads.count. split; [reflexivity|]. split; [|split].
  - intros rg. eexists. split; [apply search_rangeOnly | reflexivity].
  - intros Hs k Hk. destruct k as [|c k]; [congruence|]. simpl.
    rewrite (filter_key_sorted s (c :: k) Hs).
    now destruct (IndexedDB.lookup keyOf s (c :: k)).
  - reflexivity.
Qed.

(** X10. [exists] answers true exactly for the keys a read finds, which
    are the keys [getAllKeys] lists; on a store in key order that list is
    strictly ascending. Neither changes the store. *)
Theorem exists_agrees_with_get s key :
  IndexedDBReads.exists_ keyOf key s
    = (Resolved
         match IndexedDB.lookup keyOf s key with
         | Some _ => true
         | None => false
         end, s) /\
  (fst (IndexedDBReads.exists_ keyOf key s) = Resolved true <->
   exists keys, IndexedDBReads.getAllKeys keyOf s = (Resolved keys, s) /\
                In key keys) /\
  (sortedStore keyOf s ->
   exists keys, IndexedDBReads.getAllKeys keyOf s = (Resolved keys, s) /\
     StronglySorted (fun a b => str_ltb a b = true) keys).
Proof.
  unfold IndexedDBReads.exists_, IndexedDBReads.getAllKeys. simpl.
  rewrite filter_key_nonempty. split; [reflexivity|]. split.
  - split.
    + intros H. eexists. split; [reflexivity|].
      apply hasKey_lookup.
      destruct (IndexedDB.lookup keyOf s key); [eauto | discriminate].
    + intros (keys & [= <-] & Hin). apply hasKey_lookup in Hin.
      destruct Hin as (r & ->). reflexivity.
  - intros Hs. eexists. split; [reflexivity|].
    unfold sortedStore in Hs. induction Hs as [|x l _ IH Hall]; simpl.
    + constructor.
    + constructor; [exact IH|]. apply Forall_forall. intros k Hk.
      apply in_map_iff in Hk. destruct Hk as (y & <- & Hy).
      rewrite Forall_forall in Hall. now apply Hall.
Qed.

End ReadFacts.

(** ** Cursor scans *)

Section ScanFacts.
Context {R : Type} (keyOf : R -> jsstring).
Implicit Types (s : IndexedDB.Store R) (p : IndexedDB.SearchParams R).

Lemma cursorStep_passes p (item : R) (results : list R) :
  match IndexedDB.filter p with
  | None => results ++ [item]
  | Some f => if f item then results ++ [item] else results
  end = if passes p item then results ++ [item] else results.
Proof. unfold passes. now destruct (IndexedDB.filter p). Qed.

Lemma cursorLoop_unlimited p (cursor : list R) :
  IndexedDB.limit p = None \/ IndexedDB.limit p = Some 0 ->
  forall results,
    IndexedDB.cursorLoop p cursor results
    = results ++ List.filter (passes p) cursor.
Proof.
  intros Hl. induction cursor as [|x cursor IH]; intros results; simpl.
  - now rewrite app_nil_r.
  - rewrite cursorStep_passes.
    assert (Hno : forall l : list R,
               IndexedDB.limitReached (IndexedDB.limit p) l = false)
      by (intros l; destruct Hl as [-> | ->]; reflexivity).
    rewrite Hno, IH. destruct (passes p x); [|reflexivity].
    now rewrite <- app_assoc.
Qed.

Lemma cursorLoop_limited p n (cursor : list R) :
  IndexedDB.limit p = Some n -> 0 < n ->
  forall results, (length results < Z.to_nat n)%nat ->
    IndexedDB.cursorLoop p cursor results
    = results ++ firstn (Z.to_nat n - length results)
                   (List.filter (passes p) cursor).
Proof.
  intros Hl Hn. induction cursor as [|x cursor IH]; intros results Hlen;
    simpl.
  - now rewrite firstn_nil, app_nil_r.
  - rewrite cursorStep_passes, Hl. unfold IndexedDB.limitReached.
    destruct (Z.eqb_spec n 0) as [|_]; [lia|]. simpl.
    destruct (passes p x).
    + rewrite length_app. simpl.
      destruct (Z.leb_spec n (Z.of_nat (length results + 1))) as [Hr|Hr].
      * replace (Z.to_nat n - length results)%nat with 1%nat by lia.
        reflexivity.
      * rewrite IH by (rewrite length_app; simpl; lia).
        rewrite length_app, <- app_assoc. simpl.
        replace (Z.to_nat n - length results)%nat
          with (S (Z.to_nat n - (length results + 1)))%nat by lia.
        reflexivity.
    + destruct (Z.leb_spec n (Z.of_nat (length results))) as [Hr|Hr]; [lia|].
      now apply IH.
Qed.

Lemma cursorLoop_negative p n (cursor : list R) :
  IndexedDB.limit p = Some n -> n < 0 ->
  forall results,
    IndexedDB.cursorLoop p cursor results
    = match cursor with
      | [] => results
      | x :: _ => if passes p x then results ++ [x] else results
      end.
Proof.
  intros Hl Hn results. destruct cursor as [|x cursor]; [reflexivity|].
  cbn [IndexedDB.cursorLoop]. rewrite cursorStep_passes, Hl.
  unfold IndexedDB.limitReached.
  destruct (Z.eqb_spec n 0) as [|_]; [lia|]. cbn [negb andb].
  destruct (Z.leb_spec n (Z.of_nat
              (length (if passes p x then results ++ [x] else results))))
    as [_|Hr]; [reflexivity | lia].
Qed.

Lemma visited_stored p s x :
  In x (visited keyOf p s) ->
  In x s /\
  match IndexedDB.range p with
  | Some rg => inRange rg (keyOf x) = true
  | None => True
  end.
Proof.
  unfold visited, IndexedDB.openCursor.
  assert (H : forall l, In x (match match IndexedDB.direction p with
                                    | Some d => d
                                    | None => IndexedDB.next
                                    end with
                              | IndexedDB.next => l
                              | IndexedDB.prev => rev l
                              end) -> In x l).
  { intros l. destruct (IndexedDB.direction p) as [[|]|]; auto.
    intros Hin. now apply in_rev. }
  intros Hin. apply H in Hin.
  destruct (IndexedDB.range p) as [rg|]; [|auto].
  now apply filter_In in Hin.
Qed.

(** X11. A search with a limit above 0 returns the first [limit] of the
    visited records that pass the filter; without a limit, or with limit
    0, it returns all of them; with a limit below 0 it stops at the first
    record visited and returns it if it passes the filter. Whatever the
    parameters, every record returned is stored, lies in the range and
    passes the filter, and the store is left as it is. *)
Theorem search_limit p s :
  (forall n, IndexedDB.limit p = Some n -> 0 < n ->
     IndexedDB.search keyOf p s
     = (Resolved (firstn (Z.to_nat n)
                    (List.filter (passes p) (visited keyOf p s))), s)) /\
  (IndexedDB.limit p = None \/ IndexedDB.limit p = Some 0 ->
     IndexedDB.search keyOf p s
     = (Resolved (List.filter (passes p) (visited keyOf p s)), s)) /\
  (forall n, IndexedDB.limit p = Some n -> n < 0 ->
     IndexedDB.search keyOf p s
     = (Resolved match visited keyOf p s with
                 | [] => []
                 | x :: _ => if passes p x then [x] else []
                 end, s)) /\
  (forall rs s', IndexedDB.search keyOf p s = (Resolved rs, s') ->
     s' = s /\
     forall x, In x rs ->
       In x s /\ passes p x = true /\
       match IndexedDB.range p with
       | Some rg => inRange rg (keyOf x) = true
       | None => True
       end).
Proof.
  assert (H1 : forall n, IndexedDB.limit p = Some n -> 0 < n ->
     IndexedDB.search keyOf p s
     = (Resolved (firstn (Z.to_nat n)
                    (List.filter (passes p) (visited keyOf p s))), s)).
  { intros n Hl Hn. unfold IndexedDB.search. fold (visited keyOf p s).
    rewrite (cursorLoop_limited p n _ Hl Hn []) by (simpl; lia).
    simpl. now rewrite Nat.sub_0_r. }
  assert (H2 : IndexedDB.limit p = None \/ IndexedDB.limit p = Some 0 ->
     IndexedDB.search keyOf p s
     = (Resolved (List.filter (passes p) (visited keyOf p s)), s)).
  { intros Hl. unfold IndexedDB.search. fold (visited keyOf p s).
    now rewrite (cursorLoop_unlimited p _ Hl []). }
  assert (H3 : forall n, IndexedDB.limit p = Some n -> n < 0 ->
     IndexedDB.search keyOf p s
     = (Resolved match visited keyOf p s with
                 | [] => []
                 | x :: _ => if passes p x then [x] else []
                 end, s)).
  { intros n Hl Hn. unfold IndexedDB.search. fold (visited keyOf p s).
    rewrite (cursorLoop_negative p n _ Hl Hn []).
    destruct (visited keyOf p s) as [|x l]; [reflexivity|].
    now destruct (passes p x). }
  split; [exact H1|]. split; [exact H2|]. split; [exact H3|].
  intros rs s' Hrun.
  assert (Hsub : s' = s /\
                 forall x, In x rs ->
                   In x (List.filter (passes p) (visited keyOf p s))).
  { destruct (IndexedDB.limit p) as [n|] eqn:Hl.
    - destruct (Z.lt_trichotomy n 0) as [Hn|[Hn|Hn]].
      + rewrite (H3 n eq_refl Hn) in Hrun. injection Hrun as <- <-.
        split; [reflexivity|]. intros x.
        destruct (visited keyOf p s) as [|y l]; simpl; [tauto|].
        destruct (passes p y); simpl; tauto.
      + subst n. rewrite (H2 (or_intror eq_refl)) in Hrun.
        injection Hrun as <- <-. auto.
      + rewrite (H1 n eq_refl Hn) in Hrun. injection Hrun as <- <-.
        split; [reflexivity|]. intros x. apply firstn_In.
    - rewrite (H2 (or_introl eq_refl)) in Hrun.
      injection Hrun as <- <-. auto. }
  destruct Hsub as (-> & Hsub). split; [reflexivity|].
  intros x Hx. apply Hsub, filter_In in Hx. destruct Hx as (Hv & Hp).
  destruct (visited_stored p s x Hv). auto.
Qed.

Lemma filter_rev_comm {A : Type} (g : A -> bool) (l : list A) :
  List.filter g (rev l) = rev (List.filter g l).
Proof.
  induction l as [|x l IH]; simpl; [reflexivity|].
  rewrite filter_app, IH. simpl.
  destruct (g x); simpl; [reflexivity | now rewrite app_nil_r].
Qed.

(** X12. Without a limit, a search in direction [prev] returns the
    records a search in direction [next] returns, in the reverse order. *)
Theorem search_prev_reverses_next s (rg : option KeyRange)
  (f : option (R -> bool)) :
  fst (IndexedDB.search keyOf
         {| IndexedDB.range := rg; IndexedDB.limit := None;
            IndexedDB.direction := Some IndexedDB.prev;
            IndexedDB.filter := f |} s)
  = match fst (IndexedDB.search keyOf
                 {| IndexedDB.range := rg; IndexedDB.limit := None;
                    IndexedDB.direction := Some IndexedDB.next;
                    IndexedDB.filter := f |} s) with
    | Resolved rs => Resolved (rev rs)
    | Rejected e => Rejected e
    end.
Proof.
  unfold IndexedDB.search. cbn [fst IndexedDB.direction IndexedDB.range].
  rewrite !cursorLoop_unlimited by (left; reflexivity). simpl.
  f_equal. unfold IndexedDB.openCursor, passes. simpl.
  apply filter_rev_comm.
Qed.

Lemma inRange_only k x :
  inRange (createRange.only k) x = str_eqb x k.
Proof.
  unfold inRange, createRange.only, str_leb. simpl.
  destruct (str_eqb_spec x k) as [->|Hne].
  - now rewrite str_ltb_irrefl.
  - destruct (str_ltb x k) eqn:H1; [reflexivity|].
    assert (Hkx : str_eqb k x = false) by (apply str_eqb_neq; congruence).
    now rewrite (str_ltb_total _ _ H1 Hkx).
Qed.

(** X13. On a store in key order, a search of the range [only(k)] returns
    the record a read of [k] returns, and nothing when the read returns
    nothing. *)
Theorem search_only_agrees_with_get s k :
  sortedStore keyOf s ->
  IndexedDB.search keyOf (IndexedDB.rangeOnly (createRange.only k)) s
  = (Resolved match fst (IndexedDB.get keyOf k s) with
              | Resolved (Some r) => [r]
              | _ => []
              end, s).
Proof.
  intros Hs. rewrite search_rangeOnly. simpl. f_equal. f_equal.
  rewrite <- (filter_key_sorted keyOf s k Hs).
  apply filter_ext. intros x. apply inRange_only.
Qed.

End ScanFacts.

(** ** The edit distance *)

Lemma assign_at_length {A : Type} (l : list A) (n : nat) (v : A) :
  length l = n -> assign l n v = l ++ [v].
Proof.
  intros <-. induction l as [|x l IH]; simpl; [reflexivity | now rewrite IH].
Qed.

Lemma assign_middle {A : Type} (l : list A) (n : nat) (x v : A)
  (rest : list A) :
  length l = n -> assign (l ++ x :: rest) n v = l ++ v :: rest.
Proof.
  intros <-. induction l as [|y l IH]; simpl; [reflexivity | now rewrite IH].
Qed.

Lemma nth_middle_row {A : Type} (l : list A) (n : nat) (x d : A)
  (rest : list A) :
  length l = n -> nth n (l ++ x :: rest) d = x.
Proof.
  intros <-. induction l as [|y l IH]; simpl; [reflexivity | exact IH].
Qed.

Lemma nth_map_seq {A : Type} (f : nat -> A) (d : A) start len j :
  (j < len)%nat -> nth j (map f (seq start len)) d = f (start + j)%nat.
Proof.
  revert start j. induction len as [|len IH]; intros start j Hj; [lia|].
  destruct j as [|j]; simpl.
  - now rewrite Nat.add_0_r.
  - rewrite IH by lia. f_equal. lia.
Qed.

(** The first loop: one row [[i]] for every index of [a]. *)
Lemma init_rows k :
  fold_left (fun matrix i => assign matrix i [i]) (seq 0 k) []
  = map (fun i => [i]) (seq 0 k).
Proof.
  induction k as [|k IH]; [reflexivity|].
  rewrite seq_S, fold_left_app, IH, map_app. simpl.
  apply assign_at_length. now rewrite length_map, length_seq.
Qed.

(** The second loop: row 0 becomes the indices of [b]. *)
Lemma init_row0_from (row : list nat) k :
  fold_left (fun r j => assign r j j) (seq (length row) k) row
  = row ++ seq (length row) k.
Proof.
  revert row. induction k as [|k IH]; intros row; simpl.
  - now rewrite app_nil_r.
  - rewrite assign_at_length by reflexivity.
    replace (S (length row)) with (length (row ++ [length row]))
      by (rewrite length_app; simpl; lia).
    rewrite IH, <- app_assoc. reflexivity.
Qed.

Lemma init_row0 (rest : list (list nat)) k :
  fold_left (fun matrix j => assignEntry matrix 0 j j) (seq 0 (S k))
    ([0%nat] :: rest)
  = seq 0 (S k) :: rest.
Proof.
  assert (H : forall (cols : list nat) (row : list nat),
             fold_left (fun matrix j => assignEntry matrix 0 j j) cols
               (row :: rest)
             = fold_left (fun r j => assign r j j) cols row :: rest).
  { induction cols as [|j cols IH]; intros row; simpl; [reflexivity|].
    unfold assignEntry at 2. simpl. apply IH. }
  rewrite H. f_equal. simpl.
  exact (init_row0_from [0%nat] k).
Qed.

Section LevMatrix.
Context (a b : jsstring).

Lemma levEntry_step i j :
  levEntry a b (S i) (S j)
  = Nat.min (Nat.min (levEntry a b i (S j) + 1) (levEntry a b (S i) j + 1))
      (levEntry a b i j +
       (if N.eqb (charAt a i) (charAt b j) then 0 else 1))%nat.
Proof. reflexivity. Qed.

Lemma levEntry_col0 i : levEntry a b i 0 = i.
Proof. now destruct i. Qed.

(** The inner loop completes row [S i] from the rows above it. *)
Lemma fill_row i (done rest : list (list nat)) :
  done = map (levRow a b) (seq 0 (S i)) ->
  forall k j, (1 <= j)%nat -> (j + k = S (length b))%nat ->
    fold_left (levStep a b (S i)) (seq j k)
      (done ++ map (levEntry a b (S i)) (seq 0 j) :: rest)
    = done ++ map (levEntry a b (S i)) (seq 0 (j + k)) :: rest.
Proof.
  intros Hdone. assert (Hlen : length done = S i)
    by (rewrite Hdone, length_map, length_seq; reflexivity).
  induction k as [|k IH]; intros j Hj Hjk.
  - simpl. now rewrite Nat.add_0_r.
  - cbn [seq fold_left].
    assert (Habove : forall c, (c <= length b)%nat ->
              entry (done ++ map (levEntry a b (S i)) (seq 0 j) :: rest) i c
              = levEntry a b i c).
    { intros c Hc. unfold entry. rewrite app_nth1 by lia.
      rewrite Hdone. rewrite (nth_map_seq (levRow a b) [] 0 (S i) i) by lia.
      unfold levRow. simpl (0 + i)%nat.
      now rewrite (nth_map_seq _ 0%nat 0 (S (length b)) c) by lia. }
    assert (Hleft :
              entry (done ++ map (levEntry a b (S i)) (seq 0 j) :: rest)
                (S i) (j - 1)
              = levEntry a b (S i) (j - 1)).
    { unfold entry. rewrite (nth_middle_row done (S i) _ _ _ Hlen).
      now rewrite (nth_map_seq _ 0%nat 0 j (j - 1)) by lia. }
    assert (Hstep :
              levStep a b (S i)
                (done ++ map (levEntry a b (S i)) (seq 0 j) :: rest) j
              = done ++ map (levEntry a b (S i)) (seq 0 (S j)) :: rest).
    { unfold levStep. cbv zeta.
      replace (S i - 1)%nat with i by lia.
      rewrite (Habove j) by lia. rewrite (Habove (j - 1)%nat) by lia.
      rewrite Hleft.
      destruct j as [|j']; [lia|].
      replace (S j' - 1)%nat with j' by lia.
      rewrite <- levEntry_step.
      unfold assignEntry.
      rewrite (nth_middle_row done (S i) _ _ _ Hlen).
      rewrite (assign_middle done (S i) _ _ _ Hlen).
      do 2 f_equal.
      rewrite (seq_S (S j')), map_app. simpl (map _ [_]).
      apply assign_at_length. now rewrite length_map, length_seq. }
    rewrite Hstep. rewrite (IH (S j)); [|lia|lia].
    replace (S j + k)%nat with (j + S k)%nat by lia. reflexivity.
Qed.

(** The outer loop completes the rows one after the other. *)
Lemma fill_rows k : forall i, (i + k = length a)%nat ->
  fold_left
    (fun matrix i => fold_left (levStep a b i) (seq 1 (length b)) matrix)
    (seq (S i) k)
    (map (levRow a b) (seq 0 (S i)) ++ map (fun i => [i]) (seq (S i) k))
  = map (levRow a b) (seq 0 (S (i + k))).
Proof.
  induction k as [|k IH]; intros i Hik.
  - simpl. now rewrite app_nil_r, Nat.add_0_r.
  - change (seq (S i) (S k)) with (S i :: seq (S (S i)) k).
    rewrite map_cons. cbn [fold_left].
    pose proof (fill_row i (map (levRow a b) (seq 0 (S i)))
                  (map (fun i => [i]) (seq (S (S i)) k)) eq_refl
                  (length b) 1%nat (le_n 1) eq_refl) as Hrow.
    change (map (levEntry a b (S i)) (seq 0 1)) with [S i] in Hrow.
    rewrite Hrow.
    replace (map (levRow a b) (seq 0 (S i)) ++
             map (levEntry a b (S i)) (seq 0 (1 + length b)) ::
             map (fun i0 => [i0]) (seq (S (S i)) k))
      with (map (levRow a b) (seq 0 (S (S i))) ++
            map (fun i0 => [i0]) (seq (S (S i)) k)).
    + rewrite (IH (S i)) by lia.
      replace (S i + k)%nat with (i + S k)%nat by lia. reflexivity.
    + rewrite (seq_S (S i)), map_app, <- app_assoc. reflexivity.
Qed.

(** The code's distance is the last entry of the last row. *)
Lemma levenshteinDistance_entry :
  levenshteinDistance a b = levEntry a b (length a) (length b).
Proof.
  change (levenshteinDistance a b) with
    (entry
       (fold_left
          (fun matrix i =>
             fold_left (levStep a b i) (seq 1 (length b)) matrix)
          (seq 1 (length a))
          (fold_left (fun matrix j => assignEntry matrix 0 j j)
             (seq 0 (S (length b)))
             (fold_left (fun matrix i => assign matrix i [i])
                (seq 0 (S (length a))) [])))
       (length a) (length b)).
  rewrite init_rows.
  change (map (fun i => [i]) (seq 0 (S (length a))))
    with ([0%nat] :: map (fun i : nat => [i]) (seq 1 (length a))).
  rewrite (init_row0 (map (fun i => [i]) (seq 1 (length a))) (length b)).
  pose proof (fill_rows (length a) 0%nat eq_refl) as H.
  change (map (levRow a b) (seq 0 1)) with [levRow a b 0] in H.
  unfold levRow at 1 in H.
  replace (map (levEntry a b 0) (seq 0 (S (length b))))
    with (seq 0 (S (length b))) in H
    by (symmetry; apply map_id).
  cbn [app] in H. rewrite H. unfold entry.
  rewrite (nth_map_seq (levRow a b) [] 0 (S (0 + length a)) (length a))
    by lia.
  unfold levRow.
  now rewrite (nth_map_seq _ 0%nat 0 (S (length b)) (length b)) by lia.
Qed.

End LevMatrix.

Section LevFacts.
Context (a b : jsstring).

Lemma levEntry_upper i : forall j, (levEntry a b i j <= Nat.max i j)%nat.
Proof.
  induction i as [|i IHi]; intros j; [simpl; lia|].
  induction j as [|j IHj]; [rewrite levEntry_col0; lia|].
  rewrite levEntry_step. specialize (IHi j).
  destruct (N.eqb (charAt a i) (charAt b j)); lia.
Qed.

Lemma levEntry_lower i : forall j,
  (i <= j + levEntry a b i j)%nat /\ (j <= i + levEntry a b i j)%nat.
Proof.
  induction i as [|i IHi]; intros j; [simpl; lia|].
  induction j as [|j IHj]; [rewrite levEntry_col0; lia|].
  rewrite levEntry_step.
  pose proof (IHi j). pose proof (IHi (S j)).
  destruct (N.eqb (charAt a i) (charAt b j)); lia.
Qed.

Lemma levEntry_zero i : forall j,
  levEntry a b i j = 0%nat ->
  i = j /\ forall k, (k < i)%nat -> charAt a k = charAt b k.
Proof.
  induction i as [|i IHi]; intros j.
  - simpl. intros ->. split; [reflexivity | intros k Hk; lia].
  - destruct j as [|j]; [rewrite levEntry_col0; discriminate|].
    rewrite levEntry_step. intros H.
    destruct (N.eqb_spec (charAt a i) (charAt b j)) as [Hc|Hc]; [|lia].
    assert (H0 : levEntry a b i j = 0%nat) by lia.
    destruct (IHi j H0) as (-> & Hk). split; [reflexivity|].
    intros k Hlt. destruct (Nat.eq_dec k j) as [->|Hne]; [exact Hc|].
    apply Hk. lia.
Qed.

End LevFacts.

Lemma levEntry_diagonal (a : jsstring) i : levEntry a a i i = 0%nat.
Proof.
  induction i as [|i IH]; [reflexivity|].
  rewrite levEntry_step, IH, N.eqb_refl. lia.
Qed.

Lemma levEntry_sym (a b : jsstring) i : forall j,
  levEntry a b i j = levEntry b a j i.
Proof.
  induction i as [|i IHi]; intros j.
  - now rewrite levEntry_col0.
  - induction j as [|j IHj]; [now rewrite levEntry_col0|].
    rewrite !levEntry_step, IHj, (IHi j), (IHi (S j)), (N.eqb_sym (charAt a i)).
    lia.
Qed.

Lemma levEntry_zero_iff (a b : jsstring) :
  levEntry a b (length a) (length b) = 0%nat <-> a = b.
Proof.
  split.
  - intros H. destruct (levEntry_zero a b _ _ H) as (Hlen & Hk).
    apply (nth_ext a b 0%N 0%N Hlen). exact Hk.
  - intros <-. apply levEntry_diagonal.
Qed.

(** X14. The distance of two strings is 0 exactly when they are the same
    string. *)
Theorem levenshteinDistance_zero_iff_equal (a b : jsstring) :
  levenshteinDistance a b = 0%nat <-> a = b.
Proof. rewrite levenshteinDistance_entry. apply levEntry_zero_iff. Qed.

(** X15. The distance does not depend on the order of its arguments. *)
Theorem levenshteinDistance_symmetric (a b : jsstring) :
  levenshteinDistance a b = levenshteinDistance b a.
Proof. rewrite !levenshteinDistance_entry. apply levEntry_sym. Qed.

(** X16. The distance is at least the difference of the two lengths and at
    most the greater of them. *)
Theorem levenshteinDistance_bounds (a b : jsstring) :
  (length a - length b <= levenshteinDistance a b)%nat /\
  (length b - length a <= levenshteinDistance a b)%nat /\
  (levenshteinDistance a b <= Nat.max (length a) (length b))%nat.
Proof.
  rewrite levenshteinDistance_entry.
  pose proof (levEntry_upper a b (length a) (length b)).
  pose proof (levEntry_lower a b (length a) (length b)). lia.
Qed.

(** ** The similarity of a word and a term *)

Lemma ratio_bounds (d m : nat) :
  (0 < m)%nat -> (d <= m)%nat ->
  (0 <= inject_Z (Z.of_nat d) / inject_Z (Z.of_nat m) <= 1)%Q.
Proof.
  intros Hm Hd.
  assert (Hpos : (0 < inject_Z (Z.of_nat m))%Q).
  { change 0%Q with (inject_Z 0). rewrite <- Zlt_Qlt. lia. }
  split.
  - apply Qle_shift_div_l; [exact Hpos|]. rewrite Qmult_0_l.
    change 0%Q with (inject_Z 0). rewrite <- Zle_Qle. lia.
  - apply Qle_shift_div_r; [exact Hpos|]. rewrite Qmult_1_l.
    rewrite <- Zle_Qle. lia.
Qed.

Lemma ratio_zero (d m : nat) :
  (0 < m)%nat ->
  (inject_Z (Z.of_nat d) / inject_Z (Z.of_nat m) == 0)%Q <-> d = 0%nat.
Proof.
  intros Hm. unfold Qdiv, Qeq, Qmult, Qinv. simpl.
  destruct m as [|m]; [lia|]. simpl. split; intros H; [|subst d; reflexivity].
  destruct d as [|d]; [reflexivity|]. simpl in H. lia.
Qed.

Lemma similarity_between (word term : jsstring) :
  (0 < Nat.max (length word) (length term))%nat ->
  (0 <= IndexedDB.similarity word term <= 1)%Q.
Proof.
  intros Hm. unfold IndexedDB.similarity.
  assert (Hub : (levenshteinDistance word term <=
                 Nat.max (length word) (length term))%nat).
  { rewrite levenshteinDistance_entry.
    pose proof (levEntry_upper word term (length word) (length term)).
    lia. }
  destruct (ratio_bounds _ _ Hm Hub) as (H0 & H1). lra.
Qed.

Lemma similarity_one_iff (word term : jsstring) :
  (0 < Nat.max (length word) (length term))%nat ->
  (IndexedDB.similarity word term == 1)%Q <-> word = term.
Proof.
  intros Hm. unfold IndexedDB.similarity.
  pose proof (ratio_zero (levenshteinDistance word term) _ Hm) as Hz.
  rewrite <- levEntry_zero_iff, <- levenshteinDistance_entry, <- Hz.
  split; intros H; lra.
Qed.

(** X17. For a word and a term that are not both empty, the similarity
    lies between 0 and 1, and it is 1 exactly when the word is the
    term. *)
Theorem similarity_range (word term : jsstring) :
  (0 < Nat.max (length word) (length term))%nat ->
  (0 <= IndexedDB.similarity word term <= 1)%Q /\
  ((IndexedDB.similarity word term == 1)%Q <-> word = term).
Proof.
  intros Hm. split;
    [now apply similarity_between | now apply similarity_one_iff].
Qed.

(** ** The text search: what a term can score *)

Section ScoreFacts.
Context {R : Type}.
Context (fieldValue : R -> jsstring -> option jsstring).
Context (toLowerCase : jsstring -> jsstring).
Context (wholeWordTest : jsstring -> bool -> jsstring -> option bool).
Context (o : IndexedDB.SearchOptions).

Lemma getFuzzyMatchScore_between (text term : jsstring) :
  (3 < length term)%nat ->
  exists q,
    IndexedDB.getFuzzyMatchScore toLowerCase wholeWordTest o text term
      = Some q /\
    (0 <= q <= 1)%Q.
Proof.
  intros Hlen.
  destruct (getFuzzyMatchScore_long toLowerCase wholeWordTest o text term
              Hlen) as (q & Hq & H0 & _ & Hat).
  exists q. split; [exact Hq|]. split; [exact H0|].
  destruct Hat as [->|(w & _ & _ & ->)]; [lra|].
  apply similarity_between. lia.
Qed.

(** X18. A term of more than three units scores between 0 and 1; it
    scores 1 when the field value has a word equal to it and the threshold
    in force is at most 1, and it scores 0 on every field value when the
    threshold is above 1. *)
Theorem fuzzy_score_of_a_long_term (text term : jsstring) :
  (3 < length term)%nat ->
  exists q,
    IndexedDB.getFuzzyMatchScore toLowerCase wholeWordTest o text term
      = Some q /\
    (0 <= q <= 1)%Q /\
    (In term (splitWhiteSpace
                (if IndexedDB.caseSensitive o then text
                 else toLowerCase text)) ->
     (IndexedDB.threshold o <= 1)%Q -> (q == 1)%Q) /\
    ((1 < IndexedDB.threshold o)%Q -> q = 0%Q).
Proof.
  intros Hlen.
  destruct (getFuzzyMatchScore_between text term Hlen) as (q' & Hq' & Hr).
  destruct (getFuzzyMatchScore_long toLowerCase wholeWordTest o text term
              Hlen) as (q & Hq & H0 & Hub & Hat).
  assert (q' = q) by congruence. subst q'.
  exists q. split; [exact Hq|]. split; [exact Hr|]. split.
  - intros Hin Hthr.
    assert (H1 : (IndexedDB.similarity term term == 1)%Q)
      by (apply similarity_one_iff; [lia | reflexivity]).
    assert (Hc : candidate (IndexedDB.threshold o) term term)
      by (split; [lia | lra]).
    specialize (Hub term Hin Hc). lra.
  - intros Hthr. destruct Hat as [->|(w & _ & (_ & Hc) & ->)];
      [reflexivity|].
    assert (Hs : (0 <= IndexedDB.similarity w term <= 1)%Q)
      by (apply similarity_between; lia).
    lra.
Qed.

Lemma indicator_range (b : bool) :
  (0 <= IndexedDB.indicator b <= 1)%Q /\
  ((0 < IndexedDB.indicator b)%Q <-> b = true).
Proof.
  destruct b; simpl; split; try lra; split; intros H;
    try reflexivity; try lra; discriminate.
Qed.

Lemma getExactMatchScore_range text term sc :
  IndexedDB.getExactMatchScore toLowerCase wholeWordTest o text term = Some sc ->
  (0 <= sc <= 1)%Q.
Proof.
  unfold IndexedDB.getExactMatchScore.
  destruct (IndexedDB.matchWholeWord o).
  - destruct (wholeWordTest _ _ _) as [b0|]; [|discriminate].
    intros [= <-]. apply indicator_range.
  - intros [= <-]. apply indicator_range.
Qed.

Lemma termScore_range text term sc :
  IndexedDB.termScore toLowerCase wholeWordTest o text term = Some sc ->
  (0 <= sc <= 1)%Q.
Proof.
  unfold IndexedDB.termScore. destruct (IndexedDB.fuzzyMatch o);
    [|apply getExactMatchScore_range].
  destruct (Nat.leb_spec (length term) 3) as [Hs|Hl].
  - rewrite getFuzzyMatchScore_short by exact Hs.
    apply getExactMatchScore_range.
  - destruct (getFuzzyMatchScore_between text term Hl) as (q & -> & Hr).
    now intros [= <-].
Qed.

Lemma scoreTerms_range text (terms : list jsstring) : forall total q,
  IndexedDB.scoreTerms toLowerCase wholeWordTest o text terms total = Some q ->
  (total <= q <= total + inject_Z (Z.of_nat (length terms)))%Q /\
  ((total < q)%Q <->
   exists term sc,
     In term terms /\
     IndexedDB.termScore toLowerCase wholeWordTest o text term = Some sc /\
     (0 < sc)%Q).
Proof.
  induction terms as [|term terms IH]; intros total q.
  - simpl. intros [= <-]. change (inject_Z 0) with 0%Q.
    split; [lra|]. split; [lra|].
    intros (t & sc & [] & _).
  - cbn [IndexedDB.scoreTerms].
    destruct (IndexedDB.termScore toLowerCase wholeWordTest o text term)
      as [sc|] eqn:E; [|discriminate].
    intros H. destruct (IH _ _ H) as ((Hlo & Hhi) & Hiff).
    pose proof (termScore_range _ _ _ E) as Hsc.
    assert (Hn : (inject_Z (Z.of_nat (length (term :: terms)))
                  == 1 + inject_Z (Z.of_nat (length terms)))%Q).
    { cbn [length]. rewrite Nat2Z.inj_succ, <- Z.add_1_l, inject_Z_plus.
      reflexivity. }
    split; [rewrite Hn; lra|]. split.
    + intros Hlt. destruct (Qlt_le_dec 0 sc) as [Hpos|Hz].
      * exists term, sc. split; [now left | auto].
      * assert (Hrest : (total + sc < q)%Q) by lra.
        apply Hiff in Hrest. destruct Hrest as (t & sc' & Hin & Ht & Hp).
        exists t, sc'. split; [now right | auto].
    + intros (t & sc' & [<-|Hin] & Ht & Hp).
      * rewrite E in Ht. injection Ht as <-. lra.
      * assert (Hrest : (total + sc < q)%Q)
          by (apply Hiff; exists t, sc'; auto).
        lra.
Qed.

Lemma scoreFields_range it (fields terms : list jsstring) : forall total q,
  IndexedDB.scoreFields fieldValue toLowerCase wholeWordTest o it fields
    terms total = Some q ->
  (total <= q <= total + pairs (length fields) (length terms))%Q /\
  ((total < q)%Q <->
   someTermScores fieldValue toLowerCase wholeWordTest o it fields terms).
Proof.
  unfold someTermScores, pairs.
  induction fields as [|f fields IH]; intros total q.
  - simpl. intros [= <-]. change (inject_Z 0) with 0%Q.
    split; [lra|]. split; [lra|].
    intros (f & t & tm & sc & [] & _).
  - cbn [IndexedDB.scoreFields].
    assert (Hn : (inject_Z (Z.of_nat (length (f :: fields) * length terms))
                  == inject_Z (Z.of_nat (length terms)) +
                     inject_Z (Z.of_nat (length fields * length terms)))%Q).
    { cbn [length]. rewrite Nat.mul_succ_l, Nat.add_comm, Nat2Z.inj_add.
      rewrite inject_Z_plus. reflexivity. }
    assert (Hnn : (0 <= inject_Z (Z.of_nat (length terms)))%Q).
    { change 0%Q with (inject_Z 0). rewrite <- Zle_Qle. lia. }
    destruct (fieldValue it f) as [text|] eqn:Ef.
    + destruct (IndexedDB.scoreTerms toLowerCase wholeWordTest o text terms
                  total) as [q1|] eqn:Et; [|discriminate].
      intros H. destruct (IH _ _ H) as ((Hlo & Hhi) & Hiff).
      destruct (scoreTerms_range _ _ _ _ Et) as ((Hlo1 & Hhi1) & Hiff1).
      split; [rewrite Hn; lra|]. split.
      * intros Hlt. destruct (Qlt_le_dec total q1) as [Hpos|Hz].
        -- apply Hiff1 in Hpos. destruct Hpos as (t & sc & Hin & Ht & Hp).
           exists f, text, t, sc. split; [now left | auto].
        -- assert (Hrest : (q1 < q)%Q) by lra.
           apply Hiff in Hrest.
           destruct Hrest as (f' & tx & t & sc & Hin & Hrest).
           exists f', tx, t, sc. split; [now right | exact Hrest].
      * intros (f' & tx & t & sc & [<-|Hin] & Hfv & Hrest).
        -- rewrite Ef in Hfv. injection Hfv as <-.
           assert (Hpos : (total < q1)%Q)
             by (apply Hiff1; exists t, sc; exact Hrest).
           lra.
        -- assert (Hpos : (q1 < q)%Q)
             by (apply Hiff; exists f', tx, t, sc; auto).
           lra.
    + intros H. destruct (IH _ _ H) as ((Hlo & Hhi) & Hiff).
      split; [rewrite Hn; lra|]. rewrite Hiff. split.
      * intros (f' & tx & t & sc & Hin & Hrest).
        exists f', tx, t, sc. split; [now right | exact Hrest].
      * intros (f' & tx & t & sc & [<-|Hin] & Hfv & Hrest).
        -- rewrite Ef in Hfv. discriminate.
        -- exists f', tx, t, sc. auto.
Qed.

Lemma scoreItems_entries (items : list R) (fields terms : list jsstring) :
  forall results,
    IndexedDB.scoreItems fieldValue toLowerCase wholeWordTest o items fields
      terms = Some results ->
    (forall e, In e results ->
       In (IndexedDB.item e) items /\
       IndexedDB.scoreFields fieldValue toLowerCase wholeWordTest o
         (IndexedDB.item e) fields terms 0 = Some (IndexedDB.score e)) /\
    (forall it, In it items ->
       exists e, In e results /\ IndexedDB.item e = it).
Proof.
  induction items as [|it items IH]; intros results; simpl.
  - intros [= <-]. split; [intros e [] | intros it []].
  - destruct (IndexedDB.scoreFields fieldValue toLowerCase wholeWordTest o it
                fields terms 0) as [q|] eqn:E; [|discriminate].
    destruct (IndexedDB.scoreItems fieldValue toLowerCase wholeWordTest o
                items fields terms) as [rest|]; [|discriminate].
    simpl. intros [= <-]. destruct (IH rest eq_refl) as (Hs & Hc). split.
    + intros e [<-|He].
      * simpl. split; [now left | exact E].
      * destruct (Hs e He) as (Hi & Hsc). split; [now right | exact Hsc].
    + intros it' [<-|Hin].
      * eexists. split; [left; reflexivity | reflexivity].
      * destruct (Hc it' Hin) as (e & He & Hi). exists e.
        split; [now right | exact Hi].
Qed.

(** The entries of a resolved search, before the cut at the limit. *)
Lemma fullTextSearch_entries (s : IndexedDB.Store R)
  (query : jsstring) (fields : list jsstring) res s' :
  forallb isWhiteSpace query = false ->
  IndexedDB.fullTextSearch fieldValue toLowerCase wholeWordTest o query
    fields s = (Resolved res, s') ->
  exists results,
    IndexedDB.scoreItems fieldValue toLowerCase wholeWordTest o s fields
      (IndexedDB.queryTermsOf toLowerCase o query) = Some results /\
    (forall e, In e res ->
       In e results /\ (0 < IndexedDB.score e)%Q) /\
    (IndexedDB.optLimit o = None \/
     (exists n, IndexedDB.optLimit o = Some n /\ n <= 0) ->
     forall e, In e results -> (0 < IndexedDB.score e)%Q -> In e res).
Proof.
  intros Hq. unfold IndexedDB.fullTextSearch, bind, IndexedDB.getAll, ret,
    reject. rewrite isBlank_whitespace, Hq.
  destruct (IndexedDB.scoreItems _ _ _ _ _ _ _) as [results|];
    [|discriminate].
  set (kept := js_sort IndexedDB.byScoreDesc
                 (List.filter (fun r => Qltb 0 (IndexedDB.score r)) results)).
  assert (Hkept : forall e, In e kept <->
                    In e results /\ (0 < IndexedDB.score e)%Q).
  { intros e. unfold kept. rewrite <- Qltb_lt.
    rewrite <- (filter_In (fun r => Qltb 0 (IndexedDB.score r))). split.
    - apply Permutation_in. symmetry. apply js_sort_perm.
    - apply Permutation_in. apply js_sort_perm. }
  intros Hrun. exists results. split; [reflexivity|].
  destruct (IndexedDB.optLimit o) as [n|].
  - destruct (Z.ltb_spec 0 n) as [Hn|Hn]; injection Hrun as <- <-.
    + split.
      * intros e He. apply Hkept. eapply firstn_In; eauto.
      * intros [H|(m & [= <-] & Hm)]; [discriminate | lia].
    + split; [intros e He; now apply Hkept|].
      intros _ e He Hp. apply Hkept. auto.
  - injection Hrun as <- <-. split; [intros e He; now apply Hkept|].
    intros _ e He Hp. apply Hkept. auto.
Qed.

(** X19. The score of every entry of a search is at most the number of
    fields times the number of query terms. *)
Theorem fullTextSearch_score_bound (s : IndexedDB.Store R)
  (query : jsstring) (fields : list jsstring) res s' :
  forallb isWhiteSpace query = false ->
  IndexedDB.fullTextSearch fieldValue toLowerCase wholeWordTest o query
    fields s = (Resolved res, s') ->
  Forall
    (fun e =>
       (IndexedDB.score e <=
        pairs (length fields)
          (length (IndexedDB.queryTermsOf toLowerCase o query)))%Q)
    res.
Proof.
  intros Hq Hrun.
  destruct (fullTextSearch_entries s query fields res s' Hq Hrun)
    as (results & Hres & Hin & _).
  apply Forall_forall. intros e He. destruct (Hin e He) as (Her & _).
  destruct (scoreItems_entries _ _ _ _ Hres) as (Hs & _).
  destruct (Hs e Her) as (_ & Hsc).
  destruct (scoreFields_range _ _ _ _ _ Hsc) as ((_ & Hhi) & _). lra.
Qed.

(** X20. In a search without a limit, a record of the store is among the
    entries exactly when some query term scores above 0 on one of its
    string fields; in exact mode without whole-word matching, that is
    when some query term occurs in one of its string fields. *)
Theorem fullTextSearch_returns_the_matching_records
  (s : IndexedDB.Store R) (query : jsstring) (fields : list jsstring)
  res s' :
  forallb isWhiteSpace query = false ->
  IndexedDB.optLimit o = None ->
  IndexedDB.fullTextSearch fieldValue toLowerCase wholeWordTest o query
    fields s = (Resolved res, s') ->
  (forall it,
     (exists e, In e res /\ IndexedDB.item e = it) <->
     In it s /\
     someTermScores fieldValue toLowerCase wholeWordTest o it fields
       (IndexedDB.queryTermsOf toLowerCase o query)) /\
  (IndexedDB.fuzzyMatch o = false -> IndexedDB.matchWholeWord o = false ->
   forall it,
     (exists e, In e res /\ IndexedDB.item e = it) <->
     In it s /\
     someTermOccurs fieldValue toLowerCase o it fields
       (IndexedDB.queryTermsOf toLowerCase o query)).
Proof.
  intros Hq Hlim Hrun.
  destruct (fullTextSearch_entries s query fields res s' Hq Hrun)
    as (results & Hres & Hin & Hall).
  specialize (Hall (or_introl Hlim)).
  destruct (scoreItems_entries _ _ _ _ Hres) as (Hs & Hc).
  assert (Hgen : forall it,
     (exists e, In e res /\ IndexedDB.item e = it) <->
     In it s /\
     someTermScores fieldValue toLowerCase wholeWordTest o it fields
       (IndexedDB.queryTermsOf toLowerCase o query)).
  { intros it. split.
    - intros (e & He & <-). destruct (Hin e He) as (Her & Hp).
      destruct (Hs e Her) as (Hit & Hsc). split; [exact Hit|].
      now apply (scoreFields_range _ _ _ _ _ Hsc).
    - intros (Hit & Hsome). destruct (Hc it Hit) as (e & Her & <-).
      exists e. split; [|reflexivity]. apply Hall; [exact Her|].
      destruct (Hs e Her) as (_ & Hsc).
      now apply (scoreFields_range _ _ _ _ _ Hsc). }
  split; [exact Hgen|]. intros Hf Hw it. rewrite Hgen.
  unfold someTermScores, someTermOccurs, IndexedDB.termScore,
    IndexedDB.getExactMatchScore. rewrite Hf, Hw.
  split; intros (Hit & f & tx & t & Hrest); (split; [exact Hit|]).
  - destruct Hrest as (sc & Hf' & Hfv & Ht & [= <-] & Hp).
    exists f, tx, t.
    split; [exact Hf'|]. split; [exact Hfv|]. split; [exact Ht|].
    now apply indicator_range.
  - destruct Hrest as (Hf' & Hfv & Ht & Hinc).
    exists f, tx, t, (IndexedDB.indicator true). rewrite Hinc.
    split; [exact Hf'|]. split; [exact Hfv|]. split; [exact Ht|].
    split; reflexivity.
Qed.

End ScoreFacts.

(** ** The merge, category by category *)

Section JSMapMore.
Context {V : Type}.
Implicit Types (m : JSMap.t V) (k : jsstring) (v : V).

Lemma get_In m k v : JSMap.get m k = Some v -> In (k, v) m.
Proof.
  induction m as [|[k' v'] m IH]; simpl; [discriminate|].
  destruct (str_eqb_spec k' k) as [->|Hne].
  - intros [= ->]. now left.
  - intros H. right. now apply IH.
Qed.

Lemma In_get m k v :
  NoDup (JSMap.keys m) -> In (k, v) m -> JSMap.get m k = Some v.
Proof.
  induction m as [|[k' v'] m IH]; simpl; [tauto|].
  intros Hnd [[= -> ->]|Hin].
  - now rewrite str_eqb_refl.
  - inversion Hnd as [|? ? Hnotin Hnd']; subst.
    destruct (str_eqb_spec k' k) as [->|Hne]; [|now apply IH].
    exfalso. apply Hnotin. change k with (fst (k, v)). now apply in_map.
Qed.

Lemma keys_get m k : In k (JSMap.keys m) <-> JSMap.get m k <> None.
Proof.
  pose proof (get_None_keys m k) as H.
  destruct (JSMap.get m k) as [v|].
  - split; [intros _; discriminate|]. intros _.
    destruct (in_dec (list_eq_dec N.eq_dec) k (JSMap.keys m)) as [Hi|Hn];
      [exact Hi|].
    apply H in Hn. discriminate.
  - split; [|congruence]. intros Hi. exfalso. now apply H.
Qed.

End JSMapMore.

Lemma tally_nil_iff o ns : tally o ns = None <-> o = None /\ ns = [].
Proof.
  split.
  - destruct ns as [|n ns]; [simpl; auto|].
    rewrite tally_cons, tally_Some. discriminate.
  - now intros (-> & ->).
Qed.

Lemma get_mergeSlice_fold c items : forall st,
  let st' := fold_left mergeSlice items st in
  JSMap.get (categoryTotals st') c =
    tally (JSMap.get (categoryTotals st) c) (valuesIn c items) /\
  (NoDup (JSMap.keys (categoryTotals st)) ->
   NoDup (JSMap.keys (categoryTotals st'))).
Proof.
  induction items as [|it items IH]; intros st; simpl.
  - auto.
  - destruct (IH (mergeSlice st it)) as (Hg & Hnd). split.
    + rewrite Hg. unfold mergeSlice, valuesIn. simpl.
      destruct (str_eqb_spec (name it) c) as [->|Hne]; simpl.
      * now rewrite get_set_same.
      * now rewrite get_set_other.
    + intros H. apply Hnd. unfold mergeSlice. simpl.
      now apply NoDup_keys_set.
Qed.

Lemma get_mergeOne_fold c rs : forall st,
  let st' := fold_left mergeOne rs st in
  JSMap.get (categoryTotals st') c =
    tally (JSMap.get (categoryTotals st) c) (valuesAcross c rs) /\
  (NoDup (JSMap.keys (categoryTotals st)) ->
   NoDup (JSMap.keys (categoryTotals st'))).
Proof.
  induction rs as [|r rs IH]; intros st; simpl.
  - auto.
  - destruct (IH (mergeOne st r)) as (Hg & Hnd).
    destruct (get_mergeSlice_fold c (pieChart r) st) as (Hg1 & Hnd1).
    split.
    + rewrite Hg. unfold mergeOne at 1. simpl. rewrite Hg1.
      symmetry. apply tally_app.
    + intros H. apply Hnd. unfold mergeOne. simpl. auto.
Qed.

(** The merge of the integers: the merged slices have distinct names; a
    name is among them exactly when some input has a slice of that name;
    and the value of a merged slice is the sum of the values of the
    inputs' slices of its name. *)
Lemma merge_of_integers_slices (rs : list ReportData) :
  NoDup (map name (pieChart (mergeReportData rs))) /\
  (forall c, In c (map name (pieChart (mergeReportData rs))) <->
             valuesAcross c rs <> []) /\
  Forall (fun s => value s = categoryTotal (name s) rs)
    (pieChart (mergeReportData rs)).
Proof.
  unfold mergeReportData.
  set (st0 := {| categoryTotals := []; categoryActivities := [];
                 grandTotal := 0 |}).
  set (st := fold_left mergeOne rs st0). simpl.
  assert (Hkeys : map name
            (map (fun e => {| name := fst e; value := snd e |})
               (JSMap.entries (categoryTotals st))) =
          JSMap.keys (categoryTotals st)).
  { unfold JSMap.entries, JSMap.keys. rewrite map_map. reflexivity. }
  assert (Hnd : NoDup (JSMap.keys (categoryTotals st))).
  { apply (get_mergeOne_fold [] rs st0). constructor. }
  assert (Hget : forall c, JSMap.get (categoryTotals st) c =
                           tally None (valuesAcross c rs)).
  { intros c. apply (get_mergeOne_fold c rs st0). }
  rewrite Hkeys. split; [exact Hnd|]. split.
  - intros c. rewrite keys_get, Hget. split.
    + intros H E. apply H. now rewrite E.
    + intros H E. apply tally_nil_iff in E. tauto.
  - apply Forall_forall. intros s Hs. apply in_map_iff in Hs.
    destruct Hs as ((k & v) & <- & Hin). simpl.
    apply (In_get _ _ _ Hnd) in Hin. rewrite Hget in Hin.
    destruct (valuesAcross k rs) as [|n ns] eqn:E; [discriminate|].
    rewrite tally_None in Hin by discriminate.
    injection Hin as <-. unfold categoryTotal. now rewrite E.
Qed.

(** X21. Within the safe integers, the slices the merge of the code
    returns have distinct names; a name is among them exactly when some
    input has a slice of that name; and the value of a merged slice is
    the sum of the values of the inputs' slices of its name. *)
Theorem mergeReportData_slices (rs : list ReportData) :
  safeIntegers rs ->
  let out := Float64.mergeReportData (map asNumbers rs) in
  NoDup (map Float64.name (Float64.pieChart out)) /\
  (forall c, In c (map Float64.name (Float64.pieChart out)) <->
             valuesAcross c rs <> []) /\
  Forall (fun s => Float64.toInteger (Float64.value s)
                   = Some (categoryTotal (Float64.name s) rs))
    (Float64.pieChart out).
Proof.
  intros Hsafe out. unfold out. rewrite (mergeReportData_numbers rs Hsafe).
  destruct (merge_of_integers_slices rs) as (Hnd & Hin & Hval).
  cbn [mergedNumbers Float64.pieChart].
  assert (En : map Float64.name
                 (map sliceNumber (pieChart (mergeReportData rs)))
               = map name (pieChart (mergeReportData rs)))
    by (rewrite map_map; reflexivity).
  rewrite En. split; [exact Hnd|]. split; [exact Hin|].
  apply Forall_map. rewrite Forall_forall in *. intros s Hs.
  cbn [Float64.value Float64.name sliceNumber]. rewrite <- (Hval s Hs).
  apply toInteger_ofInteger, safe_below, (merged_values_safe rs s Hsafe Hs).
Qed.

(** X22. Within the safe integers, the quick report the merge of the
    code returns lists the categories of the merged slices, in their
    order, each with the percentage computed in binary64 from the value of
    its slice and from the grand total of the inputs' slice values, which
    the code has exactly. When that grand total is 0, no percentage of
    the quick report is a finite number; otherwise every one of them
    is. *)
Theorem mergeReportData_percents (rs : list ReportData) :
  safeIntegers rs ->
  let out := Float64.mergeReportData (map asNumbers rs) in
  exists total,
    Float64.toInteger total = Some (grandTotalOf rs) /\
    Float64.quickReport out =
      map (fun s =>
             Float64.QuickReportData.mk (Float64.name s)
               (Float64.percentOf (Float64.value s) total))
        (Float64.pieChart out) /\
    (grandTotalOf rs = 0 ->
     Forall
       (fun q =>
          PrimFloat.is_finite (Float64.QuickReportData.percent q)
          = false)
       (Float64.quickReport out)) /\
    (grandTotalOf rs <> 0 ->
     Forall
       (fun q =>
          PrimFloat.is_finite (Float64.QuickReportData.percent q)
          = true)
       (Float64.quickReport out)).
Proof.
  intros Hsafe out. unfold out. rewrite (mergeReportData_numbers rs Hsafe).
  destruct (mergeReportData_safe rs Hsafe) as (_ & Hg).
  exists (Float64.ofInteger (grandTotalOf rs)).
  cbn [mergedNumbers Float64.pieChart Float64.quickReport].
  split; [|split; [|split]].
  - apply toInteger_ofInteger, safe_below, Hg.
  - rewrite map_map. reflexivity.
  - intros H0. rewrite H0. apply Forall_map, Forall_forall. intros s Hs.
    cbn [Float64.QuickReportData.percent].
    rewrite percentOf_zero_total
      by (apply safe_below, (merged_values_safe rs s Hsafe Hs)).
    destruct (value s =? 0); [reflexivity|].
    destruct (0 <? value s); reflexivity.
  - intros Hne. apply Forall_map, Forall_forall. intros s Hs.
    cbn [Float64.QuickReportData.percent].
    apply percentOf_finite; [| |exact Hne]; apply safe_below;
      [exact (merged_values_safe rs s Hsafe Hs) | exact Hg].
Qed.

(** ** The merge: nothing but what the inputs hold *)

Lemma keys_mergeActivity_fold a xs : forall am,
  In a (JSMap.keys (fold_left mergeActivity xs am)) <->
  In a (JSMap.keys am) \/ In a (map activity xs).
Proof.
  intros am. rewrite !keys_get, get_mergeActivity_fold. split.
  - intros H. destruct (JSMap.get am a) as [v|] eqn:E; [left; congruence|].
    right. destruct (countsIn a xs) as [|n ns] eqn:Ec; [now elim H|].
    assert (Hin : In n (countsIn a xs)) by (rewrite Ec; now left).
    unfold countsIn in Hin. apply in_map_iff in Hin.
    destruct Hin as (x & _ & Hx). apply filter_In in Hx.
    destruct Hx as (Hx & Hax). apply str_eqb_eq in Hax. subst a.
    now apply in_map.
  - intros [H|H] E; apply tally_nil_iff in E; destruct E as (E1 & E2).
    + contradiction.
    + apply in_map_iff in H. destruct H as (x & <- & Hx).
      assert (Hin : In (count x) (countsIn (activity x) xs)).
      { unfold countsIn. apply in_map, filter_In. split; [exact Hx|].
        apply str_eqb_refl. }
      now rewrite E2 in Hin.
Qed.

Lemma keys_mergeDetail m d c :
  In c (JSMap.keys (mergeDetail m d)) <->
  In c (JSMap.keys m) \/ category d = c.
Proof.
  unfold mergeDetail, JSMap.has.
  destruct (JSMap.get m (category d)) as [am|] eqn:E; simpl.
  - rewrite ?E, keys_set. unfold JSMap.has. rewrite E. split; [tauto|].
    intros [H|<-]; [exact H|]. apply keys_get. congruence.
  - rewrite get_set_same, !keys_set. unfold JSMap.has.
    rewrite get_set_same, E, in_app_iff. simpl. tauto.
Qed.

Lemma keys_mergeDetail_fold ds c : forall m,
  In c (JSMap.keys (fold_left mergeDetail ds m)) <->
  In c (JSMap.keys m) \/ In c (map category ds).
Proof.
  induction ds as [|d ds IH]; intros m; simpl; [tauto|].
  rewrite IH, keys_mergeDetail. tauto.
Qed.

Lemma keys_mergeOne_fold rs c : forall st,
  In c (JSMap.keys (categoryActivities (fold_left mergeOne rs st))) <->
  In c (JSMap.keys (categoryActivities st)) \/ categoryAppearsIn c rs.
Proof.
  unfold categoryAppearsIn.
  induction rs as [|r rs IH]; intros st; simpl.
  - split; [tauto|]. intros [H|(r & d & [] & _)]. exact H.
  - rewrite IH. unfold mergeOne at 1. simpl.
    destruct (mergeSlice_fold (pieChart r) st) as (_ & _ & ->).
    rewrite keys_mergeDetail_fold. split.
    + intros [[H|H]|(r' & d & Hr & Hd)].
      * now left.
      * right. apply in_map_iff in H. destruct H as (d & <- & Hd).
        exists r, d. auto.
      * right. exists r', d. tauto.
    + intros [H|(r' & d & [<-|Hr] & Hd & Hc)].
      * now left; left.
      * left; right. rewrite <- Hc. now apply in_map.
      * right. exists r', d. auto.
Qed.

Lemma counts_appearsIn c a rs : countsAcross c a rs <> [] -> appearsIn c a rs.
Proof.
  intros H. destruct (countsAcross c a rs) as [|n ns] eqn:E; [now elim H|].
  assert (Hin : In n (countsAcross c a rs)) by (rewrite E; now left).
  unfold countsAcross in Hin. apply in_flat_map in Hin.
  destruct Hin as (r & Hr & Hin). apply in_flat_map in Hin.
  destruct Hin as (d & Hd & Hin). unfold countsOfDetail in Hin.
  destruct (str_eqb_spec (category d) c) as [Hc|_]; [|destruct Hin].
  unfold countsIn in Hin. apply in_map_iff in Hin.
  destruct Hin as (x & _ & Hx). apply filter_In in Hx.
  destruct Hx as (Hx & Hax). apply str_eqb_eq in Hax.
  exists r, d, x. auto.
Qed.

(** The merge of the integers: the merged detailed report holds nothing
    but what the inputs hold. *)
Lemma merge_of_integers_invents_nothing (rs : list ReportData) :
  let out := mergeReportData rs in
  NoDup (map category (detailedReport out)) /\
  (forall c, In c (map category (detailedReport out)) <->
             categoryAppearsIn c rs) /\
  Forall
    (fun d =>
       NoDup (map activity (activities d)) /\
       Forall
         (fun x =>
            appearsIn (category d) (activity x) rs /\
            count x = activityTotal (category d) (activity x) rs)
         (activities d))
    (detailedReport out).
Proof.
  unfold mergeReportData.
  set (st0 := {| categoryTotals := []; categoryActivities := [];
                 grandTotal := 0 |}).
  set (st := fold_left mergeOne rs st0). simpl.
  assert (H0 : distinctKeys (categoryActivities st0)) by (split; constructor).
  assert (Hd : distinctKeys (categoryActivities st)).
  { apply (mergeOne_fold_activities rs [] [] st0 H0). }
  destruct Hd as (Hk & Hin).
  assert (Hkeys : map category
            (map buildDetail (JSMap.entries (categoryActivities st))) =
          JSMap.keys (categoryActivities st)).
  { unfold JSMap.entries, JSMap.keys. rewrite map_map. reflexivity. }
  rewrite Hkeys. split; [exact Hk|]. split.
  - intros c. unfold st. rewrite keys_mergeOne_fold. simpl. tauto.
  - apply Forall_forall. intros d Hdin. apply in_map_iff in Hdin.
    destruct Hdin as ((c & am) & <- & He). simpl.
    assert (Ham : NoDup (JSMap.keys am)).
    { rewrite Forall_forall in Hin. exact (Hin _ He). }
    assert (Hperm : Permutation
              (map (fun p => {| activity := fst p; count := snd p |})
                 (JSMap.entries am))
              (js_sort byCountDesc
                 (map (fun p => {| activity := fst p; count := snd p |})
                    (JSMap.entries am)))) by apply js_sort_perm.
    split.
    + eapply Permutation_NoDup; [apply Permutation_map, Hperm|].
      rewrite map_map. exact Ham.
    + apply Forall_forall. intros x Hx.
      apply (Permutation_in _ (Permutation_sym Hperm)) in Hx.
      apply in_map_iff in Hx. destruct Hx as ((a & n) & <- & Hx). simpl.
      apply (In_get _ _ _ Ham) in Hx.
      apply (In_get _ _ _ Hk) in He.
      destruct (mergeOne_fold_activities rs c a st0 H0) as (_ & Hg).
      fold st in Hg. unfold get2 in Hg at 1. rewrite He, Hx in Hg.
      change (get2 (categoryActivities st0) c a) with (@None Z) in Hg.
      destruct (countsAcross c a rs) as [|m ms] eqn:E; [discriminate|].
      split.
      * apply counts_appearsIn. rewrite E. discriminate.
      * rewrite tally_None in Hg by discriminate.
        injection Hg as ->. unfold activityTotal. now rewrite E.
Qed.

(** X23. Within the safe integers, the detailed report the merge of the
    code returns holds nothing but what the inputs hold: its categories
    are distinct and are exactly the categories of the inputs' detailed
    entries; under a category, the activity names are distinct, and each
    one appears under that category in some input and carries the sum of
    its counts across all inputs. *)
Theorem mergeReportData_invents_nothing (rs : list ReportData) :
  safeIntegers rs ->
  let out := Float64.mergeReportData (map asNumbers rs) in
  NoDup (map Float64.category (Float64.detailedReport out)) /\
  (forall c, In c (map Float64.category (Float64.detailedReport out)) <->
             categoryAppearsIn c rs) /\
  Forall
    (fun d =>
       NoDup (map Float64.activity (Float64.activities d)) /\
       Forall
         (fun x =>
            appearsIn (Float64.category d) (Float64.activity x) rs /\
            Float64.toInteger (Float64.count x)
            = Some (activityTotal (Float64.category d)
                      (Float64.activity x) rs))
         (Float64.activities d))
    (Float64.detailedReport out).
Proof.
  intros Hsafe out. unfold out. rewrite (mergeReportData_numbers rs Hsafe).
  destruct (merge_of_integers_invents_nothing rs) as (Hnd & Hin & Hall).
  cbv zeta in Hnd, Hin, Hall.
  cbn [mergedNumbers Float64.detailedReport].
  assert (En : map Float64.category
                 (map detailNumbers (detailedReport (mergeReportData rs)))
               = map category (detailedReport (mergeReportData rs)))
    by (rewrite map_map; reflexivity).
  rewrite En. split; [exact Hnd|]. split; [exact Hin|].
  apply Forall_map. rewrite Forall_forall in *. intros d Hd.
  destruct (Hall d Hd) as (Hna & Hxs).
  cbn [Float64.activities Float64.category detailNumbers].
  split.
  - rewrite map_map. exact Hna.
  - apply Forall_map. rewrite Forall_forall in *. intros x Hx.
    destruct (Hxs x Hx) as (Happ & Hcount).
    cbn [Float64.activity Float64.count activityNumber].
    split; [exact Happ|]. rewrite <- Hcount.
    apply toInteger_ofInteger, safe_below.
    exact (merged_counts_safe rs d x Hsafe Hd Hx).
Qed.

(** ** The daily report data *)

Lemma countActivity_fold a xs : forall m,
  JSMap.get (fold_left countActivity xs m) a =
    tally (JSMap.get m a) (map (fun _ => 1) (List.filter (fun b => str_eqb b a) xs)) /\
  (NoDup (JSMap.keys m) -> NoDup (JSMap.keys (fold_left countActivity xs m))) /\
  zsum (map snd (fold_left countActivity xs m)) =
    zsum (map snd m) + Z.of_nat (length xs).
Proof.
  induction xs as [|x xs IH]; intros m.
  - simpl. repeat split; auto; lia.
  - cbn [fold_left]. destruct (IH (countActivity m x)) as (Hg & Hnd & Hs).
    split; [|split].
    + rewrite Hg. unfold countActivity. cbn [List.filter].
      destruct (str_eqb_spec x a) as [->|Hne].
      * now rewrite get_set_same.
      * now rewrite get_set_other.
    + intros H. apply Hnd. unfold countActivity. now apply NoDup_keys_set.
    + rewrite Hs. unfold countActivity. rewrite zsum_set.
      cbn [length]. lia.
Qed.

Lemma zsum_ones {A : Type} (l : list A) :
  zsum (map (fun _ => 1) l) = Z.of_nat (length l).
Proof. induction l as [|x l IH]; cbn [map zsum fold_right length]; [reflexivity|]. unfold zsum in IH. rewrite IH. lia. Qed.

Lemma tallyOf_addCategory (cd : CategoryData.t) :
  tallyOf cd
    {| category := CategoryData.category cd;
       activities :=
         js_sort byCountDesc
           (map (fun p => {| activity := fst p; count := snd p |})
              (JSMap.entries
                 (fold_left countActivity (CategoryData.activities cd)
                    []))) |}.
Proof.
  set (xs := CategoryData.activities cd).
  set (m := fold_left countActivity xs []).
  set (l := map (fun p => {| activity := fst p; count := snd p |})
              (JSMap.entries m)).
  assert (Hperm : Permutation l (js_sort byCountDesc l))
    by apply js_sort_perm.
  assert (Hg : forall a, JSMap.get m a =
             tally None (map (fun _ => 1)
                           (List.filter (fun b => str_eqb b a) xs))).
  { intros a. apply (countActivity_fold a xs []). }
  assert (Hnd : NoDup (JSMap.keys m)).
  { apply (countActivity_fold [] xs []). constructor. }
  assert (Hs : zsum (map snd m) = Z.of_nat (length xs)).
  { apply (countActivity_fold [] xs []). }
  assert (Hkeys : map activity l = JSMap.keys m).
  { unfold l, JSMap.entries, JSMap.keys. now rewrite map_map. }
  assert (Hcounts : map count l = map snd m).
  { unfold l, JSMap.entries. now rewrite map_map. }
  unfold tallyOf. cbn [category activities]. fold xs m l.
  split; [reflexivity|]. split; [|split; [|split; [|split]]].
  - eapply Permutation_NoDup; [apply Permutation_map, Hperm|].
    now rewrite Hkeys.
  - intros a. rewrite <- (Permutation_in' eq_refl
                            (Permutation_map activity Hperm)).
    rewrite Hkeys, keys_get, Hg. split.
    + intros H.
      destruct (List.filter (fun b => str_eqb b a) xs) as [|b bs] eqn:E;
        [now elim H|].
      assert (Hb : In b (List.filter (fun b => str_eqb b a) xs))
        by (rewrite E; now left).
      apply filter_In in Hb. destruct Hb as (Hb & Hba).
      apply str_eqb_eq in Hba. now subst b.
    + intros Hin E. apply tally_nil_iff in E. destruct E as (_ & E).
      apply map_eq_nil in E.
      assert (Ha : In a (List.filter (fun b => str_eqb b a) xs)).
      { apply filter_In. split; [exact Hin | apply str_eqb_refl]. }
      now rewrite E in Ha.
  - apply Forall_forall. intros x Hx.
    apply (Permutation_in _ (Permutation_sym Hperm)) in Hx.
    apply in_map_iff in Hx. destruct Hx as ((a & n) & <- & Hx).
    cbn [activity count fst snd].
    apply (In_get _ _ _ Hnd) in Hx. rewrite Hg in Hx. unfold occurrences.
    destruct (List.filter (fun b => str_eqb b a) xs) as [|b bs];
      [discriminate|].
    rewrite tally_None in Hx by discriminate.
    injection Hx as <-. exact (zsum_ones (b :: bs)).
  - apply byCountDesc_sorted.
  - rewrite <- (zsum_perm _ _ (Permutation_map count Hperm)).
    now rewrite Hcounts.
Qed.

Lemma addCategory_fold pd : forall st,
  let st' := fold_left addCategory pd st in
  statePieChart st' =
    statePieChart st ++
    map (fun cd => {| name := CategoryData.category cd;
                      value := Z.of_nat (length (CategoryData.activities cd)) |})
      pd /\
  stateDetailedReport st' =
    stateDetailedReport st ++
    map (fun cd =>
           {| category := CategoryData.category cd;
              activities :=
                js_sort byCountDesc
                  (map (fun p => {| activity := fst p; count := snd p |})
                     (JSMap.entries
                        (fold_left countActivity
                           (CategoryData.activities cd) []))) |})
      pd /\
  totalActivities st' =
    totalActivities st +
    zsum (map (fun cd => Z.of_nat (length (CategoryData.activities cd))) pd).
Proof.
  induction pd as [|cd pd IH]; intros st.
  - simpl. rewrite !app_nil_r. repeat split; lia.
  - cbn [fold_left]. destruct (IH (addCategory st cd)) as (Hp & Hd & Ht).
    cbv zeta. rewrite Hp, Hd, Ht. unfold addCategory.
    cbn [statePieChart stateDetailedReport totalActivities map].
    rewrite <- !app_assoc. split; [reflexivity|]. split; [reflexivity|].
    unfold zsum. cbn [fold_right]. lia.
Qed.

(** X24. The report data of a day: one slice and one detailed entry per
    category of the input, in the input's order; the slice counts the
    activities of the category; the detailed entry lists each distinct
    activity once, by descending count, with the number of times it occurs
    in the category, and these counts add up to the slice's value; and
    the slice values add up to the number of all activities. *)
Theorem generateReportData_tallies (processedData : list CategoryData.t) :
  let out := generateReportData processedData in
  Forall2 sliceOf processedData (pieChart out) /\
  Forall2 tallyOf processedData (detailedReport out) /\
  map QuickReportData.category (quickReport out) =
    map CategoryData.category processedData /\
  sumValues (pieChart out) =
    Z.of_nat (length (flat_map CategoryData.activities processedData)).
Proof.
  unfold generateReportData.
  set (st0 := {| statePieChart := []; stateDetailedReport := [];
                 totalActivities := 0 |}).
  destruct (addCategory_fold processedData st0) as (Hp & Hd & _).
  cbv zeta in Hp, Hd. cbn [pieChart quickReport detailedReport].
  rewrite Hp, Hd. cbn [statePieChart stateDetailedReport st0 app].
  split; [|split; [|split]].
  - clear. induction processedData as [|cd pd IH]; simpl; constructor.
    + split; reflexivity.
    + apply IH.
  - clear. induction processedData as [|cd pd IH]; simpl; constructor.
    + apply tallyOf_addCategory.
    + apply IH.
  - now rewrite !map_map.
  - unfold sumValues. rewrite map_map. cbn [value]. clear.
    induction processedData as [|cd pd IH]; [reflexivity|].
    cbn [map zsum fold_right flat_map]. unfold zsum in IH. rewrite IH.
    rewrite length_app. lia.
Qed.

(** ** Merging a single report *)

Section JSMapFresh.
Context {V : Type}.
Implicit Types (m : JSMap.t V) (k : jsstring) (v : V).

Lemma set_fresh m k v :
  JSMap.get m k = None -> JSMap.set m k v = m ++ [(k, v)].
Proof.
  induction m as [|[k' v'] m IH]; simpl; [reflexivity|].
  destruct (str_eqb k' k); [discriminate|].
  intros H. now rewrite IH.
Qed.

Lemma set_last m k v0 v :
  JSMap.get m k = None ->
  JSMap.set (m ++ [(k, v0)]) k v = m ++ [(k, v)].
Proof.
  induction m as [|[k' v'] m IH]; simpl.
  - now rewrite str_eqb_refl.
  - destruct (str_eqb k' k); [discriminate|].
    intros H. now rewrite IH.
Qed.

Lemma keys_app m m' : JSMap.keys (m ++ m') = JSMap.keys m ++ JSMap.keys m'.
Proof. apply map_app. Qed.

End JSMapFresh.

Lemma NoDup_app_cons_fresh {A : Type} (l1 l2 : list A) (x : A) :
  NoDup (l1 ++ x :: l2) -> ~ In x l1 /\ NoDup ((l1 ++ [x]) ++ l2).
Proof.
  intros H. split.
  - apply NoDup_remove_2 in H. intros Hin. apply H, in_or_app. now left.
  - now rewrite <- app_assoc.
Qed.

Lemma mergeSlice_fold_fresh items : forall st,
  NoDup (JSMap.keys (categoryTotals st) ++ map name items) ->
  categoryTotals (fold_left mergeSlice items st) =
    categoryTotals st ++ map (fun s => (name s, value s)) items.
Proof.
  induction items as [|it items IH]; intros st Hnd; cbn [fold_left map].
  - now rewrite app_nil_r.
  - cbn [map] in Hnd. apply NoDup_app_cons_fresh in Hnd.
    destruct Hnd as (Hfresh & Hnd). apply get_None_keys in Hfresh.
    assert (E : categoryTotals (mergeSlice st it) =
                categoryTotals st ++ [(name it, value it)]).
    { unfold mergeSlice. cbn [categoryTotals]. rewrite Hfresh.
      now rewrite set_fresh. }
    rewrite IH; rewrite E.
    + now rewrite <- app_assoc.
    + now rewrite keys_app.
Qed.

Lemma mergeActivity_fold_fresh xs : forall am,
  NoDup (JSMap.keys am ++ map activity xs) ->
  fold_left mergeActivity xs am =
    am ++ map (fun x => (activity x, count x)) xs.
Proof.
  induction xs as [|x xs IH]; intros am Hnd; cbn [fold_left map].
  - now rewrite app_nil_r.
  - cbn [map] in Hnd. apply NoDup_app_cons_fresh in Hnd.
    destruct Hnd as (Hfresh & Hnd). apply get_None_keys in Hfresh.
    assert (E : mergeActivity am x = am ++ [(activity x, count x)]).
    { unfold mergeActivity. rewrite Hfresh. now rewrite set_fresh. }
    rewrite IH; rewrite E.
    + now rewrite <- app_assoc.
    + now rewrite keys_app.
Qed.

Lemma mergeDetail_fold_fresh ds : forall m,
  NoDup (JSMap.keys m ++ map category ds) ->
  Forall (fun d => NoDup (map activity (activities d))) ds ->
  fold_left mergeDetail ds m =
    m ++ map (fun d => (category d,
                        map (fun x => (activity x, count x)) (activities d)))
           ds.
Proof.
  induction ds as [|d ds IH]; intros m Hnd Hall; cbn [fold_left map].
  - now rewrite app_nil_r.
  - cbn [map] in Hnd. apply NoDup_app_cons_fresh in Hnd.
    destruct Hnd as (Hfresh & Hnd). apply get_None_keys in Hfresh.
    inversion Hall as [|? ? Hd Hall']; subst.
    assert (E : mergeDetail m d =
                m ++ [(category d,
                       map (fun x => (activity x, count x))
                         (activities d))]).
    { unfold mergeDetail, JSMap.has. rewrite Hfresh. cbn [negb].
      rewrite get_set_same. rewrite (set_fresh m _ _ Hfresh).
      rewrite (set_last m _ _ _ Hfresh).
      now rewrite (mergeActivity_fold_fresh (activities d) []). }
    rewrite IH; rewrite ?E.
    + now rewrite <- app_assoc.
    + now rewrite keys_app.
    + exact Hall'.
Qed.

Lemma js_sort_descending l :
  countDescending l -> js_sort byCountDesc l = l.
Proof.
  induction 1 as [|x l Hs IH Hx]; [reflexivity|].
  cbn [js_sort fold_right]. fold (js_sort byCountDesc l). rewrite IH.
  destruct l as [|y l']; [reflexivity|]. cbn [sort_insert].
  inversion Hx as [|? ? Hy _]; subst. unfold byCountDesc.
  destruct (Z.ltb_spec 0 (count y - count x)); [lia | reflexivity].
Qed.

Lemma merge_single (r : ReportData) :
  selfConsistent r -> mergeReportData [r] = r.
Proof.
  intros (Hn & Hq & Hc & Hall). unfold mergeReportData.
  cbn [fold_left]. unfold mergeOne.
  cbn [categoryTotals categoryActivities grandTotal].
  set (st0 := {| categoryTotals := []; categoryActivities := [];
                 grandTotal := 0 |}).
  destruct (mergeSlice_fold (pieChart r) st0) as (Hg & _ & Hca).
  cbv zeta in Hg, Hca. rewrite Hg, Hca.
  rewrite (mergeSlice_fold_fresh (pieChart r) st0) by exact Hn.
  unfold st0. cbn [categoryTotals categoryActivities grandTotal app].
  rewrite (mergeDetail_fold_fresh (detailedReport r) []);
    [|exact Hc
     |eapply Forall_impl; [|exact Hall]; now intros d (H & _)].
  cbn [app].
  unfold JSMap.entries. rewrite !map_map. cbn [fst snd].
  destruct r as [pie quick det]. cbn [pieChart quickReport detailedReport] in *.
  subst quick. f_equal.
  - clear. induction pie as [|[n v] pie IH]; cbn [map];
      [reflexivity | now rewrite IH].
  - clear - Hall. induction Hall as [|[c xs] det (Hx & Hs) Hall IH];
      cbn [map]; [reflexivity|].
    rewrite IH. f_equal. unfold buildDetail. cbn [fst snd].
    unfold JSMap.entries. rewrite map_map. cbn [fst snd].
    cbn [activities category] in *. f_equal.
    replace (map (fun x => {| activity := activity x; count := count x |}) xs)
      with xs; [now apply js_sort_descending|].
    clear. induction xs as [|[a n] xs IH]; cbn [map];
      [reflexivity | now rewrite <- IH].
Qed.

Lemma generateReportData_selfConsistent pd :
  NoDup (map CategoryData.category pd) ->
  selfConsistent (generateReportData pd).
Proof.
  intros Hnd. unfold generateReportData.
  set (st0 := {| statePieChart := []; stateDetailedReport := [];
                 totalActivities := 0 |}).
  destruct (addCategory_fold pd st0) as (Hp & Hd & Ht).
  cbv zeta in Hp, Hd, Ht. unfold selfConsistent.
  cbn [pieChart quickReport detailedReport].
  rewrite Hp, Hd, Ht. cbn [statePieChart stateDetailedReport
                            totalActivities st0 app].
  split; [|split; [|split]].
  - now rewrite map_map.
  - unfold sumValues. rewrite !map_map. cbn [name value].
    now rewrite Z.add_0_l.
  - now rewrite map_map.
  - apply Forall_forall. intros d Hdin. apply in_map_iff in Hdin.
    destruct Hdin as (cd & <- & _).
    destruct (tallyOf_addCategory cd) as (_ & H1 & _ & _ & H2 & _).
    split; assumption.
Qed.

Lemma mergeReportData_selfConsistent rs :
  selfConsistent (mergeReportData rs).
Proof.
  unfold mergeReportData, selfConsistent.
  set (st0 := {| categoryTotals := []; categoryActivities := [];
                 grandTotal := 0 |}).
  set (st := fold_left mergeOne rs st0).
  cbn [pieChart quickReport detailedReport].
  assert (Hnd : NoDup (JSMap.keys (categoryTotals st))).
  { apply (get_mergeOne_fold [] rs st0). constructor. }
  assert (H0 : distinctKeys (categoryActivities st0)) by (split; constructor).
  destruct (mergeOne_fold_activities rs [] [] st0 H0) as ((Hk & Hin) & _).
  fold st in Hk, Hin.
  destruct (mergeOne_fold_totals rs st0) as (Hg & Hs).
  cbv zeta in Hg, Hs. fold st in Hg, Hs.
  assert (E : grandTotal st = zsum (map snd (categoryTotals st)))
    by (rewrite Hg, Hs; reflexivity).
  unfold JSMap.entries, JSMap.keys in *.
  split; [|split; [|split]].
  - now rewrite map_map.
  - unfold sumValues. rewrite !map_map. cbn [name value fst snd].
    rewrite E. reflexivity.
  - now rewrite map_map.
  - apply Forall_forall. intros d Hdin. apply in_map_iff in Hdin.
    destruct Hdin as ((c & am) & <- & He). unfold buildDetail.
    cbn [activities fst snd]. split; [|apply byCountDesc_sorted].
    eapply Permutation_NoDup;
      [apply Permutation_map, js_sort_perm|].
    rewrite map_map. cbn [activity fst].
    rewrite Forall_forall in Hin. exact (Hin _ He).
Qed.

(** The merge reads the slices and the detailed entries of its inputs,
    and nothing else of them. *)
Lemma mergeOne_reads st r r' :
  Float64.pieChart r = Float64.pieChart r' ->
  Float64.detailedReport r = Float64.detailedReport r' ->
  Float64.mergeOne st r = Float64.mergeOne st r'.
Proof. intros E1 E2. unfold Float64.mergeOne. now rewrite E1, E2. Qed.

(** X25. Within the safe integers merging is idempotent: the merge of the
    code, applied to the one report that it returned, returns that
    report, percentages included. *)
Theorem mergeReportData_idempotent (rs : list ReportData) :
  safeIntegers rs ->
  let once := Float64.mergeReportData (map asNumbers rs) in
  Float64.mergeReportData [once] = once.
Proof.
  intros Hsafe once. unfold once.
  rewrite (mergeReportData_numbers rs Hsafe).
  destruct (mergeReportData_safe rs Hsafe) as (Hsafe1 & _).
  assert (E : Float64.mergeReportData
                [mergedNumbers (grandTotalOf rs) (mergeReportData rs)]
              = Float64.mergeReportData (map asNumbers [mergeReportData rs])).
  { unfold Float64.mergeReportData. cbn [map fold_left].
    rewrite (mergeOne_reads _ _ (asNumbers (mergeReportData rs)));
      reflexivity. }
  rewrite E, (mergeReportData_numbers _ Hsafe1).
  rewrite (merge_single _ (mergeReportData_selfConsistent rs)).
  f_equal. unfold grandTotalOf at 1. cbn [map zsum fold_right].
  destruct (merge_of_integers_conserves rs) as (Hsum & _).
  rewrite Hsum. lia.
Qed.

(** X26. When the categories of a day are distinct, the merge of that
    day's report data alone is that report data: a yearly report made of
    one daily report shows what the daily report shows. *)
Theorem mergeReportData_of_one_day (processedData : list CategoryData.t) :
  NoDup (map CategoryData.category processedData) ->
  mergeReportData [generateReportData processedData] =
  generateReportData processedData.
Proof.
  intros Hnd. now apply merge_single, generateReportData_selfConsistent.
Qed.

(** ** Export and import *)

Section RestoreFacts.
Context {R : Type} (keyOf : R -> jsstring).

Lemma sorted_app_cons (l1 l2 : list R) (x : R) :
  sortedStore keyOf (l1 ++ x :: l2) ->
  Forall (fun r => str_ltb (keyOf r) (keyOf x) = true) l1.
Proof.
  unfold sortedStore. induction l1 as [|y l1 IH]; cbn [app]; intros H.
  - constructor.
  - inversion H as [|? ? Hs Hall]; subst. constructor; [|now apply IH].
    rewrite Forall_forall in Hall. apply Hall, in_or_app. right. now left.
Qed.

Lemma insert_above (s : list R) (item : R) :
  Forall (fun r => str_ltb (keyOf r) (keyOf item) = true) s ->
  IndexedDB.lookup keyOf s (keyOf item) = None /\
  IndexedDB.insert keyOf item s = s ++ [item].
Proof.
  induction 1 as [|r s Hr Hall (IH1 & IH2)]; cbn [IndexedDB.lookup
    IndexedDB.insert app]; [auto|].
  assert (Hne : str_eqb (keyOf r) (keyOf item) = false).
  { destruct (str_eqb_spec (keyOf r) (keyOf item)) as [E|E]; [|reflexivity].
    rewrite E, str_ltb_irrefl in Hr. discriminate. }
  assert (Hge : str_ltb (keyOf item) (keyOf r) = false).
  { destruct (str_ltb (keyOf item) (keyOf r)) eqn:E; [|reflexivity].
    pose proof (str_ltb_trans _ _ _ Hr E) as Hrr.
    rewrite str_ltb_irrefl in Hrr. discriminate. }
  rewrite Hne, Hge, IH1, IH2. auto.
Qed.

(** Records in ascending key order are added one behind the other. *)
Lemma addAll_ascending (items : list R) : forall s,
  sortedStore keyOf (s ++ items) ->
  IndexedDB.addAll keyOf items s = Some (s ++ items).
Proof.
  induction items as [|item items IH]; intros s Hs; cbn [IndexedDB.addAll].
  - now rewrite app_nil_r.
  - destruct (insert_above s item (sorted_app_cons _ _ _ Hs)) as (-> & ->).
    rewrite IH; rewrite <- app_assoc; [reflexivity | exact Hs].
Qed.

Lemma replaceStore_ascending (items s : list R) :
  sortedStore keyOf items ->
  replaceStore keyOf (Some items) s =
  (Resolved tt, match items with [] => s | _ :: _ => items end).
Proof.
  intros Hs. unfold replaceStore, ReportDatabase.present.
  destruct items as [|x items]; [reflexivity|].
  cbn [length Nat.ltb Nat.leb].
  now rewrite (addAll_ascending (x :: items) [] Hs).
Qed.

End RestoreFacts.

(** X27. What [exportAllReports] returns holds the two stores as they
    are and changes nothing; imported into any database, it resolves and
    puts each exported store that is not empty in the place of the
    target's, and leaves the target's store where the exported one is
    empty. Imported into the database it was exported from, it changes
    nothing. *)
Theorem export_then_import (db target : ReportDatabase.DB) :
  sortedStore DailyReport.id (ReportDatabase.dailyReports db) ->
  sortedStore YearlyReport.id (ReportDatabase.yearlyReports db) ->
  let e :=
    {| ReportDatabaseCalls.exportedDaily := ReportDatabase.dailyReports db;
       ReportDatabaseCalls.exportedYearly :=
         ReportDatabase.yearlyReports db |} in
  ReportDatabaseCalls.exportAllReports db = (Resolved e, db) /\
  ReportDatabase.importReports (ReportDatabaseCalls.asImportData e) target =
    (Resolved tt,
     {| ReportDatabase.dailyReports :=
          match ReportDatabase.dailyReports db with
          | [] => ReportDatabase.dailyReports target
          | _ :: _ => ReportDatabase.dailyReports db
          end;
        ReportDatabase.yearlyReports :=
          match ReportDatabase.yearlyReports db with
          | [] => ReportDatabase.yearlyReports target
          | _ :: _ => ReportDatabase.yearlyReports db
          end |}) /\
  ReportDatabase.importReports (ReportDatabaseCalls.asImportData e) db =
    (Resolved tt, db).
Proof.
  intros Hd Hy e. split; [now destruct db|].
  rewrite !importReports_run. unfold ReportDatabaseCalls.asImportData, e.
  cbn [ReportDatabase.importDaily ReportDatabase.importYearly
       ReportDatabaseCalls.exportedDaily ReportDatabaseCalls.exportedYearly].
  rewrite !(replaceStore_ascending DailyReport.id _ _ Hd).
  rewrite !(replaceStore_ascending YearlyReport.id _ _ Hy).
  split; [reflexivity|].
  destruct db as [[|d ds] [|y ys]]; reflexivity.
Qed.

(** ** Saving the report of the day *)

Lemma wellFormedId_year_prefix (s : jsstring) :
  wellFormedId s = true ->
  startsWith s (substringTo 4 s ++ js "-") = true.
Proof.
  unfold wellFormedId.
  destruct s as [|y1 [|y2 [|y3 [|y4 [|h1 [|m1 [|m2 [|h2 [|d1 [|d2
    [|? ?]]]]]]]]]]]; try discriminate.
  rewrite !andb_true_iff.
  intros [[[[[[[[[_ _] _] _] Hh] _] _] _] _] _].
  apply N.eqb_eq in Hh. subst h1.
  cbn [substringTo firstn app startsWith].
  now rewrite !N.eqb_refl.
Qed.

Lemma lookup_insert_In {R : Type} (keyOf : R -> jsstring) (s : list R) item :
  In item (IndexedDB.insert keyOf item s).
Proof.
  apply (lookup_In keyOf _ (keyOf item)). apply lookup_insert_same.
Qed.

Lemma insert_belowMaxChar (s : list DailyReport.t) item :
  belowMaxChar (DailyReport.id item) = true ->
  forallb (fun r => belowMaxChar (DailyReport.id r)) s = true ->
  Forall (fun r => belowMaxChar (DailyReport.id r) = true)
    (IndexedDB.insert DailyReport.id item s).
Proof.
  intros Hi Hs. rewrite forallb_forall in Hs. apply Forall_forall.
  intros r Hr.
  assert (Hk : hasKey DailyReport.id (IndexedDB.insert DailyReport.id item s)
                 (DailyReport.id r)) by (apply in_map, Hr).
  destruct (in_dec (fun a b => list_eq_dec N.eq_dec a b) (DailyReport.id r)
              [DailyReport.id item]) as [[E|[]]|Hn].
  - now rewrite <- E.
  - apply Hs. clear Hk.
    induction s as [|x s IH]; cbn [IndexedDB.insert] in Hr.
    + destruct Hr as [<-|[]]. elim Hn. now left.
    + destruct (str_ltb (DailyReport.id item) (DailyReport.id x)).
      * destruct Hr as [<-|Hr]; [elim Hn; now left | exact Hr].
      * destruct (str_eqb (DailyReport.id x) (DailyReport.id item)).
        -- destruct Hr as [<-|Hr]; [elim Hn; now left | now right].
        -- destruct Hr as [<-|Hr]; [now left|]. right. apply IH; [|exact Hr].
           intros y Hy. apply Hs. now right.
Qed.

(** The steps, run. *)
Lemma handleGenerateReport_save_run (overwrite : bool)
  (dateString : jsstring) (reportData : ReportData) db :
  wellFormedId dateString = true ->
  forallb (fun r => belowMaxChar (DailyReport.id r))
    (ReportDatabase.dailyReports db) = true ->
  let today := reportOfDay dateString reportData in
  let year := substringTo 4 dateString in
  let saved := IndexedDB.insert DailyReport.id today
                 (ReportDatabase.dailyReports db) in
  let db1 := {| ReportDatabase.dailyReports := saved;
                ReportDatabase.yearlyReports :=
                  ReportDatabase.yearlyReports db |} in
  handleGenerateReport_save overwrite dateString reportData db =
  if negb overwrite &&
     match IndexedDB.lookup DailyReport.id (ReportDatabase.dailyReports db)
             dateString with
     | Some _ => true
     | None => false
     end
  then (Rejected (ConstraintError dateString), db)
  else if (365 <=? length saved)%nat then
    match IndexedDB.lookup YearlyReport.id (ReportDatabase.yearlyReports db)
            year with
    | Some _ => (Rejected (ConstraintError year), db1)
    | None =>
        (Resolved tt,
         {| ReportDatabase.dailyReports := [];
            ReportDatabase.yearlyReports :=
              IndexedDB.insert YearlyReport.id (yearlyOf year saved)
                (ReportDatabase.yearlyReports db) |})
    end
  else (Resolved tt, db1).
Proof.
  intros Hwf Hids today year saved db1.
  assert (Hgen : ReportDatabase.generateYearlyReport year db1 =
                 (Resolved (yearlyOf year saved), db1)).
  { rewrite generateYearlyReport_run.
    - unfold yearlyOf. cbn [ReportDatabase.dailyReports db1].
      destruct (List.filter
                  (fun r => startsWith (DailyReport.id r) (year ++ js "-"))
                  saved) as [|r l] eqn:E; [|reflexivity].
      exfalso.
      assert (Hin : In today
                (List.filter
                   (fun r => startsWith (DailyReport.id r) (year ++ js "-"))
                   saved)).
      { apply filter_In. split; [apply lookup_insert_In|].
        now apply wellFormedId_year_prefix. }
      now rewrite E in Hin.
    - apply insert_belowMaxChar; [|exact Hids].
      now apply wellFormedId_belowMaxChar. }
  assert (Hsave :
      ((reportCount <- ReportDatabaseCalls.getDailyReportCount ;;
        if (365 <=? reportCount)%nat then
          yearlyReport <- ReportDatabase.generateYearlyReport year ;;
          ReportDatabase.addYearlyReport yearlyReport ;;
          ReportDatabase.onDaily IndexedDB.clear
        else ret tt)%op db1) =
      if (365 <=? length saved)%nat then
        match IndexedDB.lookup YearlyReport.id
                (ReportDatabase.yearlyReports db) year with
        | Some _ => (Rejected (ConstraintError year), db1)
        | None =>
            (Resolved tt,
             {| ReportDatabase.dailyReports := [];
                ReportDatabase.yearlyReports :=
                  IndexedDB.insert YearlyReport.id (yearlyOf year saved)
                    (ReportDatabase.yearlyReports db) |})
        end
      else (Resolved tt, db1)).
  { unfold bind at 1.
    unfold ReportDatabaseCalls.getDailyReportCount, ReportDatabase.onDaily,
      IndexedDBReads.count. cbn [ReportDatabase.dailyReports db1].
    destruct (365 <=? length saved)%nat; [|reflexivity].
    unfold bind at 1.
    change {| ReportDatabase.dailyReports := saved;
              ReportDatabase.yearlyReports :=
                ReportDatabase.yearlyReports db1 |} with db1.
    rewrite Hgen.
    unfold bind, ReportDatabase.addYearlyReport, ReportDatabase.onYearly,
      ReportDatabase.onDaily, IndexedDB.add, IndexedDB.clear.
    cbn [ReportDatabase.dailyReports ReportDatabase.yearlyReports db1
         YearlyReport.id yearlyOf].
    now destruct (IndexedDB.lookup YearlyReport.id
                    (ReportDatabase.yearlyReports db) year). }
  unfold handleGenerateReport_save. fold today year. unfold bind at 1.
  destruct overwrite; cbn [negb andb].
  - unfold ReportDatabase.updateDailyReport, ReportDatabase.onDaily,
      IndexedDB.put. fold saved db1. exact Hsave.
  - unfold ReportDatabase.addDailyReport, ReportDatabase.onDaily,
      IndexedDB.add. cbn [DailyReport.id today reportOfDay].
    destruct (IndexedDB.lookup DailyReport.id
                (ReportDatabase.dailyReports db) dateString) eqn:E.
    + now destruct db.
    + fold today saved db1. exact Hsave.
Qed.

(** X28. The rollover. When the report of the day brings the daily store
    to 365 reports or more and no yearly report of the day's year is
    stored, the steps resolve; the yearly store gains the yearly report
    made of the daily reports of that year, the day's among them; and the
    daily store is left empty, the reports of other years included, which
    no yearly report holds. *)
Theorem handleGenerateReport_rollover (overwrite : bool)
  (dateString : jsstring) (reportData : ReportData) db :
  wellFormedId dateString = true ->
  forallb (fun r => belowMaxChar (DailyReport.id r))
    (ReportDatabase.dailyReports db) = true ->
  (overwrite = false ->
   IndexedDB.lookup DailyReport.id (ReportDatabase.dailyReports db)
     dateString = None) ->
  IndexedDB.lookup YearlyReport.id (ReportDatabase.yearlyReports db)
    (substringTo 4 dateString) = None ->
  let saved := IndexedDB.insert DailyReport.id
                 (reportOfDay dateString reportData)
                 (ReportDatabase.dailyReports db) in
  (365 <=? length saved)%nat = true ->
  handleGenerateReport_save overwrite dateString reportData db =
    (Resolved tt,
     {| ReportDatabase.dailyReports := [];
        ReportDatabase.yearlyReports :=
          IndexedDB.insert YearlyReport.id
            (yearlyOf (substringTo 4 dateString) saved)
            (ReportDatabase.yearlyReports db) |}) /\
  In (reportOfDay dateString reportData)
    (List.filter
       (fun r => startsWith (DailyReport.id r)
                   (substringTo 4 dateString ++ js "-"))
       saved).
Proof.
  intros Hwf Hids Hnew Hyear saved Hcount. split.
  - rewrite (handleGenerateReport_save_run _ _ _ _ Hwf Hids). cbv zeta.
    fold saved. rewrite Hcount, Hyear.
    destruct overwrite; [reflexivity|]. now rewrite (Hnew eq_refl).
  - apply filter_In. split; [apply lookup_insert_In|].
    now apply wellFormedId_year_prefix.
Qed.

(** X29. Below the rollover. When the report of the day leaves the daily
    store with fewer than 365 reports, the steps resolve and change the
    record of the day only: the yearly store and every other daily report
    stay as they were. *)
Theorem handleGenerateReport_below_rollover (overwrite : bool)
  (dateString : jsstring) (reportData : ReportData) db :
  wellFormedId dateString = true ->
  forallb (fun r => belowMaxChar (DailyReport.id r))
    (ReportDatabase.dailyReports db) = true ->
  (overwrite = false ->
   IndexedDB.lookup DailyReport.id (ReportDatabase.dailyReports db)
     dateString = None) ->
  (length (IndexedDB.insert DailyReport.id
             (reportOfDay dateString reportData)
             (ReportDatabase.dailyReports db)) <? 365)%nat = true ->
  exists db',
    handleGenerateReport_save overwrite dateString reportData db =
      (Resolved tt, db') /\
    ReportDatabase.yearlyReports db' = ReportDatabase.yearlyReports db /\
    IndexedDB.lookup DailyReport.id (ReportDatabase.dailyReports db')
      dateString = Some (reportOfDay dateString reportData) /\
    forall id, id <> dateString ->
      IndexedDB.lookup DailyReport.id (ReportDatabase.dailyReports db') id =
      IndexedDB.lookup DailyReport.id (ReportDatabase.dailyReports db) id.
Proof.
  intros Hwf Hids Hnew Hcount.
  rewrite (handleGenerateReport_save_run _ _ _ _ Hwf Hids). cbv zeta.
  apply Nat.ltb_lt in Hcount.
  destruct (Nat.leb_spec 365
              (length (IndexedDB.insert DailyReport.id
                         (reportOfDay dateString reportData)
                         (ReportDatabase.dailyReports db)))) as [Hle|_];
    [lia|].
  assert (E : negb overwrite &&
              match IndexedDB.lookup DailyReport.id
                      (ReportDatabase.dailyReports db) dateString with
              | Some _ => true
              | None => false
              end = false).
  { destruct overwrite; [reflexivity|]. now rewrite (Hnew eq_refl). }
  rewrite E. eexists. split; [reflexivity|].
  cbn [ReportDatabase.dailyReports ReportDatabase.yearlyReports].
  split; [reflexivity|]. split.
  - exact (lookup_insert_same DailyReport.id _
             (reportOfDay dateString reportData)).
  - intros id Hid.
    apply (lookup_insert_other DailyReport.id). exact Hid.
Qed.

(** X30. A day that has its report already. Without [overwrite] and
    without a confirmed overwrite, the check ends the handler before
    anything is saved: the steps resolve and the database is unchanged,
    whatever report was to be made. With the overwrite confirmed but
    [overwrite] not set, the save is reached and is rejected, and nothing
    is changed. At the rollover, a stored yearly report of the day's year
    makes the steps reject after the day's report was saved: the daily
    store keeps all its reports, the yearly store is unchanged. *)
Theorem handleGenerateReport_existing_reports
  (dateString : jsstring) (reportData : ReportData) db :
  wellFormedId dateString = true ->
  forallb (fun r => belowMaxChar (DailyReport.id r))
    (ReportDatabase.dailyReports db) = true ->
  ((exists r, IndexedDB.lookup DailyReport.id
                (ReportDatabase.dailyReports db) dateString = Some r) ->
   (forall generated,
      handleGenerateReport_database false false dateString generated db
      = (Resolved tt, db)) /\
   handleGenerateReport_database false true dateString (Some reportData) db
   = (Rejected (ConstraintError dateString), db)) /\
  (forall overwrite confirmOverwrite,
     (overwrite = false ->
      IndexedDB.lookup DailyReport.id (ReportDatabase.dailyReports db)
        dateString = None) ->
     (365 <=? length (IndexedDB.insert DailyReport.id
                        (reportOfDay dateString reportData)
                        (ReportDatabase.dailyReports db)))%nat = true ->
     (exists y, IndexedDB.lookup YearlyReport.id
                  (ReportDatabase.yearlyReports db)
                  (substringTo 4 dateString) = Some y) ->
     handleGenerateReport_database overwrite confirmOverwrite dateString
       (Some reportData) db =
       (Rejected (ConstraintError (substringTo 4 dateString)),
        {| ReportDatabase.dailyReports :=
             IndexedDB.insert DailyReport.id
               (reportOfDay dateString reportData)
               (ReportDatabase.dailyReports db);
           ReportDatabase.yearlyReports :=
             ReportDatabase.yearlyReports db |})).
Proof.
  intros Hwf Hids.
  assert (Hcheck : forall overwrite confirmOverwrite,
    handleGenerateReport_check overwrite confirmOverwrite dateString db =
    (Resolved
       (negb (negb overwrite && negb confirmOverwrite &&
              match IndexedDB.lookup DailyReport.id
                      (ReportDatabase.dailyReports db) dateString with
              | Some _ => true
              | None => false
              end)), db)).
  { intros overwrite confirmOverwrite.
    unfold handleGenerateReport_check, bind, ret,
      ReportDatabase.getDailyReport, ReportDatabase.onDaily, IndexedDB.get.
    destruct db as [d y]. clear Hids.
    destruct overwrite, confirmOverwrite; cbn; try reflexivity.
    destruct (IndexedDB.lookup DailyReport.id d dateString); reflexivity. }
  split.
  - intros (r & Hr). split.
    + intros generated. unfold handleGenerateReport_database, bind.
      rewrite Hcheck, Hr. reflexivity.
    + unfold handleGenerateReport_database, bind.
      rewrite Hcheck. cbn [negb andb].
      rewrite (handleGenerateReport_save_run _ _ _ _ Hwf Hids). cbv zeta.
      now rewrite Hr.
  - intros overwrite confirmOverwrite Hnew Hcount (y & Hy).
    unfold handleGenerateReport_database, bind. rewrite Hcheck.
    assert (E : negb overwrite &&
                match IndexedDB.lookup DailyReport.id
                        (ReportDatabase.dailyReports db) dateString with
                | Some _ => true
                | None => false
                end = false).
    { destruct overwrite; [reflexivity|]. now rewrite (Hnew eq_refl). }
    assert (E' : negb overwrite && negb confirmOverwrite &&
                 match IndexedDB.lookup DailyReport.id
                         (ReportDatabase.dailyReports db) dateString with
                 | Some _ => true
                 | None => false
                 end = false).
    { destruct overwrite; [reflexivity|]. rewrite (Hnew eq_refl).
      now destruct confirmOverwrite. }
    rewrite E'. cbn [negb].
    rewrite (handleGenerateReport_save_run _ _ _ _ Hwf Hids). cbv zeta.
    now rewrite E, Hcount, Hy.
Qed.

(** * The further properties at sample inputs *)

(** Adding the report of a stored day is rejected. *)
Lemma add_rejects_iff_present_witness :
  let s := ReportDatabase.dailyReports threeDays in
  hasKey DailyReport.id s (js "2024-01-15") /\
  IndexedDB.add DailyReport.id (workDay "2024-01-15") s
    = (Rejected (ConstraintError (js "2024-01-15")), s).
Proof.
  intros s.
  assert (H : hasKey DailyReport.id s (js "2024-01-15"))
    by (right; left; reflexivity).
  split; [exact H|].
  destruct (add_rejects_iff_present DailyReport.id s (workDay "2024-01-15"))
    as (_ & Hr).
  destruct (Hr H) as (Hadd & _). exact Hadd.
Defined.

(** Putting the report of a new day makes the store one record longer. *)
Lemma put_touches_its_key_only_witness :
  let s := ReportDatabase.dailyReports threeDays in
  ~ hasKey DailyReport.id s (js "2024-01-20") /\
  length (snd (IndexedDB.put DailyReport.id (workDay "2024-01-20") s))
    = 4%nat.
Proof.
  intros s.
  assert (H : ~ hasKey DailyReport.id s (js "2024-01-20")).
  { intros [H|[H|[H|[]]]]; discriminate H. }
  split; [exact H|].
  destruct (put_touches_its_key_only DailyReport.id s (workDay "2024-01-20"))
    as (_ & _ & _ & Hlen).
  exact (Hlen H).
Defined.

(** Deleting a day that is not stored leaves the store as it is. *)
Lemma delete_touches_its_key_only_witness :
  let s := ReportDatabase.dailyReports threeDays in
  ~ hasKey DailyReport.id s (js "2023-01-01") /\
  snd (IndexedDB.delete DailyReport.id (js "2023-01-01") s) = s.
Proof.
  intros s.
  assert (H : ~ hasKey DailyReport.id s (js "2023-01-01")).
  { intros [H|[H|[H|[]]]]; discriminate H. }
  split; [exact H|].
  destruct (delete_touches_its_key_only DailyReport.id s (js "2023-01-01"))
    as (_ & _ & _ & Hsame).
  exact (Hsame H).
Defined.

(** Updating 15 January into the report of 1 March keeps 15 January and
    stores 1 March beside it. *)
Lemma update_cannot_move_a_record_witness :
  let s := ReportDatabase.dailyReports threeDays in
  exists s',
    IndexedDB.update DailyReport.id (js "2024-01-15")
      (fun _ => workDay "2024-03-01") s
      = (Resolved (workDay "2024-03-01"), s') /\
    IndexedDB.lookup DailyReport.id s' (js "2024-01-15")
      = Some (workDay "2024-01-15") /\
    IndexedDB.lookup DailyReport.id s' (js "2024-03-01")
      = Some (workDay "2024-03-01").
Proof.
  intros s.
  assert (Hcur : IndexedDB.lookup DailyReport.id s (js "2024-01-15")
                 = Some (workDay "2024-01-15")) by reflexivity.
  assert (Hkey : DailyReport.id ((fun _ : DailyReport.t => workDay "2024-03-01")
                                   (workDay "2024-01-15"))
                 <> js "2024-01-15") by discriminate.
  exact (update_cannot_move_a_record DailyReport.id s (js "2024-01-15")
           (fun _ => workDay "2024-03-01") (workDay "2024-01-15") Hcur Hkey).
Defined.

(** Retitling 15 January replaces it where it stands. *)
Lemma update_in_place_witness :
  let s := ReportDatabase.dailyReports threeDays in
  exists s',
    IndexedDB.update DailyReport.id (js "2024-01-15")
      (fun _ => titled "2024-01-15" "edited") s
      = (Resolved (titled "2024-01-15" "edited"), s') /\
    map DailyReport.id s' = map DailyReport.id s.
Proof.
  intros s.
  assert (Hs : sortedStore DailyReport.id s) by (repeat constructor).
  assert (Hcur : IndexedDB.lookup DailyReport.id s (js "2024-01-15")
                 = Some (workDay "2024-01-15")) by reflexivity.
  destruct (update_in_place DailyReport.id s (js "2024-01-15")
              (fun _ => titled "2024-01-15" "edited") (workDay "2024-01-15")
              Hs Hcur eq_refl) as (s' & Hrun & Hkeys & _).
  exists s'. split; [exact Hrun | exact Hkeys].
Defined.

(** Retitling 15 January twice is retitling it once with the last
    title. *)
Lemma update_twice_is_update_by_composition_witness :
  let s := ReportDatabase.dailyReports threeDays in
  (IndexedDB.update DailyReport.id (js "2024-01-15")
     (fun _ => titled "2024-01-15" "first") ;;
   IndexedDB.update DailyReport.id (js "2024-01-15")
     (fun _ => titled "2024-01-15" "second"))%op s
  = IndexedDB.update DailyReport.id (js "2024-01-15")
      (fun _ => titled "2024-01-15" "second") s.
Proof.
  intros s.
  exact (update_twice_is_update_by_composition DailyReport.id s
           (js "2024-01-15")
           (fun _ => titled "2024-01-15" "first")
           (fun _ => titled "2024-01-15" "second")
           (workDay "2024-01-15") eq_refl eq_refl eq_refl).
Defined.

(** Two new days are added at once; a batch holding a stored day is
    not. *)
Lemma addMultiple_all_or_nothing_witness :
  let s := ReportDatabase.dailyReports threeDays in
  (exists s',
     IndexedDB.addMultiple DailyReport.id
       [workDay "2024-03-02"; workDay "2024-03-01"] s = (Resolved tt, s') /\
     sortedStore DailyReport.id s') /\
  ~ exists s',
      IndexedDB.addMultiple DailyReport.id
        [workDay "2024-03-01"; workDay "2024-01-15"] s = (Resolved tt, s').
Proof.
  intros s.
  assert (Hs : sortedStore DailyReport.id s) by (repeat constructor).
  split.
  - destruct (addMultiple_all_or_nothing DailyReport.id s
                [workDay "2024-03-02"; workDay "2024-03-01"])
      as (_ & _ & Hres).
    eexists. split; [reflexivity|].
    destruct (Hres _ eq_refl) as (_ & Hsorted). exact (Hsorted Hs).
  - destruct (addMultiple_all_or_nothing DailyReport.id s
                [workDay "2024-03-01"; workDay "2024-01-15"])
      as (Hiff & _).
    intros H. apply Hiff in H. destruct H as (_ & Hfresh).
    apply (Hfresh (js "2024-01-15")).
    + right; left; reflexivity.
    + right; left; reflexivity.
Defined.

(** A stored key counts 1. *)
Lemma count_of_a_query_witness :
  let s := ReportDatabase.dailyReports threeDays in
  IndexedDBReads.count DailyReport.id
    (Some (IndexedDBReads.QueryKey (js "2024-01-15"))) s
  = (Resolved 1%nat, s).
Proof.
  intros s.
  assert (Hs : sortedStore DailyReport.id s) by (repeat constructor).
  destruct (count_of_a_query DailyReport.id s) as (_ & _ & Hkey & _).
  assert (Hne : js "2024-01-15" <> []) by discriminate.
  exact (Hkey Hs (js "2024-01-15") Hne).
Defined.

(** The keys of the three-day store are listed in ascending order. *)
Lemma exists_agrees_with_get_witness :
  let s := ReportDatabase.dailyReports threeDays in
  exists keys,
    IndexedDBReads.getAllKeys DailyReport.id s = (Resolved keys, s) /\
    StronglySorted (fun a b => str_ltb a b = true) keys.
Proof.
  intros s.
  assert (Hs : sortedStore DailyReport.id s) by (repeat constructor).
  destruct (exists_agrees_with_get DailyReport.id s (js "2024-01-15"))
    as (_ & _ & Hkeys).
  exact (Hkeys Hs).
Defined.

(** A search with limit 2 returns the first two days. *)
Lemma search_limit_witness :
  let s := ReportDatabase.dailyReports threeDays in
  IndexedDB.search DailyReport.id firstTwo s
  = (Resolved [workDay "2024-01-01"; workDay "2024-01-15"], s).
Proof.
  intros s.
  destruct (search_limit DailyReport.id firstTwo s) as (Hpos & _).
  assert (H2 : 0 < 2) by reflexivity.
  exact (Hpos 2 eq_refl H2).
Defined.

(** The range [only] of a stored day returns that day's report. *)
Lemma search_only_agrees_with_get_witness :
  let s := ReportDatabase.dailyReports threeDays in
  IndexedDB.search DailyReport.id
    (IndexedDB.rangeOnly (createRange.only (js "2024-01-15"))) s
  = (Resolved [workDay "2024-01-15"], s).
Proof.
  intros s.
  assert (Hs : sortedStore DailyReport.id s) by (repeat constructor).
  exact (search_only_agrees_with_get DailyReport.id s (js "2024-01-15") Hs).
Defined.

(** A string is at distance 0 from itself. *)
Lemma levenshteinDistance_zero_iff_equal_witness :
  levenshteinDistance (js "kitten") (js "kitten") = 0%nat /\
  js "kitten" <> js "sitting".
Proof.
  destruct (levenshteinDistance_zero_iff_equal (js "kitten") (js "kitten"))
    as (_ & Hzero).
  destruct (levenshteinDistance_zero_iff_equal (js "kitten") (js "sitting"))
    as (Heq & _).
  split; [exact (Hzero eq_refl)|].
  intros E. discriminate E.
Defined.

(** The similarity of "running" and "runing". *)
Lemma similarity_range_witness :
  (0 < Nat.max (length (js "running")) (length (js "runing")))%nat /\
  (0 <= IndexedDB.similarity (js "running") (js "runing") <= 1)%Q.
Proof.
  assert (H : (0 < Nat.max (length (js "running"))
                    (length (js "runing")))%nat)
    by (vm_compute; lia).
  split; [exact H|].
  destruct (similarity_range (js "running") (js "runing") H) as (Hr & _).
  exact Hr.
Defined.

(** "running" scores 1 on a title that holds the word. *)
Lemma fuzzy_score_of_a_long_term_witness :
  exists q,
    IndexedDB.getFuzzyMatchScore asciiLower (fun _ _ _ => None)
      (fuzzyOptions (7 # 10)) (js "Went running today") (js "running")
      = Some q /\
    (q == 1)%Q.
Proof.
  assert (Hlen : (3 < length (js "running"))%nat) by (vm_compute; lia).
  destruct (fuzzy_score_of_a_long_term asciiLower (fun _ _ _ => None)
              (fuzzyOptions (7 # 10)) (js "Went running today")
              (js "running") Hlen) as (q & Hq & _ & Hone & _).
  exists q. split; [exact Hq|]. apply Hone.
  - right; left; reflexivity.
  - vm_compute. discriminate.
Defined.

(** One field and two terms: no entry scores above 2. *)
Lemma fullTextSearch_score_bound_witness :
  exists res,
    IndexedDB.fullTextSearch dailyField asciiLower (fun _ _ _ => None)
      exactOptions (js "running more") [js "title"] threeTitles
      = (Resolved res, threeTitles) /\
    Forall (fun e => (IndexedDB.score e <= 2)%Q) res.
Proof.
  eexists. split; [reflexivity|].
  exact (fullTextSearch_score_bound dailyField asciiLower (fun _ _ _ => None)
           exactOptions threeTitles (js "running more") [js "title"] _ _
           eq_refl eq_refl).
Defined.

(** The two titles that hold "running" are returned, the third is not. *)
Lemma fullTextSearch_returns_the_matching_records_witness :
  exists res,
    IndexedDB.fullTextSearch dailyField asciiLower (fun _ _ _ => None)
      exactOptions (js "running") [js "title"] threeTitles
      = (Resolved res, threeTitles) /\
    (exists e, In e res /\
               IndexedDB.item e = titled "2024-01-02" "running") /\
    ~ (exists e, In e res /\
                 IndexedDB.item e = titled "2024-01-01" "walking").
Proof.
  eexists. split; [reflexivity|].
  destruct (fullTextSearch_returns_the_matching_records dailyField asciiLower
              (fun _ _ _ => None) exactOptions threeTitles (js "running")
              [js "title"] _ _ eq_refl eq_refl eq_refl) as (_ & Hexact).
  specialize (Hexact eq_refl eq_refl). split.
  - apply Hexact. split; [right; left; reflexivity|].
    exists (js "title"), (js "running"), (js "running").
    repeat split; try (left; reflexivity).
  - intros H. apply Hexact in H.
    destruct H as (_ & f & tx & t & Hf & Hv & Ht & Hinc).
    destruct Hf as [<-|[]]. injection Hv as <-.
    destruct Ht as [<-|[]]. discriminate Hinc.
Defined.

(** Two days of "Work" merge into one slice of value 2. *)
Lemma mergeReportData_slices_witness :
  let rs := map DailyReport.data [workDay "2024-01-01"; workDay "2024-01-02"] in
  let out := Float64.mergeReportData (map asNumbers rs) in
  safeIntegers rs /\
  In (js "Work") (map Float64.name (Float64.pieChart out)) /\
  Forall (fun s => Float64.toInteger (Float64.value s)
                   = Some (categoryTotal (Float64.name s) rs))
    (Float64.pieChart out) /\
  categoryTotal (js "Work") rs = 2.
Proof.
  intros rs out.
  assert (Hsafe : safeIntegers rs) by (split; vm_compute; discriminate).
  destruct (mergeReportData_slices rs Hsafe) as (_ & Hin & Hval).
  split; [exact Hsafe|]. split; [|split; [exact Hval | reflexivity]].
  apply Hin. discriminate.
Defined.

(** A merge of slices that add up to 0 has no finite percentage; the
    merge of a day of one activity has a finite one. *)
Lemma mergeReportData_percents_witness :
  safeIntegers [idleDay] /\
  grandTotalOf [idleDay] = 0 /\
  Forall
    (fun q =>
       PrimFloat.is_finite (Float64.QuickReportData.percent q)
       = false)
    (Float64.quickReport (Float64.mergeReportData [asNumbers idleDay])) /\
  Forall
    (fun q =>
       PrimFloat.is_finite (Float64.QuickReportData.percent q)
       = true)
    (Float64.quickReport
       (Float64.mergeReportData
          [asNumbers (DailyReport.data (workDay "2024-01-01"))])).
Proof.
  assert (Hidle : safeIntegers [idleDay]) by (split; vm_compute; discriminate).
  assert (Hwork : safeIntegers [DailyReport.data (workDay "2024-01-01")])
    by (split; vm_compute; discriminate).
  destruct (mergeReportData_percents [idleDay] Hidle)
    as (total & _ & _ & Hzero & _).
  destruct (mergeReportData_percents
              [DailyReport.data (workDay "2024-01-01")] Hwork)
    as (total' & _ & _ & _ & Hfin).
  split; [exact Hidle|]. split; [reflexivity|].
  split; [exact (Hzero eq_refl)|].
  apply Hfin. discriminate.
Defined.

(** The merged detailed report of two days of "Work" names "Work"
    once. *)
Lemma mergeReportData_invents_nothing_witness :
  let rs := map DailyReport.data [workDay "2024-01-01"; workDay "2024-01-02"] in
  let out := Float64.mergeReportData (map asNumbers rs) in
  safeIntegers rs /\
  categoryAppearsIn (js "Work") rs /\
  In (js "Work") (map Float64.category (Float64.detailedReport out)) /\
  NoDup (map Float64.category (Float64.detailedReport out)).
Proof.
  intros rs out.
  assert (H : categoryAppearsIn (js "Work") rs).
  { eexists _, _. split; [left; reflexivity|].
    split; [left; reflexivity | reflexivity]. }
  assert (Hsafe : safeIntegers rs) by (split; vm_compute; discriminate).
  destruct (mergeReportData_invents_nothing rs Hsafe) as (Hnd & Hiff & _).
  split; [exact Hsafe|]. split; [exact H|].
  split; [apply Hiff; exact H | exact Hnd].
Defined.

(** The merge of the three days of the sample store merges into itself. *)
Lemma mergeReportData_idempotent_witness :
  let rs := map DailyReport.data (ReportDatabase.dailyReports threeDays) in
  let once := Float64.mergeReportData (map asNumbers rs) in
  safeIntegers rs /\
  Float64.mergeReportData [once] = once.
Proof.
  intros rs once.
  assert (Hsafe : safeIntegers rs) by (split; vm_compute; discriminate).
  split; [exact Hsafe|]. exact (mergeReportData_idempotent rs Hsafe).
Defined.

(** The report data of a day of two categories merges into itself. *)
Lemma mergeReportData_of_one_day_witness :
  NoDup (map CategoryData.category twoCategories) /\
  mergeReportData [generateReportData twoCategories]
    = generateReportData twoCategories /\
  detailedReport (generateReportData twoCategories) =
    [{| category := js "Work";
        activities := [{| activity := js "coding"; count := 2 |};
                       {| activity := js "email"; count := 1 |}] |};
     {| category := js "Rest";
        activities := [{| activity := js "nap"; count := 1 |}] |}].
Proof.
  assert (H : NoDup (map CategoryData.category twoCategories)).
  { constructor; [intros [E|[]]; discriminate E|].
    constructor; [intros []|constructor]. }
  split; [exact H|]. split; [|reflexivity].
  exact (mergeReportData_of_one_day twoCategories H).
Defined.

(** The three-day store, exported and imported into an empty database. *)
Lemma export_then_import_witness :
  exists e,
    ReportDatabaseCalls.exportAllReports threeDays = (Resolved e, threeDays) /\
    ReportDatabase.importReports (ReportDatabaseCalls.asImportData e) emptyDB
      = (Resolved tt, threeDays).
Proof.
  assert (Hd : sortedStore DailyReport.id
                 (ReportDatabase.dailyReports threeDays))
    by (repeat constructor).
  assert (Hy : sortedStore YearlyReport.id
                 (ReportDatabase.yearlyReports threeDays)) by constructor.
  destruct (export_then_import threeDays emptyDB Hd Hy) as (He & Hi & _).
  eexists. split; [exact He | exact Hi].
Defined.

(** The 365th report: the yearly report of 2023 is stored and the daily
    store is emptied, the report of 31 December 2022 with it. *)
Lemma handleGenerateReport_rollover_witness :
  exists y,
    handleGenerateReport_save false (js "2023-12-31") emptyData
      daysBeforeRollover
    = (Resolved tt,
       {| ReportDatabase.dailyReports := [];
          ReportDatabase.yearlyReports := [y] |}) /\
    YearlyReport.id y = js "2023" /\
    pieChart (YearlyReport.data y) = [].
Proof.
  destruct (handleGenerateReport_rollover false (js "2023-12-31") emptyData
              daysBeforeRollover) as (Hrun & _).
  - reflexivity.
  - vm_compute. reflexivity.
  - intros _. vm_compute. reflexivity.
  - reflexivity.
  - vm_compute. reflexivity.
  - eexists. split; [exact Hrun|]. split; [reflexivity|].
    vm_compute. reflexivity.
Defined.

(** A fourth day is saved beside the three. *)
Lemma handleGenerateReport_below_rollover_witness :
  exists db',
    handleGenerateReport_save false (js "2024-03-01") emptyData threeDays
      = (Resolved tt, db') /\
    ReportDatabase.yearlyReports db' = [] /\
    IndexedDB.lookup DailyReport.id (ReportDatabase.dailyReports db')
      (js "2024-01-15") = Some (workDay "2024-01-15").
Proof.
  destruct (handleGenerateReport_below_rollover false (js "2024-03-01")
              emptyData threeDays) as (db' & Hrun & Hy & _ & Hother).
  - reflexivity.
  - reflexivity.
  - intros _. reflexivity.
  - reflexivity.
  - exists db'. split; [exact Hrun|]. split; [exact Hy|].
    rewrite (Hother (js "2024-01-15")); [reflexivity | discriminate].
Defined.

(** A second report of 15 January: the handler ends at the check and
    leaves the three days as they are. *)
Lemma handleGenerateReport_existing_reports_witness :
  (forall generated,
     handleGenerateReport_database false false (js "2024-01-15") generated
       threeDays = (Resolved tt, threeDays)) /\
  handleGenerateReport_database false true (js "2024-01-15") (Some emptyData)
    threeDays = (Rejected (ConstraintError (js "2024-01-15")), threeDays).
Proof.
  destruct (handleGenerateReport_existing_reports (js "2024-01-15") emptyData
              threeDays) as (Hstored & _).
  - reflexivity.
  - reflexivity.
  - apply Hstored. eexists. reflexivity.
Defined.
